(** * Observability and usage accounting: a shallow embedding

    The development follows the TypeScript modules of the repository:

    - [TokenUsage] : the usage ledger and its windowed statistics
      (lib/stores/tokenUsage);
    - [Json]       : JavaScript values, [JSON.stringify] and
      [TextEncoder.encode], as far as the debug manager uses them;
    - [Debug]      : the [DebugManager] class (lib/debug): retention
      buffer, payload truncation, interceptors, listeners, lifecycle;
    - [TokenCounting] : the token counter (lib/token-counter);
    - [Settings]   : the parts of the settings dialog that print payloads
      and toggle providers (components/ui/Settings).

    The properties follow in [UsageFacts], [TruncationFacts] and
    [DebugFacts], and in [UsageMore], [CountingFacts], [SettingsFacts],
    [DebugMore] and [TruncationMore].

    Numbers.  Token counts, limits and millisecond timestamps are
    JavaScript numbers holding integers; they are modelled by [Z], which
    is exact for doubles below 2^53.  The fractional byte budgets of
    [truncateData] are modelled by exact rationals ([Q]).  The two
    percentages of [getUsageStats] are modelled by the exact quotient
    ([Qc]), from which the double computed by the code differs by the
    rounding of a division and a multiplication; what is stated about
    them is limited to what holds of that double: the values 0 and 100,
    the order with respect to them, and the distance to the exact
    quotient.

    Objects.  [localStorage] is the platform's [Storage] in a browser
    ([browser_host]); an ordinary object with an assignable [setItem]
    ([pristine_host]) stands for a replacement of it.  The accumulator of
    the per-provider sums is the object literal [{}], with the keys it
    inherits and the order in which [Object.entries] lists its own. *)

From Stdlib Require Import ZArith NArith QArith Qcanon Qcabs Qround Lia Lqa List Bool.
From Stdlib Require Import Sorted Permutation.
From Stdlib Require Import Ascii String DecimalString.
From stdpp Require Import base gmap list strings.
Import ListNotations.

Set Warnings "-register-all".

Local Open Scope string_scope.
Local Open Scope list_scope.
Local Open Scope Z_scope.

(* ===================================================================== *)
(** * The usage ledger (lib/stores/tokenUsage)                            *)
(* ===================================================================== *)

Module TokenUsage.

Record TokenUsageData := mkUsage {
  provider : string;
  model : string;
  promptTokens : Z;
  completionTokens : Z;
  totalTokens : Z;
  timestamp : Z
}.

(** [limits] is a JavaScript object used as a map from provider name to
    limit; only the sum of its values is ever read. *)
Record TokenUsageStore := mkStore {
  usageData : list TokenUsageData;
  limits : gmap string Z
}.

Definition COOKIE_KEY : string := "tokenUsageData".
Definition MAX_HISTORY_DAYS : Z := 30.

Definition initialState : TokenUsageStore :=
  {| usageData := []; limits := ∅ |}.

(** The client: the [tokenUsageStore] atom, the cookie jar entry under
    [COOKIE_KEY] (the stored document with its expiry instant; the JSON
    text is abstracted to the document it encodes), whether the module
    runs in a browser, and whether [Cookies.set] raises.  [warnings]
    records the messages handed to [debug.warn]. *)
Record Client := mkClient {
  tokenUsageStore : TokenUsageStore;
  cookie : option (TokenUsageStore * Z);
  isClient : bool;
  cookies_set_throws : bool;
  warnings : list string
}.

Definition day_ms : Z := 24 * 60 * 60 * 1000.

(** [saveToStorage]: a no-op off the client; a failing write is caught and
    reported through [debug.warn]. *)
Definition saveToStorage (now : Z) (state : TokenUsageStore) (c : Client) : Client :=
  if negb (isClient c) then c
  else if cookies_set_throws c then
    {| tokenUsageStore := tokenUsageStore c; cookie := cookie c;
       isClient := isClient c; cookies_set_throws := cookies_set_throws c;
       warnings := warnings c ++ ["Failed to save token usage data to cookie:"] |}
  else
    {| tokenUsageStore := tokenUsageStore c;
       cookie := Some (state, now + MAX_HISTORY_DAYS * day_ms);
       isClient := isClient c; cookies_set_throws := cookies_set_throws c;
       warnings := warnings c |}.

Definition set_store (state : TokenUsageStore) (c : Client) : Client :=
  {| tokenUsageStore := state; cookie := cookie c; isClient := isClient c;
     cookies_set_throws := cookies_set_throws c; warnings := warnings c |}.

(** [addTokenUsage]; [now] is the value of [Date.now()]. *)
Definition addTokenUsage (now : Z) (data : TokenUsageData) (c : Client) : Client :=
  let currentState := tokenUsageStore c in
  let appended := usageData currentState ++ [data] in
  let cutoffTime := now - MAX_HISTORY_DAYS * 24 * 60 * 60 * 1000 in
  let newState :=
    {| usageData := List.filter (fun d => cutoffTime <=? timestamp d) appended;
       limits := limits currentState |} in
  let c1 := set_store newState c in
  if isClient c1 then saveToStorage now newState c1 else c1.

(** [setTokenLimit]. *)
Definition setTokenLimit (now : Z) (p : string) (limit : Z) (c : Client) : Client :=
  let currentState := tokenUsageStore c in
  let newState :=
    {| usageData := usageData currentState;
       limits := <[p := limit]> (limits currentState) |} in
  let c1 := set_store newState c in
  if isClient c1 then saveToStorage now newState c1 else c1.

Inductive TimeRange := H24 | D7 | D30 | All.

Definition cutoffTime (now : Z) (timeRange : TimeRange) : Z :=
  match timeRange with
  | H24 => now - 24 * 60 * 60 * 1000
  | D7 => now - 7 * 24 * 60 * 60 * 1000
  | D30 => now - 30 * 24 * 60 * 60 * 1000
  | All => 0
  end.

Definition filteredData (now : Z) (timeRange : TimeRange) (st : TokenUsageStore)
  : list TokenUsageData :=
  List.filter (fun d => cutoffTime now timeRange <=? timestamp d) (usageData st).

(** [filteredData.reduce((sum, d) => sum + d.totalTokens, 0)] *)
Definition sumTokens (l : list TokenUsageData) : Z :=
  fold_left (fun sum d => sum + totalTokens d) l 0.

(** The accumulator of the per-provider [reduce] is the object literal
    [{}]: its own properties, in the order in which they were first
    written.  The names below are not own properties of [{}] but are
    found on it, inherited from [Object.prototype]. *)
Definition inherited_names : list string :=
  ["__proto__"; "constructor"; "hasOwnProperty"; "isPrototypeOf";
   "propertyIsEnumerable"; "toLocaleString"; "toString"; "valueOf";
   "__defineGetter__"; "__defineSetter__"; "__lookupGetter__";
   "__lookupSetter__"].

(** A key under which [acc[p]] reads [undefined] until it is written. *)
Definition own_name (p : string) : bool :=
  negb (existsb (String.eqb p) inherited_names).

(** [acc[p] = (acc[p] || 0) + n] for a key that [{}] does not inherit. *)
Fixpoint bump_own (acc : list (string * Z)) (p : string) (n : Z)
  : list (string * Z) :=
  match acc with
  | [] => [(p, 0 + n)]
  | (k, v) :: rest =>
      if String.eqb k p then (k, v + n) :: rest else (k, v) :: bump_own rest p n
  end.

(** [acc[p] = (acc[p] || 0) + n].  Under the key '__proto__' the read
    finds [Object.prototype] and the assignment goes to the inherited
    setter, which ignores a value that is not an object: no property is
    written.  Under the other inherited names the read finds a function,
    and the code goes on with the text of that function; the rows of
    such providers are not numbers and are outside what [bump]
    describes: the properties below are stated for providers with
    [own_name]. *)
Definition bump (acc : list (string * Z)) (p : string) (n : Z) : list (string * Z) :=
  if String.eqb p "__proto__" then acc else bump_own acc p n.

Definition providerUsage (l : list TokenUsageData) : list (string * Z) :=
  fold_left (fun acc d => bump acc (provider d) (totalTokens d)) l [].

(** The value of a decimal numeral, [None] for a text holding another
    character. *)
Fixpoint numeral_value (s : string) (acc : N) : option N :=
  match s with
  | EmptyString => Some acc
  | String a rest =>
      let n := N_of_ascii a in
      if andb (48 <=? n)%N (n <=? 57)%N
      then numeral_value rest (10 * acc + (n - 48))%N
      else None
  end.

(** The array index a property key stands for: the keys that are the
    canonical numeral of an integer from 0 to 2^32 - 2. *)
Definition array_index (key : string) : option N :=
  match key with
  | EmptyString => None
  | String a rest =>
      if andb (Ascii.eqb a "0"%char) (negb (String.eqb rest "")) then None
      else match numeral_value key 0 with
           | Some n => if (n <=? 4294967294)%N then Some n else None
           | None => None
           end
  end.

Fixpoint insert_indexed (i : N) (row : string * Z) (rows : list (N * (string * Z)))
  : list (N * (string * Z)) :=
  match rows with
  | [] => [(i, row)]
  | (j, r) :: rest =>
      if (i <? j)%N then (i, row) :: rows else (j, r) :: insert_indexed i row rest
  end.

(** [Object.entries(acc)]: the keys that are array indices in ascending
    order, then the other keys in the order in which they were first
    written. *)
Definition Object_entries (acc : list (string * Z)) : list (string * Z) :=
  List.map snd
    (fold_left (fun sorted row =>
                  match array_index (fst row) with
                  | Some i => insert_indexed i row sorted
                  | None => sorted
                  end) acc [])
  ++ List.filter (fun row => match array_index (fst row) with
                             | Some _ => false
                             | None => true
                             end) acc.

(** [Object.values(limits).reduce((sum, limit) => sum + limit, 0)] *)
Definition totalAvailable (st : TokenUsageStore) : Z :=
  map_fold (fun _ limit sum => sum + limit) 0 (limits st).

(** [(a / b) * 100], as the exact quotient.  The code computes it in
    floating point: the division and the multiplication each round to
    the nearest double, so what it returns is this quotient up to a
    relative error below 2^-51 ([within_rounding]), and the quotient
    itself where both operations are exact. *)
Definition ratio100 (a b : Z) : Qc :=
  (Q2Qc (inject_Z a) / Q2Qc (inject_Z b) * Q2Qc (inject_Z 100))%Qc.

(** [q] is [(a / b) * 100] up to the rounding of the two floating-point
    operations. *)
Definition within_rounding (q : Qc) (a b : Z) : Prop :=
  (Qcabs (q * Q2Qc (inject_Z b) - Q2Qc (inject_Z (a * 100)))
   <= Q2Qc (1 # 2251799813685248) * Qcabs (Q2Qc (inject_Z (a * 100))))%Qc.

Record ProviderShare := mkShare {
  name : string;
  usage : Z;
  percentage : Qc
}.

(** The result of [getUsageStats] without [chartData], whose labels depend
    on the host locale. *)
Record UsageStats := mkStats {
  total : Z;
  used : Z;
  remaining : Z;
  percentUsed : Qc;
  providerBreakdown : list ProviderShare
}.

Definition getUsageStats (now : Z) (timeRange : TimeRange) (st : TokenUsageStore)
  : UsageStats :=
  let filtered := filteredData now timeRange st in
  let tokens := sumTokens filtered in
  let avail := totalAvailable st in
  {| total := avail;
     used := tokens;
     remaining := Z.max 0 (avail - tokens);
     percentUsed := if 0 <? avail then ratio100 tokens avail else Q2Qc 0;
     providerBreakdown :=
       List.map (fun '(n, u) =>
              {| name := n; usage := u;
                 percentage := if 0 <? tokens then ratio100 u tokens else Q2Qc 0 |})
           (Object_entries (providerUsage filtered)) |}.

(** Tokens of the events of provider [p] in [l]. *)
Definition tokensOf (p : string) (l : list TokenUsageData) : Z :=
  sumTokens (List.filter (fun d => String.eqb (provider d) p) l).

(** [acc[p]], [None] for [undefined]. *)
Fixpoint usageOf (p : string) (acc : list (string * Z)) : option Z :=
  match acc with
  | [] => None
  | (k, v) :: rest => if String.eqb k p then Some v else usageOf p rest
  end.

(** The share of [u] in [tokens], as [getUsageStats] computes it. *)
Definition share (u tokens : Z) : Qc :=
  if 0 <? tokens then ratio100 u tokens else Q2Qc 0.

(** The events the per-provider [reduce] writes a property for. *)
Definition counted (l : list TokenUsageData) : list TokenUsageData :=
  List.filter (fun d => negb (String.eqb (provider d) "__proto__")) l.

(** What the accumulator of the per-provider [reduce] holds once the
    events [seen], none of them of the provider '__proto__', have been
    folded in. *)
Definition usage_table (seen : list TokenUsageData) (acc : list (string * Z)) : Prop :=
  List.NoDup (List.map fst acc) /\
  forall p, usageOf p acc
            = if existsb (fun d => String.eqb (provider d) p) seen
              then Some (tokensOf p seen) else None.

End TokenUsage.

(* ===================================================================== *)
(** * JavaScript values and their JSON text                               *)
(* ===================================================================== *)

Module Json.

(** A JavaScript string is a sequence of UTF-16 code units. *)
Definition JsString := list N.

Fixpoint str (s : string) : JsString :=
  match s with
  | EmptyString => []
  | String a rest => N_of_ascii a :: str rest
  end.

(** What a [throw] carries: an instance of [Error] (its name and message)
    or any other value. *)
Inductive Thrown :=
| JsError (name : string) (message : JsString)
| NonError (tag : N).

Inductive Result (A : Type) :=
| Ok (a : A)
| Throw (e : Thrown).
Arguments Ok {A} a.
Arguments Throw {A} e.

(** The values that reach the debug manager as payloads.  [JNumber] holds
    an integral number printed in plain decimal notation.  [JCycle]
    stands for a property whose value is one of the objects enclosing it,
    which is what makes a structure circular; [JBigInt] is the other
    value [JSON.stringify] refuses.  [JObject] lists the own enumerable
    properties, each key once, in the order of [Object.entries].  The
    values for which this reading is exact are singled out by
    [representable] below. *)
Inductive JsValue :=
| JUndefined
| JNull
| JBool (b : bool)
| JNumber (n : Z)
| JBigInt (n : Z)
| JString (s : JsString)
| JArray (items : list JsValue)
| JObject (props : list (JsString * JsValue))
| JCycle.

(** Truthiness, as tested by [data ? ... : ...]. *)
Definition truthy (v : JsValue) : bool :=
  match v with
  | JUndefined | JNull => false
  | JBool b => b
  | JNumber n | JBigInt n => negb (n =? 0)
  | JString s => match s with [] => false | _ => true end
  | JArray _ | JObject _ | JCycle => true
  end.

Definition is_high_surrogate (c : N) : bool := ((0xD800 <=? c) && (c <=? 0xDBFF))%N.
Definition is_low_surrogate (c : N) : bool := ((0xDC00 <=? c) && (c <=? 0xDFFF))%N.

Definition hex_digit (d : N) : N := (if d <? 10 then 48 + d else 87 + d)%N.

(** The six characters of a [\uXXXX] escape. *)
Definition unicode_escape (c : N) : JsString :=
  [92; 117; hex_digit ((c / 4096) mod 16); hex_digit ((c / 256) mod 16);
   hex_digit ((c / 16) mod 16); hex_digit (c mod 16)]%N.

(** QuoteJSONString without the surrounding quotes: short escapes,
    [\u] escapes for the other control characters and for lone
    surrogates, everything else verbatim. *)
Fixpoint quote_body (s : JsString) : JsString :=
  match s with
  | [] => []
  | c :: rest =>
      if (c =? 8)%N then [92; 98]%N ++ quote_body rest
      else if (c =? 9)%N then [92; 116]%N ++ quote_body rest
      else if (c =? 10)%N then [92; 110]%N ++ quote_body rest
      else if (c =? 12)%N then [92; 102]%N ++ quote_body rest
      else if (c =? 13)%N then [92; 114]%N ++ quote_body rest
      else if (c =? 34)%N then [92; 34]%N ++ quote_body rest
      else if (c =? 92)%N then [92; 92]%N ++ quote_body rest
      else if (c <? 32)%N then unicode_escape c ++ quote_body rest
      else if is_high_surrogate c then
        match rest with
        | d :: rest' =>
            if is_low_surrogate d then c :: d :: quote_body rest'
            else unicode_escape c ++ quote_body rest
        | [] => unicode_escape c
        end
      else if is_low_surrogate c then unicode_escape c ++ quote_body rest
      else c :: quote_body rest
  end.

Definition quote (s : JsString) : JsString := [34%N] ++ quote_body s ++ [34%N].

(** [TextEncoder.encode]: the UTF-8 bytes of a string; a surrogate pair
    is one four-byte code point, a lone surrogate becomes U+FFFD. *)
Fixpoint utf8_encode (s : JsString) : list N :=
  match s with
  | [] => []
  | c :: rest =>
      if (c <? 0x80)%N then c :: utf8_encode rest
      else if (c <? 0x800)%N then
        [0xC0 + c / 64; 0x80 + c mod 64]%N ++ utf8_encode rest
      else if is_high_surrogate c then
        match rest with
        | d :: rest' =>
            if is_low_surrogate d then
              let cp := (0x10000 + (c - 0xD800) * 1024 + (d - 0xDC00))%N in
              [0xF0 + cp / 262144; 0x80 + (cp / 4096) mod 64;
               0x80 + (cp / 64) mod 64; 0x80 + cp mod 64]%N ++ utf8_encode rest'
            else [0xEF; 0xBF; 0xBD]%N ++ utf8_encode rest
        | [] => [0xEF; 0xBF; 0xBD]%N
        end
      else if is_low_surrogate c then [0xEF; 0xBF; 0xBD]%N ++ utf8_encode rest
      else [0xE0 + c / 4096; 0x80 + (c / 64) mod 64; 0x80 + c mod 64]%N
             ++ utf8_encode rest
  end.

(** Characters that [JSON.stringify] copies verbatim and UTF-8 encodes in
    one byte: printable ASCII other than the quote and the backslash. *)
Definition plain_char (c : N) : bool :=
  ((32 <=? c) && (c <? 127) && negb (c =? 34) && negb (c =? 92))%N.

(** [Array.prototype.join]. *)
Fixpoint join (sep : JsString) (parts : list JsString) : JsString :=
  match parts with
  | [] => []
  | [p] => p
  | p :: rest => p ++ sep ++ join sep rest
  end.

(** [String(n)] for an integer printed in plain decimal notation, which
    is how JavaScript prints the integers below 10^21. *)
Definition number_to_string (n : Z) : JsString :=
  str (DecimalString.NilZero.string_of_int (Z.to_int n)).

(** The texts of the elements of an array, [undefined] printing as
    [null]; [f] serializes one element. *)
Definition elements_with (f : JsValue -> Result (option JsString))
  : list JsValue -> Result (list JsString) :=
  fix elements (l : list JsValue) : Result (list JsString) :=
    match l with
    | [] => Ok []
    | x :: rest =>
        match f x with
        | Throw e => Throw e
        | Ok o =>
            match elements rest with
            | Throw e => Throw e
            | Ok parts => Ok (default (str "null") o :: parts)
            end
        end
    end.

(** The [ "key":value ] members of an object; a property whose value
    serializes to [undefined] is left out. *)
Definition members_with (f : JsValue -> Result (option JsString))
  : list (JsString * JsValue) -> Result (list JsString) :=
  fix members (l : list (JsString * JsValue)) : Result (list JsString) :=
    match l with
    | [] => Ok []
    | (k, x) :: rest =>
        match f x with
        | Throw e => Throw e
        | Ok o =>
            match members rest with
            | Throw e => Throw e
            | Ok parts =>
                Ok (match o with
                    | Some text => (quote k ++ [58%N] ++ text) :: parts
                    | None => parts
                    end)
            end
        end
    end.

(** [JSON.stringify(v)]: [Ok None] is the result [undefined], [Throw] the
    TypeError raised on a BigInt or on a circular structure. *)
Fixpoint stringify (v : JsValue) : Result (option JsString) :=
  match v with
  | JUndefined => Ok None
  | JNull => Ok (Some (str "null"))
  | JBool true => Ok (Some (str "true"))
  | JBool false => Ok (Some (str "false"))
  | JNumber n => Ok (Some (number_to_string n))
  | JBigInt _ => Throw (JsError "TypeError" (str "Do not know how to serialize a BigInt"))
  | JString s => Ok (Some (quote s))
  | JArray items =>
      match elements_with stringify items with
      | Throw e => Throw e
      | Ok parts => Ok (Some ([91%N] ++ join [44%N] parts ++ [93%N]))
      end
  | JObject props =>
      match members_with stringify props with
      | Throw e => Throw e
      | Ok parts => Ok (Some ([123%N] ++ join [44%N] parts ++ [125%N]))
      end
  | JCycle => Throw (JsError "TypeError" (str "Converting circular structure to JSON"))
  end.

(** [JSON.stringify] returns on [v]. *)
Definition serializable (v : JsValue) : Prop :=
  exists o, stringify v = Ok o.

(** [new TextEncoder().encode(JSON.stringify(v)).length]; encoding
    [undefined] yields no bytes. *)
Definition byteSize (v : JsValue) : Result Z :=
  match stringify v with
  | Throw e => Throw e
  | Ok None => Ok 0
  | Ok (Some text) => Ok (Z.of_nat (length (utf8_encode text)))
  end.

(** No key occurs twice. *)
Fixpoint distinct (keys : list JsString) : bool :=
  match keys with
  | [] => true
  | k :: rest => negb (existsb (fun k' => bool_decide (k' = k)) rest) && distinct rest
  end.

(** The values the embedding is exact for.  Their numbers are safe
    integers, which a double holds exactly and [String] prints in plain
    decimal notation.  Their objects have no own property named
    '__proto__': an assignment [o[key] = x] under that key goes to the
    setter inherited from [Object.prototype] and defines no property,
    where the lists of this embedding would gain an entry.  No key occurs
    twice in an object ([distinct]). *)
Fixpoint representable (v : JsValue) : bool :=
  match v with
  | JNumber n => Z.abs n <=? 9007199254740991
  | JArray items => forallb representable items
  | JObject props =>
      distinct (List.map fst props)
      && forallb (fun kv => negb (bool_decide (fst kv = str "__proto__"))
                            && representable (snd kv)) props
  | _ => true
  end.

End Json.

(* ===================================================================== *)
(** * The debug manager (lib/debug)                                       *)
(* ===================================================================== *)

Module Debug.

Import Json.

Inductive LogLevel := LDebug | LInfo | LWarn | LError.
Inductive Category := CNetwork | CState | CUser | CSystem | CError.

(** [timestamp] is the instant whose ISO-8601 text the entry carries, in
    milliseconds; [data] is [JUndefined] and [trace] is [None] where the
    source stores [undefined]. *)
Record LogEntry := mkEntry {
  timestamp : Z;
  level : LogLevel;
  category : Category;
  message : JsString;
  data : JsValue;
  trace : option JsString
}.

(** A registered callback: its identity in the listener set and what it
    does with an entry, which is to return or to raise. *)
Record Listener := mkListener {
  listener_id : nat;
  listener_run : LogEntry -> option Thrown
}.

(** ** The intercepted primitives

    Each primitive is a property holding a function.  The debug manager's
    replacements are closures; the constructors below name them. *)

(** [window.fetch]: the platform's, or [this._fetch.bind(this)], which
    looks up [_originalFetch] when it is called. *)
Inductive FetchImpl := NativeFetch | DebugFetch.

(** A console method: the platform's, or the arrow function installed by
    [_interceptConsole], which forwards to [_originalConsole]. *)
Inductive ConsoleImpl := NativeConsole | DebugConsole.

Inductive ConsoleMethod := MLog | MInfo | MWarn | MError.

Record Console := mkConsole {
  c_log : ConsoleImpl;
  c_info : ConsoleImpl;
  c_warn : ConsoleImpl;
  c_error : ConsoleImpl
}.

(** [window.onerror] / [window.onunhandledrejection]: a handler of the
    application, or the one installed by [_setupErrorListeners]. *)
Inductive Handler := AppHandler (tag : nat) | DebugHandler.

(** What a read of [localStorage.setItem] finds.  Where [localStorage] is
    the platform's [Storage], it is the method of [Storage.prototype]
    ([StorageMethod]), and an assignment [localStorage.setItem = f] does
    not replace it: a [Storage] takes the assignment as the storing of an
    item under the key 'setItem'.  Where [localStorage] is an ordinary
    object (a shim, a test double), the property is assignable: it holds
    the object's own function ([NativeSetItem]) or the arrow function of
    [_monitorStateChanges] closed over the function it replaced
    ([DebugSetItem]). *)
Inductive SetItemImpl :=
| NativeSetItem
| DebugSetItem (originalSetItem : SetItemImpl)
| StorageMethod.

(** The setter behind [document.cookie]: inherited from
    [Document.prototype], or the own property defined by
    [_monitorStateChanges], which calls the prototype's setter. *)
Inductive CookieSetter := ProtoCookieSetter | DebugCookieSetter.

Record FetchArgs := mkFetchArgs {
  url : JsString;
  method : option JsString
}.

Record Response := mkResponse {
  status : Z;
  statusText : JsString;
  body : N
}.

(** ** The host and the manager *)

Record Host := mkHost {
  isClient : bool;
  window_fetch : FetchImpl;
  console : Console;
  window_onerror : option Handler;
  window_onunhandledrejection : option Handler;
  localStorage_setItem : SetItemImpl;
  document_cookie : CookieSetter;
  (* what the platform does *)
  native_fetch : FetchArgs -> Result Response;
  cookie_descriptor_throws : bool;
  userAgent : JsString;
  (* [String(f)] for the arrow function [f] of [_monitorStateChanges] *)
  setItem_wrapper_text : JsString;
  (* what the platform holds *)
  localStorage_items : list (JsString * JsString);
  cookie_writes : list JsString;
  intervals : list nat;
  next_interval : nat;
  (* what reached the platform and the listeners *)
  network_calls : list FetchArgs;
  console_output : list (ConsoleMethod * JsValue * list JsValue);
  delivered : list (nat * LogEntry)
}.

Record DebugManager := mkManager {
  _logs : list LogEntry;
  _isEnabled : bool;
  _showLogsInDebugTabOnly : bool;
  _listeners : list Listener;
  _originalFetch : option FetchImpl;
  _originalConsole : Console;
  _cleanupInterval : option nat
}.

Definition _maxLogs : nat := 100.
Definition _maxDataSize : Q := inject_Z (50 * 1024).

Record World := mkWorld {
  host : Host;
  mgr : DebugManager
}.

(** Field updates. *)
Definition on_host (f : Host -> Host) (w : World) : World :=
  {| host := f (host w); mgr := mgr w |}.
Definition on_mgr (f : DebugManager -> DebugManager) (w : World) : World :=
  {| host := host w; mgr := f (mgr w) |}.

Definition set_logs (l : list LogEntry) (m : DebugManager) : DebugManager :=
  mkManager l (_isEnabled m) (_showLogsInDebugTabOnly m) (_listeners m)
            (_originalFetch m) (_originalConsole m) (_cleanupInterval m).
Definition set_isEnabled (b : bool) (m : DebugManager) : DebugManager :=
  mkManager (_logs m) b (_showLogsInDebugTabOnly m) (_listeners m)
            (_originalFetch m) (_originalConsole m) (_cleanupInterval m).
Definition set_showLogs (b : bool) (m : DebugManager) : DebugManager :=
  mkManager (_logs m) (_isEnabled m) b (_listeners m)
            (_originalFetch m) (_originalConsole m) (_cleanupInterval m).
Definition set_listeners (ls : list Listener) (m : DebugManager) : DebugManager :=
  mkManager (_logs m) (_isEnabled m) (_showLogsInDebugTabOnly m) ls
            (_originalFetch m) (_originalConsole m) (_cleanupInterval m).
Definition set_originalFetch (f : option FetchImpl) (m : DebugManager) : DebugManager :=
  mkManager (_logs m) (_isEnabled m) (_showLogsInDebugTabOnly m) (_listeners m)
            f (_originalConsole m) (_cleanupInterval m).
Definition set_cleanupInterval (i : option nat) (m : DebugManager) : DebugManager :=
  mkManager (_logs m) (_isEnabled m) (_showLogsInDebugTabOnly m) (_listeners m)
            (_originalFetch m) (_originalConsole m) i.

Definition set_window_fetch (f : FetchImpl) (h : Host) : Host :=
  mkHost (isClient h) f (console h) (window_onerror h)
         (window_onunhandledrejection h) (localStorage_setItem h)
         (document_cookie h) (native_fetch h) (cookie_descriptor_throws h)
         (userAgent h) (setItem_wrapper_text h)
         (localStorage_items h) (cookie_writes h) (intervals h)
         (next_interval h) (network_calls h) (console_output h) (delivered h).
Definition set_console (c : Console) (h : Host) : Host :=
  mkHost (isClient h) (window_fetch h) c (window_onerror h)
         (window_onunhandledrejection h) (localStorage_setItem h)
         (document_cookie h) (native_fetch h) (cookie_descriptor_throws h)
         (userAgent h) (setItem_wrapper_text h)
         (localStorage_items h) (cookie_writes h) (intervals h)
         (next_interval h) (network_calls h) (console_output h) (delivered h).
Definition set_error_handlers (e r : option Handler) (h : Host) : Host :=
  mkHost (isClient h) (window_fetch h) (console h) e r (localStorage_setItem h)
         (document_cookie h) (native_fetch h) (cookie_descriptor_throws h)
         (userAgent h) (setItem_wrapper_text h)
         (localStorage_items h) (cookie_writes h) (intervals h)
         (next_interval h) (network_calls h) (console_output h) (delivered h).
Definition set_setItem (f : SetItemImpl) (h : Host) : Host :=
  mkHost (isClient h) (window_fetch h) (console h) (window_onerror h)
         (window_onunhandledrejection h) f
         (document_cookie h) (native_fetch h) (cookie_descriptor_throws h)
         (userAgent h) (setItem_wrapper_text h)
         (localStorage_items h) (cookie_writes h) (intervals h)
         (next_interval h) (network_calls h) (console_output h) (delivered h).
Definition set_document_cookie (f : CookieSetter) (h : Host) : Host :=
  mkHost (isClient h) (window_fetch h) (console h) (window_onerror h)
         (window_onunhandledrejection h) (localStorage_setItem h)
         f (native_fetch h) (cookie_descriptor_throws h)
         (userAgent h) (setItem_wrapper_text h)
         (localStorage_items h) (cookie_writes h) (intervals h)
         (next_interval h) (network_calls h) (console_output h) (delivered h).
Definition set_items (items : list (JsString * JsString)) (h : Host) : Host :=
  mkHost (isClient h) (window_fetch h) (console h) (window_onerror h)
         (window_onunhandledrejection h) (localStorage_setItem h)
         (document_cookie h) (native_fetch h) (cookie_descriptor_throws h)
         (userAgent h) (setItem_wrapper_text h)
         items (cookie_writes h) (intervals h)
         (next_interval h) (network_calls h) (console_output h) (delivered h).
Definition set_cookie_writes (l : list JsString) (h : Host) : Host :=
  mkHost (isClient h) (window_fetch h) (console h) (window_onerror h)
         (window_onunhandledrejection h) (localStorage_setItem h)
         (document_cookie h) (native_fetch h) (cookie_descriptor_throws h)
         (userAgent h) (setItem_wrapper_text h)
         (localStorage_items h) l (intervals h)
         (next_interval h) (network_calls h) (console_output h) (delivered h).
Definition set_intervals (l : list nat) (next : nat) (h : Host) : Host :=
  mkHost (isClient h) (window_fetch h) (console h) (window_onerror h)
         (window_onunhandledrejection h) (localStorage_setItem h)
         (document_cookie h) (native_fetch h) (cookie_descriptor_throws h)
         (userAgent h) (setItem_wrapper_text h)
         (localStorage_items h) (cookie_writes h) l
         next (network_calls h) (console_output h) (delivered h).
Definition set_network_calls (l : list FetchArgs) (h : Host) : Host :=
  mkHost (isClient h) (window_fetch h) (console h) (window_onerror h)
         (window_onunhandledrejection h) (localStorage_setItem h)
         (document_cookie h) (native_fetch h) (cookie_descriptor_throws h)
         (userAgent h) (setItem_wrapper_text h)
         (localStorage_items h) (cookie_writes h) (intervals h)
         (next_interval h) l (console_output h) (delivered h).
Definition set_console_output (l : list (ConsoleMethod * JsValue * list JsValue))
  (h : Host) : Host :=
  mkHost (isClient h) (window_fetch h) (console h) (window_onerror h)
         (window_onunhandledrejection h) (localStorage_setItem h)
         (document_cookie h) (native_fetch h) (cookie_descriptor_throws h)
         (userAgent h) (setItem_wrapper_text h)
         (localStorage_items h) (cookie_writes h) (intervals h)
         (next_interval h) (network_calls h) l (delivered h).
Definition set_delivered (l : list (nat * LogEntry)) (h : Host) : Host :=
  mkHost (isClient h) (window_fetch h) (console h) (window_onerror h)
         (window_onunhandledrejection h) (localStorage_setItem h)
         (document_cookie h) (native_fetch h) (cookie_descriptor_throws h)
         (userAgent h) (setItem_wrapper_text h)
         (localStorage_items h) (cookie_writes h) (intervals h)
         (next_interval h) (network_calls h) (console_output h) l.

(** ** Statements that change the world and may raise *)

Definition M (A : Type) : Type := World -> World * Result A.

Definition ret {A} (a : A) : M A := fun w => (w, Ok a).
Definition throw {A} (e : Thrown) : M A := fun w => (w, Throw e).
Definition bind {A B} (c : M A) (k : A -> M B) : M B :=
  fun w => match c w with
           | (w', Ok a) => k a w'
           | (w', Throw e) => (w', Throw e)
           end.
(** [try { c } catch (error) { handler error }] *)
Definition try_catch {A} (c : M A) (handler : Thrown -> M A) : M A :=
  fun w => match c w with
           | (w', Ok a) => (w', Ok a)
           | (w', Throw e) => handler e w'
           end.
Definition modify (f : World -> World) : M unit := fun w => (f w, Ok tt).

Declare Scope js_scope.
Delimit Scope js_scope with js.
Notation "x <- c ;; k" := (bind c (fun x => k))
  (at level 100, c at next level, right associativity) : js_scope.
Notation "c ;; k" := (bind c (fun _ => k))
  (at level 100, right associativity) : js_scope.

Local Open Scope js_scope.

(** ** Payload truncation: the closure [truncateData] of [_log] *)

Definition truncation_marker : JsString := str "... [truncated]".

(** [obj.slice(0, 10).map((item) => truncateData(item, maxSize / 10))],
    with [f] the recursive call and [n] the elements still to take. *)
Definition truncate_items (f : JsValue -> Result JsValue)
  : nat -> list JsValue -> Result (list JsValue) :=
  fix each (n : nat) (l : list JsValue) {struct l} : Result (list JsValue) :=
    match n, l with
    | S n', item :: rest =>
        match f item with
        | Throw e => Throw e
        | Ok item' =>
            match each n' rest with
            | Throw e => Throw e
            | Ok rest' => Ok (item' :: rest')
            end
        end
    | _, _ => Ok []
    end.

(** The [for ... of Object.entries(obj)] loop, with [f] the recursive
    call: it stops before the first entry at which the sizes added up so
    far have reached [maxSize]. *)
Definition truncate_entries (f : JsValue -> Result JsValue) (maxSize : Q)
  : list (JsString * JsValue) -> list (JsString * JsValue) -> Z
    -> Result (list (JsString * JsValue)) :=
  fix loop (l truncated : list (JsString * JsValue)) (currentSize : Z) {struct l}
    : Result (list (JsString * JsValue)) :=
    match l with
    | [] => Ok truncated
    | (key, value) :: rest =>
        if Qle_bool maxSize (inject_Z currentSize) then Ok truncated
        else
          match f value with
          | Throw e => Throw e
          | Ok value' =>
              match byteSize value' with
              | Throw e => Throw e
              | Ok sz => loop rest (truncated ++ [(key, value')]) (currentSize + sz)
              end
          end
    end.

(** [maxSize] becomes fractional in the recursive calls ([maxSize / 10],
    [maxSize / 4]); only [Math.floor(maxSize / 2)] is rounded. *)
Fixpoint truncateData (obj : JsValue) (maxSize : Q) : Result JsValue :=
  match byteSize obj with
  | Throw e => Throw e
  | Ok size =>
      if Qle_bool (inject_Z size) maxSize then Ok obj
      else
        match obj with
        | JString s =>
            Ok (JString (firstn (Z.to_nat (Qfloor (maxSize / 2))) s
                           ++ truncation_marker))
        | JArray items =>
            match truncate_items (fun item => truncateData item (maxSize / 10))
                                 10%nat items with
            | Throw e => Throw e
            | Ok items' => Ok (JArray items')
            end
        | JObject props =>
            match truncate_entries (fun value => truncateData value (maxSize / 4))
                                   maxSize props [] 0 with
            | Throw e => Throw e
            | Ok truncated => Ok (JObject truncated)
            end
        | _ => Ok obj
        end
  end.

(** The bytes the loop of [truncateData] has counted once it has written
    the entries [props]: the sizes of their values. *)
Definition counted_bytes (props : list (JsString * JsValue)) : Z :=
  fold_right (fun kv sum => match byteSize (snd kv) with
                            | Ok sz => sz + sum
                            | Throw _ => sum
                            end) 0 props.

(** [truncateData] returns on [v] whatever the budget, and returns a
    serializable value, provided [v] is serializable. *)
Definition truncates_well (v : JsValue) : Prop :=
  serializable v ->
  forall maxSize, exists v', truncateData v maxSize = Ok v' /\ serializable v'.

(** [s.split('\n')] *)
Fixpoint split_lines (s : JsString) : list JsString :=
  match s with
  | [] => [[]]
  | c :: rest =>
      if (c =? 10)%N then [] :: split_lines rest
      else match split_lines rest with
           | [] => [[c]]
           | line :: lines => (c :: line) :: lines
           end
  end.

(** ** Appending an entry *)

(** [this._listeners.forEach((listener) => listener(entry))]: callbacks
    run in insertion order; one that raises ends the iteration. *)
Fixpoint notify (ls : list Listener) (entry : LogEntry) : M unit :=
  match ls with
  | [] => ret tt
  | l :: rest =>
      fun w =>
        let w1 := on_host (fun h => set_delivered
                     (delivered h ++ [(listener_id l, entry)]) h) w in
        match listener_run l entry with
        | Some e => (w1, Throw e)
        | None => notify rest entry w1
        end
  end.

(** The entry [_log] builds, once the payload has been truncated. *)
Definition make_entry (now : Z) (lvl : LogLevel) (cat : Category)
  (msg : JsString) (truncated : JsValue) (tr : option JsString) : LogEntry :=
  {| timestamp := now;
     level := lvl;
     category := cat;
     message := firstn 1000 msg;
     data := truncated;
     trace := match tr with
              | Some t =>
                  match t with
                  | [] => None
                  | _ => Some (join [10%N] (firstn 5 (split_lines t)))
                  end
              | None => None
              end |}.

(** [this._logs.unshift(entry)] followed by the capacity check. *)
Definition unshift_capped (entry : LogEntry) (logs : list LogEntry) : list LogEntry :=
  let logs1 := entry :: logs in
  if (_maxLogs <? length logs1)%nat then removelast logs1 else logs1.

(** [_log]; [now] is the instant read by [new Date()]. *)
Definition _log (now : Z) (lvl : LogLevel) (cat : Category) (msg : JsString)
  (payload : JsValue) (tr : option JsString) : M unit :=
  fun w =>
    if negb (_isEnabled (mgr w)) then (w, Ok tt)
    else
      match (if truthy payload then truncateData payload _maxDataSize
             else Ok JUndefined) with
      | Throw e => (w, Throw e)
      | Ok truncated =>
          let entry := make_entry now lvl cat msg truncated tr in
          let w1 := on_mgr (fun m => set_logs (unshift_capped entry (_logs m)) m) w in
          notify (_listeners (mgr w1)) entry w1
      end.

Definition debug (now : Z) (msg : JsString) (payload : JsValue) : M unit :=
  _log now LDebug CSystem msg payload None.
Definition info (now : Z) (msg : JsString) (payload : JsValue) : M unit :=
  _log now LInfo CSystem msg payload None.
Definition warn (now : Z) (msg : JsString) (payload : JsValue)
  (tr : option JsString) : M unit :=
  _log now LWarn CSystem msg payload tr.
Definition error (now : Z) (msg : JsString) (payload : JsValue) : M unit :=
  _log now LError CSystem msg payload None.
Definition logUserAction (now : Z) (action : JsString) (payload : JsValue) : M unit :=
  _log now LInfo CUser action payload None.
Definition logStateChange (now : Z) (component : JsString)
  (previous current : JsValue) : M unit :=
  _log now LInfo CState (str "State Change: " ++ component)
       (JObject [(str "previous", previous); (str "current", current)]) None.

Definition getLogs (w : World) : list LogEntry := _logs (mgr w).
Definition getDebugTabLogs (w : World) : list LogEntry := _logs (mgr w).

Definition Category_eqb (a b : Category) : bool :=
  match a, b with
  | CNetwork, CNetwork | CState, CState | CUser, CUser
  | CSystem, CSystem | CError, CError => true
  | _, _ => false
  end.

Definition getLogsByCategory (cat : Category) (w : World) : list LogEntry :=
  List.filter (fun log => Category_eqb (category log) cat) (_logs (mgr w)).

Definition setShowLogsInDebugTabOnly (value : bool) : M unit :=
  modify (on_mgr (set_showLogs value)).

Definition clearLogs (now : Z) : M unit :=
  modify (on_mgr (set_logs []));;
  _log now LInfo CSystem (str "Logs cleared") JUndefined None.

(** [addListener]: a set keeps one copy of a callback. *)
Definition addListener (callback : Listener) : M unit :=
  modify (on_mgr (fun m =>
    if existsb (fun l => Nat.eqb (listener_id l) (listener_id callback)) (_listeners m)
    then m else set_listeners (_listeners m ++ [callback]) m)).

(** The function [addListener] returns. *)
Definition unsubscribe (callback : Listener) : M unit :=
  modify (on_mgr (fun m =>
    set_listeners
      (List.filter (fun l => negb (Nat.eqb (listener_id l) (listener_id callback)))
                   (_listeners m)) m)).

(** ** The interceptors *)

Definition call_stack_exceeded : Thrown :=
  JsError "RangeError" (str "Maximum call stack size exceeded").

Definition duration_text (elapsed : Z) : JsString :=
  number_to_string elapsed ++ str ".00ms".

(** [_fetch].  The call is followed through its [await] as one sequence:
    [started] and [settled] are the clock readings before the request and
    after the underlying call settles; [requestId] is the random tag.
    [depth] bounds the call stack: it is consumed only when
    [_originalFetch] holds the wrapper itself. *)
Fixpoint _fetch (depth : nat) (started settled : Z) (requestId : JsString)
  (args : FetchArgs) : M Response :=
  try_catch
    (_log started LInfo CNetwork (str "API Request [" ++ requestId ++ str "]")
          (JObject [(str "url", JString (url args));
                    (str "method",
                     JString (match method args with
                              | Some (c :: m) => c :: m
                              | _ => str "GET"
                              end))]) None;;
     originalResponse <-
       (fun w =>
          match _originalFetch (mgr w) with
          | None =>
              (w, Throw (JsError "TypeError"
                           (str "Cannot read properties of null (reading 'apply')")))
          | Some NativeFetch =>
              (on_host (fun h => set_network_calls (network_calls h ++ [args]) h) w,
               native_fetch (host w) args)
          | Some DebugFetch =>
              match depth with
              | O => (w, Throw call_stack_exceeded)
              | S depth' => _fetch depth' started settled requestId args w
              end
          end);;
     _log settled LInfo CNetwork (str "API Response [" ++ requestId ++ str "]")
          (JObject [(str "duration", JString (duration_text (settled - started)));
                    (str "status", JNumber (status originalResponse));
                    (str "statusText", JString (statusText originalResponse))]) None;;
     ret originalResponse)
    (fun error =>
       _log settled LError CNetwork (str "API Error [" ++ requestId ++ str "]")
            (JObject [(str "duration", JString (duration_text (settled - started)));
                      (str "error",
                       JString (match error with
                                | JsError _ msg => msg
                                | NonError _ => str "An unknown error occurred"
                                end))]) None;;
       throw error).

(** A call of [window.fetch] through whatever the slot holds. *)
Definition fetch (depth : nat) (started settled : Z) (requestId : JsString)
  (args : FetchArgs) : M Response :=
  fun w =>
    match window_fetch (host w) with
    | NativeFetch =>
        (on_host (fun h => set_network_calls (network_calls h ++ [args]) h) w,
         native_fetch (host w) args)
    | DebugFetch => _fetch depth started settled requestId args w
    end.

Definition _interceptNetworkCalls : M unit :=
  fun w =>
    if negb (isClient (host w)) then (w, Ok tt)
    else
      let w1 := on_mgr (set_originalFetch (Some (window_fetch (host w)))) w in
      (on_host (set_window_fetch DebugFetch) w1, Ok tt).

Definition _monitorNetwork : M unit := _interceptNetworkCalls.

Definition _restoreNetworkCalls : M unit :=
  fun w =>
    match _originalFetch (mgr w) with
    | Some f =>
        (on_mgr (set_originalFetch None) (on_host (set_window_fetch f) w), Ok tt)
    | None => (w, Ok tt)
    end.

Definition method_level (m : ConsoleMethod) : LogLevel :=
  match m with
  | MLog => LDebug
  | MInfo => LInfo
  | MWarn => LWarn
  | MError => LError
  end.

Definition console_slot (m : ConsoleMethod) (c : Console) : ConsoleImpl :=
  match m with
  | MLog => c_log c
  | MInfo => c_info c
  | MWarn => c_warn c
  | MError => c_error c
  end.

Definition emit_console (m : ConsoleMethod) (first : JsValue) (others : list JsValue)
  : M unit :=
  modify (on_host (fun h => set_console_output (console_output h ++ [(m, first, others)]) h)).

(** The arrow functions of [_interceptConsole]: [first] is [args[0]],
    which the call sites pass as the message, [others] is
    [args.slice(1)]. *)
Fixpoint debug_console (depth : nat) (now : Z) (m : ConsoleMethod)
  (first : JsString) (others : list JsValue) : M unit :=
  _log now (method_level m) CSystem first (JArray others) None;;
  (fun w =>
     match console_slot m (_originalConsole (mgr w)) with
     | NativeConsole => emit_console m (JString first) others w
     | DebugConsole =>
         match depth with
         | O => (w, Throw call_stack_exceeded)
         | S depth' => debug_console depth' now m first others w
         end
     end).

(** A call of [console.log], [console.info], [console.warn] or
    [console.error]. *)
Definition console_call (depth : nat) (now : Z) (m : ConsoleMethod)
  (first : JsString) (others : list JsValue) : M unit :=
  fun w =>
    match console_slot m (console (host w)) with
    | NativeConsole => emit_console m (JString first) others w
    | DebugConsole => debug_console depth now m first others w
    end.

Definition _interceptConsole : M unit :=
  modify (on_host (set_console
    (mkConsole DebugConsole DebugConsole DebugConsole DebugConsole))).

(** [Object.assign(console, this._originalConsole)] *)
Definition _restoreConsole : M unit :=
  modify (fun w => on_host (set_console (_originalConsole (mgr w))) w).

Definition _setupErrorListeners : M unit :=
  fun w =>
    if negb (isClient (host w)) then (w, Ok tt)
    else (on_host (set_error_handlers (Some DebugHandler) (Some DebugHandler)) w, Ok tt).

Definition _removeErrorListeners : M unit :=
  fun w =>
    if negb (isClient (host w)) then (w, Ok tt)
    else (on_host (set_error_handlers None None) w, Ok tt).

(** The handler installed on [window.onerror]; it returns [false]. *)
Definition debug_onerror (now : Z) (msg source : JsString) (lineno colno : Z)
  : M bool :=
  _log now LError CError (str "Uncaught Error")
       (JObject [(str "message", JString msg); (str "source", JString source);
                 (str "lineno", JNumber lineno); (str "colno", JNumber colno)]) None;;
  ret false.

(** The handler installed on [window.onunhandledrejection]. *)
Definition debug_onunhandledrejection (now : Z) (reason : JsValue) : M unit :=
  _log now LError CError (str "Unhandled Promise Rejection")
       (JObject [(str "reason", reason)]) None.

(** [Storage.setItem] of the platform. *)
Fixpoint store_item (key value : JsString) (items : list (JsString * JsString))
  : list (JsString * JsString) :=
  match items with
  | [] => [(key, value)]
  | (k, v) :: rest =>
      if decide (k = key) then (k, value) :: rest
      else (k, v) :: store_item key value rest
  end.

Fixpoint getItem (key : JsString) (items : list (JsString * JsString))
  : option JsString :=
  match items with
  | [] => None
  | (k, v) :: rest => if decide (k = key) then Some v else getItem key rest
  end.

(** A call of the function [impl] as [localStorage.setItem]: the wrapper
    logs, then calls the function it closed over; the platform's method
    and an ordinary object's own function store the item. *)
Fixpoint call_setItem (impl : SetItemImpl) (now : Z) (key value : JsString)
  : M unit :=
  match impl with
  | NativeSetItem | StorageMethod =>
      modify (on_host (fun h => set_items (store_item key value (localStorage_items h)) h))
  | DebugSetItem originalSetItem =>
      _log now LInfo CState (str "LocalStorage Update")
           (JObject [(str "key", JString key); (str "value", JString value)]) None;;
      call_setItem originalSetItem now key value
  end.

Definition localStorage_setItem_call (now : Z) (key value : JsString) : M unit :=
  fun w => call_setItem (localStorage_setItem (host w)) now key value w.

(** An assignment to [document.cookie]. *)
Definition document_cookie_write (now : Z) (value : JsString) : M unit :=
  fun w =>
    let native :=
      modify (on_host (fun h => set_cookie_writes (cookie_writes h ++ [value]) h)) in
    match document_cookie (host w) with
    | ProtoCookieSetter => native w
    | DebugCookieSetter =>
        (_log now LInfo CState (str "Cookie Update")
              (JObject [(str "value", JString value)]) None;;
         native) w
    end.

(** The assignment [localStorage.setItem = f], where [f] is the arrow
    function of [_monitorStateChanges] closed over what the read of
    [localStorage.setItem] found. *)
Definition assign_setItem (h : Host) : Host :=
  match localStorage_setItem h with
  | StorageMethod =>
      set_items (store_item (str "setItem") (setItem_wrapper_text h)
                            (localStorage_items h)) h
  | originalSetItem => set_setItem (DebugSetItem originalSetItem) h
  end.

(** [_monitorStateChanges]: the setter of [Document.prototype] is present
    in a browser; [cookie_descriptor_throws] is the case the [catch]
    handles. *)
Definition _monitorStateChanges (now : Z) : M unit :=
  modify (on_host assign_setItem);;
  (fun w =>
     if cookie_descriptor_throws (host w) then
       _log now LWarn CSystem (str "Failed to set up cookie monitoring") JUndefined None w
     else (on_host (set_document_cookie DebugCookieSetter) w, Ok tt)).

Definition _setupDebugMode (now : Z) : M unit :=
  fun w =>
    if negb (isClient (host w)) then (w, Ok tt)
    else
      (_interceptNetworkCalls;;
       _interceptConsole;;
       _setupErrorListeners;;
       _monitorStateChanges now) w.

Definition _teardownDebugMode : M unit :=
  fun w =>
    if negb (isClient (host w)) then (w, Ok tt)
    else
      (_restoreNetworkCalls;;
       _restoreConsole;;
       _removeErrorListeners) w.

(** ** Lifecycle *)

Definition hour_ms : Z := 60 * 60 * 1000.

(** The callback handed to [setInterval] by [enableDebug]. *)
Definition cleanup_tick (now : Z) : M unit :=
  modify (on_mgr (fun m =>
    set_logs (List.filter (fun log => now - hour_ms <? timestamp log) (_logs m)) m)).

(** [setInterval(callback, 5 * 60 * 1000)]: a fresh handle, scheduled until
    cleared. *)
Definition setInterval : M nat :=
  fun w =>
    let id := next_interval (host w) in
    (on_host (fun h => set_intervals (intervals h ++ [id]) (S id) h) w, Ok id).

(** The platform fires the timer [id], if it is still scheduled. *)
Definition fire_interval (id : nat) (now : Z) : M unit :=
  fun w =>
    if existsb (Nat.eqb id) (intervals (host w)) then cleanup_tick now w
    else (w, Ok tt).

Definition isDebugEnabled (w : World) : bool :=
  if negb (isClient (host w)) then false else _isEnabled (mgr w).

(** The calendar date of the day [days] after 1970-01-01, as year, month
    and day of the month. *)
Definition civil_from_days (days : Z) : Z * Z * Z :=
  let z := days + 719468 in
  let era := z / 146097 in
  let doe := z mod 146097 in
  let yoe := (doe - doe / 1460 + doe / 36524 - doe / 146096) / 365 in
  let doy := doe - (365 * yoe + yoe / 4 - yoe / 100) in
  let mp := (5 * doy + 2) / 153 in
  let d := doy - (153 * mp + 2) / 5 + 1 in
  let m := if mp <? 10 then mp + 3 else mp - 9 in
  (yoe + era * 400 + (if m <=? 2 then 1 else 0), m, d).

(** [n], not negative, in at least [width] decimal digits. *)
Definition padded (width : nat) (n : Z) : JsString :=
  let digits := number_to_string n in
  repeat 48%N (width - length digits) ++ digits.

(** [new Date(t).toISOString()] for the time value [t]: four digits for
    the years 0 to 9999, a sign and six digits for the others. *)
Definition toISOString (t : Z) : JsString :=
  let '(y, m, d) := civil_from_days (t / 86400000) in
  let ms := t mod 86400000 in
  (if (0 <=? y) && (y <=? 9999) then padded 4 y
   else (if y <? 0 then str "-" else str "+") ++ padded 6 (Z.abs y))
  ++ str "-" ++ padded 2 m ++ str "-" ++ padded 2 d
  ++ str "T" ++ padded 2 (ms / 3600000)
  ++ str ":" ++ padded 2 (ms / 60000 mod 60)
  ++ str ":" ++ padded 2 (ms / 1000 mod 60)
  ++ str "." ++ padded 3 (ms mod 1000) ++ str "Z".

Definition enableDebug (now : Z) : M unit :=
  fun w =>
    if negb (isClient (host w)) then (w, Ok tt)
    else
      (modify (on_mgr (set_isEnabled true));;
       localStorage_setItem_call now (str "devDebugEnabled") (str "true");;
       _setupDebugMode now;;
       id <- setInterval;;
       modify (on_mgr (set_cleanupInterval (Some id)));;
       _log now LInfo CSystem (str "Debug Mode Enabled")
            (JObject [(str "timestamp", JString (toISOString now));
                      (str "userAgent", JString (userAgent (host w)))]) None) w.

Definition disableDebug (now : Z) : M unit :=
  fun w =>
    if negb (isClient (host w)) then (w, Ok tt)
    else
      (modify (on_mgr (set_isEnabled false));;
       localStorage_setItem_call now (str "devDebugEnabled") (str "false");;
       _teardownDebugMode;;
       modify (on_mgr (set_logs []))) w.

(** The constructor, run once by [getInstance]. *)
Definition construct (now : Z) (h : Host) : World * Result unit :=
  let w0 := {| host := h;
               mgr := {| _logs := []; _isEnabled := false;
                         _showLogsInDebugTabOnly := true; _listeners := [];
                         _originalFetch := None; _originalConsole := console h;
                         _cleanupInterval := None |} |} in
  if isClient h then
    let enabled :=
      bool_decide (getItem (str "devDebugEnabled") (localStorage_items h)
                   = Some (str "true")) in
    let w1 := on_mgr (set_isEnabled enabled) w0 in
    if enabled then _setupDebugMode now w1 else (w1, Ok tt)
  else (w0, Ok tt).

(** ** Hosts *)

(** A host before the debug manager touches it, whose [localStorage] is
    an ordinary object with an assignable [setItem]. *)
Definition pristine_host (fetch_result : FetchArgs -> Result Response) : Host :=
  {| isClient := true;
     window_fetch := NativeFetch;
     console := mkConsole NativeConsole NativeConsole NativeConsole NativeConsole;
     window_onerror := None;
     window_onunhandledrejection := None;
     localStorage_setItem := NativeSetItem;
     document_cookie := ProtoCookieSetter;
     native_fetch := fetch_result;
     cookie_descriptor_throws := false;
     userAgent := str "Mozilla/5.0";
     setItem_wrapper_text := str "(key,value)=>{...}";
     localStorage_items := [];
     cookie_writes := [];
     intervals := [];
     next_interval := 1;
     network_calls := [];
     console_output := [];
     delivered := [] |}.

(** A browser before the debug manager touches it: [localStorage] is the
    platform's [Storage]. *)
Definition browser_host (fetch_result : FetchArgs -> Result Response) : Host :=
  set_setItem StorageMethod (pristine_host fetch_result).

(** ** Runs *)

(** The arguments of one call of [_log], with the instant at which it is
    made. *)
Record LogCall := mkLogCall {
  call_now : Z;
  call_level : LogLevel;
  call_category : Category;
  call_message : JsString;
  call_data : JsValue;
  call_trace : option JsString
}.

Definition log_call (c : LogCall) : M unit :=
  _log (call_now c) (call_level c) (call_category c) (call_message c)
       (call_data c) (call_trace c).

(** The entry a call appends while capture is enabled: none when the
    truncation of its payload raises. *)
Definition appended_entry (c : LogCall) : option LogEntry :=
  match (if truthy (call_data c) then truncateData (call_data c) _maxDataSize
         else Ok JUndefined) with
  | Ok truncated =>
      Some (make_entry (call_now c) (call_level c) (call_category c)
                       (call_message c) truncated (call_trace c))
  | Throw _ => None
  end.

(** What can happen to the manager: calls of its public methods, calls of
    the intercepted primitives by the application, and the platform firing
    a timer or an error handler. *)
Inductive Op :=
| OpEnableDebug (now : Z)
| OpDisableDebug (now : Z)
| OpClearLogs (now : Z)
| OpLog (c : LogCall)
| OpAddListener (l : Listener)
| OpUnsubscribe (l : Listener)
| OpSetShowLogs (b : bool)
| OpFetch (depth : nat) (started settled : Z) (requestId : JsString) (args : FetchArgs)
| OpConsole (depth : nat) (now : Z) (m : ConsoleMethod) (first : JsString)
            (others : list JsValue)
| OpSetItem (now : Z) (key value : JsString)
| OpCookieWrite (now : Z) (value : JsString)
| OpUncaughtError (now : Z) (msg source : JsString) (lineno colno : Z)
| OpUnhandledRejection (now : Z) (reason : JsValue)
| OpTimer (id : nat) (now : Z).

Definition discard {A} (c : M A) : M unit := x <- c;; ret tt.

Definition perform (o : Op) : M unit :=
  match o with
  | OpEnableDebug now => enableDebug now
  | OpDisableDebug now => disableDebug now
  | OpClearLogs now => clearLogs now
  | OpLog c => log_call c
  | OpAddListener l => addListener l
  | OpUnsubscribe l => unsubscribe l
  | OpSetShowLogs b => setShowLogsInDebugTabOnly b
  | OpFetch depth started settled requestId args =>
      discard (fetch depth started settled requestId args)
  | OpConsole depth now m first others => console_call depth now m first others
  | OpSetItem now key value => localStorage_setItem_call now key value
  | OpCookieWrite now value => document_cookie_write now value
  | OpUncaughtError now msg source lineno colno =>
      fun w =>
        match window_onerror (host w) with
        | Some DebugHandler => discard (debug_onerror now msg source lineno colno) w
        | _ => (w, Ok tt)
        end
  | OpUnhandledRejection now reason =>
      fun w =>
        match window_onunhandledrejection (host w) with
        | Some DebugHandler => debug_onunhandledrejection now reason w
        | _ => (w, Ok tt)
        end
  | OpTimer id now => fire_interval id now
  end.

(** A run: each operation starts from the world its predecessor left,
    whether that one returned or raised to its own caller. *)
Fixpoint run (ops : list Op) (w : World) : World :=
  match ops with
  | [] => w
  | o :: rest => run rest (fst (perform o w))
  end.

(** ** Vocabulary of the properties *)

(** The world after the listeners [ls] have been handed [entry]. *)
Definition handed (ls : list Listener) (entry : LogEntry) (w : World) : World :=
  on_host (fun h => set_delivered
             (delivered h ++ List.map (fun l => (listener_id l, entry)) ls) h) w.

(** The world after [entry] has been put at the head of the buffer. *)
Definition stored (entry : LogEntry) (w : World) : World :=
  on_mgr (fun m => set_logs (unshift_capped entry (_logs m)) m) w.

(** The listener returns, whatever the entry. *)
Definition quiet (l : Listener) : Prop :=
  forall entry, listener_run l entry = None.

(** [w'] differs from [w] at most in the buffer and in what the listeners
    were handed: what a call of [_log] may change. *)
Definition logged (w w' : World) : Prop :=
  host w' = set_delivered (delivered (host w')) (host w)
  /\ mgr w' = set_logs (_logs (mgr w')) (mgr w).

(** While capture is enabled, every registered listener returns. *)
Definition calm (w : World) : Prop :=
  _isEnabled (mgr w) = true -> Forall quiet (_listeners (mgr w)).

(** Every registered listener returns. *)
Definition peaceful (w : World) : Prop :=
  Forall quiet (_listeners (mgr w)).

(** [w'] differs from [w] at most in the buffer, in what the listeners
    were handed and in the stored items: what a call of
    [localStorage.setItem] may change. *)
Definition touched (w w' : World) : Prop :=
  exists items handed_out logs,
    host w' = set_items items (set_delivered handed_out (host w))
    /\ mgr w' = set_logs logs (mgr w).

(** The statement [c], started where [P] holds, returns, and [Q] holds
    where it ends. *)
Definition returning (P : World -> Prop) {A} (c : M A) (Q : World -> Prop) : Prop :=
  forall w, P w -> exists w' a, c w = (w', Ok a) /\ Q w'.

(** A browser with listeners that return, the timers [timers] scheduled
    and [next] the next timer handle; [en] tells whether capture is
    enabled. *)
Definition settled (en : bool) (timers : list nat)
  (next : nat) (w : World) : Prop :=
  peaceful w
  /\ isClient (host w) = true
  /\ intervals (host w) = timers
  /\ next_interval (host w) = next
  /\ _isEnabled (mgr w) = en.

(** Enable/disable cycles at the given pairs of instants. *)
Definition cycles (instants : list (Z * Z)) : list Op :=
  flat_map (fun '(t_on, t_off) => [OpEnableDebug t_on; OpDisableDebug t_off]) instants.

(** The buffer is within its capacity. *)
Definition bounded (w : World) : Prop :=
  (length (_logs (mgr w)) <= _maxLogs)%nat.

(** The statement [c] leaves the property [I] of the world in place. *)
Definition keeps (I : World -> Prop) {A} (c : M A) : Prop :=
  forall w, I w -> I (fst (c w)).

(** The world [getInstance] creates on [pristine_host], a host that has
    not been touched, with capture not persisted as enabled. *)
Definition fresh (fetch_result : FetchArgs -> Result Response) : World :=
  fst (construct 0 (pristine_host fetch_result)).

(** The number of line breaks of a text. *)
Definition newlines (t : JsString) : nat :=
  length (List.filter (N.eqb 10) t).

(** The caps [_log] puts on the message and on the trace of an entry. *)
Definition capped (entry : LogEntry) : Prop :=
  (length (message entry) <= 1000)%nat
  /\ match trace entry with
     | Some t => (newlines t <= 4)%nat
     | None => True
     end.

(** The states the manager can be in: those that operations reach from
    the constructor. *)
Definition reachable (w : World) : Prop :=
  exists (h : Host) (t0 : Z) (ops : list Op), w = run ops (fst (construct t0 h)).

(** What [_setupDebugMode] does to a browser, the warning it may log put
    aside. *)
Definition intercepted (w : World) : World :=
  let w1 := on_host (set_window_fetch DebugFetch)
              (on_mgr (set_originalFetch (Some (window_fetch (host w)))) w) in
  let w2 := on_host (set_console
              (mkConsole DebugConsole DebugConsole DebugConsole DebugConsole)) w1 in
  let w3 := on_host (set_error_handlers (Some DebugHandler) (Some DebugHandler)) w2 in
  let w4 := on_host assign_setItem w3 in
  if cookie_descriptor_throws (host w4) then w4
  else on_host (set_document_cookie DebugCookieSetter) w4.

(** The world after [value] has been stored under 'devDebugEnabled'. *)
Definition flag_written (value : JsString) (w : World) : World :=
  on_host (fun h => set_items
             (store_item (str "devDebugEnabled") value (localStorage_items h)) h) w.

(** The world after a timer has been started and its handle kept. *)
Definition timer_started (w : World) : World :=
  let id := next_interval (host w) in
  on_mgr (set_cleanupInterval (Some id))
    (on_host (fun h => set_intervals (intervals h ++ [id]) (S id) h) w).

(** What [enableDebug] does to a browser, the entries it logs put
    aside. *)
Definition switched_on (w : World) : World :=
  timer_started (intercepted (flag_written (str "true") (on_mgr (set_isEnabled true) w))).

(** What [disableDebug] does to a browser. *)
Definition switched_off (w : World) : World :=
  let w1 := flag_written (str "false") (on_mgr (set_isEnabled false) w) in
  let w2 := match _originalFetch (mgr w1) with
            | Some f => on_mgr (set_originalFetch None) (on_host (set_window_fetch f) w1)
            | None => w1
            end in
  on_mgr (set_logs [])
    (on_host (set_error_handlers None None)
       (on_host (set_console (_originalConsole (mgr w2))) w2)).

(** The entries [_log] can build: those that some call appends. *)
Definition made (entry : LogEntry) : Prop :=
  exists c : LogCall, appended_entry c = Some entry.

(** A property of what the manager holds: whether it runs in a browser,
    whether capture is enabled, the buffer and the listeners. *)
Definition observes (Q : bool -> bool -> list LogEntry -> list Listener -> Prop)
  (w : World) : Prop :=
  Q (isClient (host w)) (_isEnabled (mgr w)) (_logs (mgr w)) (_listeners (mgr w)).

End Debug.

(* ===================================================================== *)
(** * Token counting (lib/token-counter)                                  *)
(* ===================================================================== *)

Module TokenCounting.

Import Json.

Record Message := mkMessage {
  role : string;
  content : JsString
}.

Record TokenCount := mkTokenCount {
  promptTokens : Z;
  completionTokens : Z;
  totalTokens : Z
}.

Section Tokenizer.

(** [encode] of the gpt-tokenizer package: the tokens of a text. *)
Variable encode : JsString -> list N.

Definition countTokens (text : JsString) : Z :=
  Z.of_nat (length (encode text)).

(** The two counters of [countMessageTokens] after [messages.forEach]. *)
Definition count_roles (messages : list Message) : Z * Z :=
  fold_left
    (fun '(prompt, completion) message =>
       let tokens := countTokens (content message) in
       if String.eqb (role message) "assistant" then (prompt, completion + tokens)
       else (prompt + tokens, completion))
    messages (0, 0).

Definition countMessageTokens (messages : list Message) : TokenCount :=
  let '(prompt, completion) := count_roles messages in
  {| promptTokens := prompt;
     completionTokens := completion;
     totalTokens := prompt + completion |}.

(** [trackTokenUsage]; [stamped] is the value of [Date.now()] read for the
    event, [now] the one [addTokenUsage] reads after it. *)
Definition trackTokenUsage (stamped now : Z) (messages : list Message)
  (model provider : string) (c : TokenUsage.Client) : TokenUsage.Client :=
  let tokenCount := countMessageTokens messages in
  TokenUsage.addTokenUsage now
    {| TokenUsage.provider := provider;
       TokenUsage.model := model;
       TokenUsage.promptTokens := promptTokens tokenCount;
       TokenUsage.completionTokens := completionTokens tokenCount;
       TokenUsage.totalTokens := totalTokens tokenCount;
       TokenUsage.timestamp := stamped |} c.

End Tokenizer.

End TokenCounting.

(* ===================================================================== *)
(** * The settings dialog (components/ui/Settings)                        *)
(* ===================================================================== *)

Module Settings.

Import Json.

(** ** Showing the payload of an entry *)

(** The indentation of [JSON.stringify(value, null, 2)] at a nesting
    depth. *)
Definition indentation (depth : nat) : JsString := repeat 32%N (2 * depth).

(** The [ "key": value ] members of an object printed with a gap. *)
Definition members_spaced (f : JsValue -> Result (option JsString))
  : list (JsString * JsValue) -> Result (list JsString) :=
  fix members (l : list (JsString * JsValue)) : Result (list JsString) :=
    match l with
    | [] => Ok []
    | (k, x) :: rest =>
        match f x with
        | Throw e => Throw e
        | Ok o =>
            match members rest with
            | Throw e => Throw e
            | Ok parts =>
                Ok (match o with
                    | Some text => (quote k ++ [58%N; 32%N] ++ text) :: parts
                    | None => parts
                    end)
            end
        end
    end.

(** An array or object with its parts one per line; without parts the
    two brackets only. *)
Definition bracketed (opening closing : N) (depth : nat) (parts : list JsString)
  : JsString :=
  match parts with
  | [] => [opening; closing]
  | _ =>
      [opening; 10%N] ++ indentation (S depth)
        ++ join ([44%N; 10%N] ++ indentation (S depth)) parts
        ++ [10%N] ++ indentation depth ++ [closing]
  end.

(** [JSON.stringify(v, null, 2)], [depth] levels inside the value that is
    printed. *)
Fixpoint stringify_pretty (depth : nat) (v : JsValue) {struct v}
  : Result (option JsString) :=
  match v with
  | JArray items =>
      match elements_with (stringify_pretty (S depth)) items with
      | Throw e => Throw e
      | Ok parts => Ok (Some (bracketed 91 93 depth parts))
      end
  | JObject props =>
      match members_spaced (stringify_pretty (S depth)) props with
      | Throw e => Throw e
      | Ok parts => Ok (Some (bracketed 123 125 depth parts))
      end
  | _ => stringify v
  end.

Definition unable_to_format : JsString := str "[Unable to format data]".

(** [formatData]; [None] is the result [undefined]. *)
Definition formatData (payload : JsValue) : option JsString :=
  match payload with
  | JString s => Some s
  | _ =>
      match stringify_pretty 0 payload with
      | Ok text => text
      | Throw _ => Some unable_to_format
      end
  end.

(** ** The list of providers *)

Record ModelInfo := mkModelInfo {
  model_name : string;
  maxTokenAllowed : Z
}.

(** A provider of the list; [staticModels] is [None] when the property is
    not an array. *)
Record Provider := mkProvider {
  name : string;
  isEnabled : bool;
  staticModels : option (list ModelInfo)
}.

(** [Math.max(...numbers)]; [None] is the result [-Infinity] on no
    numbers. *)
Definition math_max (numbers : list Z) : option Z :=
  match numbers with
  | [] => None
  | x :: rest => Some (fold_left Z.max rest x)
  end.

(** [prevProviders.map(...)]: the enabled flag of the providers of that
    name is inverted. *)
Definition toggled (providerName : string) (providers : list Provider)
  : list Provider :=
  List.map
    (fun provider =>
       if String.eqb (name provider) providerName
       then {| name := name provider; isEnabled := negb (isEnabled provider);
               staticModels := staticModels provider |}
       else provider)
    providers.

(** The object written to the cookie [providers]. *)
Definition enabledStates (providers : list Provider) : gmap string bool :=
  fold_left (fun acc provider => <[name provider := isEnabled provider]> acc)
            providers ∅.

(** The state the updater works on: the providers shown, the cookie
    [providers] and the usage store. *)
Record Panel := mkPanel {
  providers : list Provider;
  providers_cookie : option (gmap string bool);
  usage : TokenUsage.Client
}.

(** The updater of [handleToggleProvider]; [providersList] is the list of
    the settings store, in which the models are looked up. *)
Definition handleToggleProvider (now : Z) (providersList : list Provider)
  (providerName : string) (panel : Panel) : Panel :=
  let newProviders := toggled providerName (providers panel) in
  let by_name := fun p : Provider => String.eqb (name p) providerName in
  let limited :=
    match List.find by_name newProviders with
    | Some enabledProvider =>
        if isEnabled enabledProvider then
          match List.find by_name providersList with
          | Some providerInfo =>
              match staticModels providerInfo with
              | Some models =>
                  match math_max (List.map maxTokenAllowed models) with
                  | Some maxTokenLimit =>
                      if 0 <? maxTokenLimit
                      then TokenUsage.setTokenLimit now providerName maxTokenLimit
                             (usage panel)
                      else usage panel
                  | None => usage panel
                  end
              | None => usage panel
              end
          | None => usage panel
          end
        else usage panel
    | None => usage panel
    end in
  {| providers := newProviders;
     providers_cookie := Some (enabledStates newProviders);
     usage := limited |}.

End Settings.

(* ===================================================================== *)
(** * Properties of the usage ledger                                      *)
(* ===================================================================== *)

Module UsageFacts.

Import TokenUsage.

Lemma fold_sum_shift (l : list TokenUsageData) (a : Z) :
  fold_left (fun sum d => sum + totalTokens d) l a = a + sumTokens l.
Proof.
  unfold sumTokens. revert a.
  induction l as [|d l IH]; intros a; simpl; [lia|].
  rewrite (IH (a + totalTokens d)), (IH (0 + totalTokens d)). lia.
Qed.

Lemma sumTokens_app (l1 l2 : list TokenUsageData) :
  sumTokens (l1 ++ l2) = sumTokens l1 + sumTokens l2.
Proof.
  unfold sumTokens at 1. rewrite fold_left_app.
  fold (sumTokens l1). apply fold_sum_shift.
Qed.

Lemma tokensOf_snoc (p : string) (l : list TokenUsageData) (d : TokenUsageData) :
  tokensOf p (l ++ [d])
  = tokensOf p l + (if String.eqb (provider d) p then totalTokens d else 0).
Proof.
  unfold tokensOf. rewrite List.filter_app, sumTokens_app. simpl.
  destruct (String.eqb (provider d) p); unfold sumTokens; simpl; lia.
Qed.

Lemma usageOf_bump (acc : list (string * Z)) (p q : string) (n : Z) :
  usageOf p (bump_own acc q n)
  = if String.eqb q p then Some (default 0 (usageOf q acc) + n) else usageOf p acc.
Proof.
  induction acc as [|[k v] acc IH]; simpl.
  - destruct (String.eqb_spec q p); reflexivity.
  - destruct (String.eqb_spec k q) as [->|Hkq]; simpl.
    + destruct (String.eqb_spec q p); reflexivity.
    + rewrite IH. destruct (String.eqb_spec k p) as [->|Hkp].
      * destruct (String.eqb_spec q p); [congruence | reflexivity].
      * reflexivity.
Qed.

Lemma usageOf_In (acc : list (string * Z)) (p : string) (u : Z) :
  usageOf p acc = Some u -> In (p, u) acc.
Proof.
  induction acc as [|[k v] acc IH]; simpl; [discriminate|].
  destruct (String.eqb_spec k p) as [->|Hkp]; intros H.
  - left. congruence.
  - right. auto.
Qed.

Lemma In_usageOf (acc : list (string * Z)) (p : string) (u : Z) :
  List.NoDup (List.map fst acc) -> In (p, u) acc -> usageOf p acc = Some u.
Proof.
  induction acc as [|[k v] acc IH]; simpl; [tauto|].
  intros Hnd [Heq|Hin]; inversion Hnd as [|? ? Hk Hnd']; subst.
  - inversion Heq; subst. rewrite String.eqb_refl. reflexivity.
  - destruct (String.eqb_spec k p) as [->|Hkp]; [|auto].
    exfalso. apply Hk. apply (in_map fst) in Hin. exact Hin.
Qed.

Lemma usageOf_None (acc : list (string * Z)) (p : string) :
  usageOf p acc = None <-> ~ In p (List.map fst acc).
Proof.
  induction acc as [|[k v] acc IH]; simpl; [tauto|].
  destruct (String.eqb_spec k p) as [->|Hkp].
  - split; [discriminate | intros H; exfalso; apply H; left; reflexivity].
  - rewrite IH. tauto.
Qed.

Lemma bump_keys (acc : list (string * Z)) (q : string) (n : Z) :
  List.map fst (bump_own acc q n)
  = match usageOf q acc with
    | Some _ => List.map fst acc
    | None => List.map fst acc ++ [q]
    end.
Proof.
  induction acc as [|[k v] acc IH]; simpl; [reflexivity|].
  destruct (String.eqb_spec k q) as [->|Hkq]; simpl; [reflexivity|].
  rewrite IH. destruct (usageOf q acc); reflexivity.
Qed.

Lemma bump_NoDup (acc : list (string * Z)) (q : string) (n : Z) :
  List.NoDup (List.map fst acc) -> List.NoDup (List.map fst (bump_own acc q n)).
Proof.
  intros Hnd. rewrite bump_keys.
  destruct (usageOf q acc) eqn:Hq; [exact Hnd|].
  apply usageOf_None in Hq.
  apply List.NoDup_app.
  - exact Hnd.
  - apply List.NoDup_cons; [simpl; tauto | apply List.NoDup_nil].
  - intros x Hx [<-|[]]. exact (Hq Hx).
Qed.

Lemma usage_table_step seen acc d :
  usage_table seen acc ->
  usage_table (seen ++ [d]) (bump_own acc (provider d) (totalTokens d)).
Proof.
  intros [Hnd Hacc]. split; [apply bump_NoDup, Hnd|].
  intros p. rewrite usageOf_bump, existsb_app, tokensOf_snoc. simpl.
  rewrite orb_false_r.
  destruct (String.eqb_spec (provider d) p) as [<-|Hne].
  - rewrite orb_true_r, Hacc.
    destruct (existsb _ seen) eqn:Hex; simpl; [reflexivity|].
    f_equal. unfold tokensOf.
    assert (Hnil : List.filter (fun d0 => String.eqb (provider d0) (provider d)) seen = []).
    { clear -Hex. induction seen as [|x seen IH]; simpl in *; [reflexivity|].
      apply orb_false_iff in Hex as [Hx Hrest]. rewrite Hx. auto. }
    rewrite Hnil. reflexivity.
  - rewrite orb_false_r, Hacc, Z.add_0_r. reflexivity.
Qed.

(** The events of the provider '__proto__' leave the accumulator as it
    is; the others are folded in as own properties. *)
Lemma providerUsage_counted (l : list TokenUsageData) :
  providerUsage l
  = fold_left (fun acc d => bump_own acc (provider d) (totalTokens d)) (counted l) [].
Proof.
  unfold providerUsage, counted. generalize (@nil (string * Z)).
  induction l as [|d l IH]; intros acc; [reflexivity|].
  cbn [fold_left List.filter]. unfold bump at 2.
  destruct (String.eqb (provider d) "__proto__"); cbn [negb fold_left]; apply IH.
Qed.

Lemma providerUsage_table (l : list TokenUsageData) :
  usage_table (counted l) (providerUsage l).
Proof.
  rewrite providerUsage_counted. generalize (counted l). clear l. intros l.
  assert (Hgen : forall seen acc, usage_table seen acc ->
            usage_table (seen ++ l)
              (fold_left (fun acc d => bump_own acc (provider d) (totalTokens d)) l acc)).
  { induction l as [|d l IH]; intros seen acc Hinv; simpl.
    - rewrite app_nil_r. exact Hinv.
    - replace (seen ++ d :: l) with ((seen ++ [d]) ++ l)
        by (rewrite <- app_assoc; reflexivity).
      apply IH, usage_table_step, Hinv. }
  apply (Hgen [] []). split; [apply List.NoDup_nil | reflexivity].
Qed.

Lemma own_name_counted (l : list TokenUsageData) :
  Forall (fun d => own_name (provider d) = true) l -> counted l = l.
Proof.
  intros H. unfold counted. apply forallb_filter_id, forallb_forall.
  intros d Hd. rewrite List.Forall_forall in H. specialize (H d Hd).
  destruct (String.eqb_spec (provider d) "__proto__") as [Heq|]; [|reflexivity].
  rewrite Heq in H. discriminate.
Qed.

(** [Object.entries] lists every own property once. *)
Lemma insert_indexed_rows (i : N) (row : string * Z) (rows : list (N * (string * Z))) :
  Permutation (List.map snd (insert_indexed i row rows)) (row :: List.map snd rows).
Proof.
  induction rows as [|[j r] rows IH]; cbn [insert_indexed List.map snd].
  - apply Permutation_refl.
  - destruct (i <? j)%N; cbn [List.map snd]; [apply Permutation_refl|].
    eapply perm_trans; [apply perm_skip, IH | apply perm_swap].
Qed.

Lemma Object_entries_rows (acc : list (string * Z)) :
  Permutation (Object_entries acc) acc.
Proof.
  unfold Object_entries.
  set (indexed := fun row : string * Z =>
                    match array_index (fst row) with Some _ => true | None => false end).
  assert (Hsorted : forall sorted,
            Permutation
              (List.map snd
                 (fold_left (fun sorted row =>
                               match array_index (fst row) with
                               | Some i => insert_indexed i row sorted
                               | None => sorted
                               end) acc sorted))
              (List.map snd sorted ++ List.filter indexed acc)).
  { induction acc as [|row acc IH]; intros sorted; cbn [fold_left List.filter].
    - rewrite app_nil_r. apply Permutation_refl.
    - eapply perm_trans; [apply IH|]. unfold indexed at 2.
      destruct (array_index (fst row)) as [i|].
      + eapply perm_trans;
          [apply Permutation_app_tail, insert_indexed_rows|].
        cbn [app]. apply Permutation_middle.
      + apply Permutation_refl. }
  eapply perm_trans; [apply Permutation_app_tail, Hsorted|]. cbn [List.map app].
  clear Hsorted. induction acc as [|row acc IH]; [apply Permutation_refl|].
  cbn [List.filter]. unfold indexed at 1.
  destruct (array_index (fst row)); cbn [app].
  - apply perm_skip, IH.
  - eapply perm_trans; [apply Permutation_sym, Permutation_middle|].
    apply perm_skip, IH.
Qed.

Lemma Object_entries_In (acc : list (string * Z)) (row : string * Z) :
  In row (Object_entries acc) <-> In row acc.
Proof.
  split; apply Permutation_in;
    [apply Object_entries_rows | apply Permutation_sym, Object_entries_rows].
Qed.

Lemma Object_entries_total (acc : list (string * Z)) :
  fold_right Z.add 0 (List.map snd (Object_entries acc))
  = fold_right Z.add 0 (List.map snd acc).
Proof.
  induction (Object_entries_rows acc) as [|x l l' _ IH|x y l|l l' l'' _ IH1 _ IH2];
    cbn [List.map fold_right]; lia.
Qed.


Lemma sumTokens_sum (l : list TokenUsageData) :
  sumTokens l = fold_right Z.add 0 (List.map totalTokens l).
Proof.
  induction l as [|d l IH]; [reflexivity|].
  change (d :: l) with ([d] ++ l). rewrite sumTokens_app, IH.
  unfold sumTokens. simpl. lia.
Qed.


Lemma ratio100_spec (a b : Z) :
  b <> 0 ->
  (ratio100 a b * Q2Qc (inject_Z b) = Q2Qc (inject_Z (a * 100)))%Qc.
Proof.
  intros Hb. unfold ratio100.
  assert (Hb' : Q2Qc (inject_Z b) <> Q2Qc 0).
  { intros H. apply (f_equal this) in H. simpl in H.
    apply Qred_eq_iff in H. unfold Qeq in H. simpl in H. lia. }
  assert (Hmul : Q2Qc (inject_Z (a * 100))
                 = (Q2Qc (inject_Z a) * Q2Qc (inject_Z 100))%Qc).
  { apply Qc_is_canon. simpl. rewrite !Qred_correct.
    unfold Qeq. simpl. lia. }
  rewrite Hmul. field. exact Hb'.
Qed.

Lemma tokensOf_counted (p : string) (l : list TokenUsageData) :
  p <> "__proto__" -> tokensOf p (counted l) = tokensOf p l.
Proof.
  intros Hp. unfold tokensOf, counted. f_equal.
  induction l as [|d l IH]; [reflexivity|]. cbn [List.filter].
  destruct (String.eqb_spec (provider d) "__proto__") as [Heq|Hne]; cbn [negb List.filter].
  - destruct (String.eqb_spec (provider d) p) as [Hdp|_]; [congruence | exact IH].
  - destruct (String.eqb (provider d) p); [rewrite IH|]; auto.
Qed.

(** The rows of the breakdown: one for each provider of the window other
    than '__proto__'. *)
Lemma providerBreakdown_In now w st (sh : ProviderShare) :
  let inw := filteredData now w st in
  In sh (providerBreakdown (getUsageStats now w st))
  <-> name sh <> "__proto__"
      /\ (exists d, In d inw /\ provider d = name sh)
      /\ usage sh = tokensOf (name sh) inw
      /\ percentage sh = share (usage sh) (sumTokens inw).
Proof.
  intros inw. unfold getUsageStats. simpl. fold inw.
  destruct (providerUsage_table inw) as [Hnd Htab].
  rewrite in_map_iff. split.
  - intros [[n u] [<- Hin]]. simpl.
    apply (proj1 (Object_entries_In _ _)) in Hin.
    apply (In_usageOf _ _ _ Hnd) in Hin. rewrite Htab in Hin.
    destruct (existsb _ (counted inw)) eqn:Hex; [|discriminate].
    apply existsb_exists in Hex as [d [Hd Heq]].
    apply String.eqb_eq in Heq.
    apply filter_In in Hd as [Hd Hown]. apply negb_true_iff in Hown.
    assert (Hn : n <> "__proto__").
    { intros ->. rewrite Heq, String.eqb_refl in Hown. discriminate. }
    rewrite (tokensOf_counted n inw Hn) in Hin.
    repeat split; [exact Hn | exists d; auto | congruence].
  - intros (Hn & [d [Hd Hp]] & Hu & Hs). exists (name sh, usage sh). split.
    + destruct sh as [n u pc]; simpl in *. subst pc. reflexivity.
    + apply (proj2 (Object_entries_In _ _)), usageOf_In. rewrite Htab.
      assert (Hex : existsb (fun d0 => String.eqb (provider d0) (name sh)) (counted inw)
                    = true).
      { apply existsb_exists. exists d. split; [|apply String.eqb_eq, Hp].
        apply filter_In. split; [exact Hd|]. apply negb_true_iff.
        apply String.eqb_neq. congruence. }
      rewrite Hex, (tokensOf_counted _ inw Hn), Hu. reflexivity.
Qed.


Lemma addTokenUsage_store now data c :
  tokenUsageStore (addTokenUsage now data c)
  = {| usageData :=
         List.filter (fun d => now - 30 * day_ms <=? timestamp d)
                     (usageData (tokenUsageStore c) ++ [data]);
       limits := limits (tokenUsageStore c) |}.
Proof.
  destruct c as [st ck [|] [|] ws]; reflexivity.
Qed.

Lemma Q2Qc_mult (a b : Z) :
  (Q2Qc (inject_Z a) * Q2Qc (inject_Z b))%Qc = Q2Qc (inject_Z (a * b)).
Proof.
  apply Qc_is_canon. simpl. rewrite !Qred_correct. unfold Qeq. simpl. lia.
Qed.

Lemma Q2Qc_le (a b : Z) : a <= b -> (Q2Qc (inject_Z a) <= Q2Qc (inject_Z b))%Qc.
Proof.
  intros H. unfold Qcle. simpl. rewrite !Qred_correct. rewrite <- Zle_Qle. exact H.
Qed.

Lemma Q2Qc_lt (a b : Z) : a < b -> (Q2Qc (inject_Z a) < Q2Qc (inject_Z b))%Qc.
Proof.
  intros H. unfold Qclt. simpl. rewrite !Qred_correct. rewrite <- Zlt_Qlt. exact H.
Qed.

Lemma ratio100_within_rounding (a b : Z) :
  b <> 0 -> within_rounding (ratio100 a b) a b.
Proof.
  intros Hb. unfold within_rounding. rewrite (ratio100_spec a b Hb).
  replace (Q2Qc (inject_Z (a * 100)) - Q2Qc (inject_Z (a * 100)))%Qc with (Q2Qc 0)
    by ring.
  rewrite (Qcabs_pos (Q2Qc 0)) by apply Qcle_refl.
  rewrite <- (Qcmult_0_l (Qcabs (Q2Qc (inject_Z (a * 100))))).
  apply Qcmult_le_compat_r; [discriminate | apply Qcabs_nonneg].
Qed.

Lemma ratio100_of_zero (c : Z) : ratio100 0 c = Q2Qc 0.
Proof.
  unfold ratio100. change (Q2Qc (inject_Z 0)) with (Q2Qc 0). unfold Qcdiv. ring.
Qed.

Lemma ratio100_of_all (c : Z) : c <> 0 -> ratio100 c c = Q2Qc (inject_Z 100).
Proof.
  intros Hc. unfold ratio100. field.
  intros H. apply (f_equal this) in H. simpl in H.
  apply Qred_eq_iff in H. unfold Qeq in H. simpl in H. lia.
Qed.

Lemma ratio100_range (u t : Z) :
  0 <= u <= t -> 0 < t ->
  (Q2Qc 0 <= ratio100 u t)%Qc /\ (ratio100 u t <= Q2Qc (inject_Z 100))%Qc.
Proof.
  intros Hu Ht.
  assert (Hpos : (Q2Qc 0 < Q2Qc (inject_Z t))%Qc) by (apply (Q2Qc_lt 0 t), Ht).
  pose proof (ratio100_spec u t ltac:(lia)) as Hspec.
  split.
  - apply Qcmult_lt_0_le_reg_r with (z := Q2Qc (inject_Z t)); [exact Hpos|].
    rewrite Hspec. rewrite Qcmult_0_l. apply (Q2Qc_le 0 (u * 100)). lia.
  - apply Qcmult_lt_0_le_reg_r with (z := Q2Qc (inject_Z t)); [exact Hpos|].
    rewrite Hspec, Q2Qc_mult. apply Q2Qc_le. lia.
Qed.

(** The share [(u / tokens) * 100], 0 where [tokens] is not positive, as
    far as the rounding of the code leaves it: 0 and 100 are exact. *)
Lemma share_facts (u tokens : Z) :
  (tokens <= 0 -> share u tokens = Q2Qc 0)
  /\ (0 < tokens -> u = 0 -> share u tokens = Q2Qc 0)
  /\ (0 < tokens -> u = tokens -> share u tokens = Q2Qc (inject_Z 100))
  /\ (0 < tokens -> 0 <= u <= tokens ->
      (Q2Qc 0 <= share u tokens)%Qc /\ (share u tokens <= Q2Qc (inject_Z 100))%Qc)
  /\ (0 < tokens -> within_rounding (share u tokens) u tokens).
Proof.
  unfold share. destruct (Z.ltb_spec 0 tokens) as [Hpos|Hle].
  - split; [lia|].
    split; [intros _ ->; apply ratio100_of_zero|].
    split; [intros _ ->; apply ratio100_of_all; lia|].
    split; [intros _ Hu; apply ratio100_range; assumption|].
    intros _. apply ratio100_within_rounding. lia.
  - split; [reflexivity|]. repeat split; lia.
Qed.




(** C5: after [addTokenUsage] the ledger is the previous ledger followed
    by the new event, restricted to the events stamped within the last 30
    days: nothing older is kept, the new event is kept exactly when it is
    itself within the horizon, and every in-window event held before is
    still held.  In a browser whose cookie write returns, the resulting
    state is what the cookie holds afterwards; on the server nothing is
    written, and in a browser whose cookie write raises the cookie keeps
    what it held and a warning is logged. *)
Theorem addTokenUsage_retains_last_30_days :
  forall (now : Z) (data : TokenUsageData) (c : Client),
    let c' := addTokenUsage now data c in
    let horizon := now - 30 * day_ms in
    let before := usageData (tokenUsageStore c) in
    let after := usageData (tokenUsageStore c') in
    after = List.filter (fun d => horizon <=? timestamp d) (before ++ [data])
    /\ (forall d, In d after -> horizon <= timestamp d)
    /\ (In data after <-> horizon <= timestamp data)
    /\ (forall d, In d before -> horizon <= timestamp d -> In d after)
    /\ (forall d, In d after -> In d before \/ d = data)
    /\ limits (tokenUsageStore c') = limits (tokenUsageStore c)
    /\ (isClient c = true -> cookies_set_throws c = false ->
        cookie c' = Some (tokenUsageStore c', now + 30 * day_ms))
    /\ (isClient c = false -> cookie c' = cookie c /\ warnings c' = warnings c)
    /\ (isClient c = true -> cookies_set_throws c = true ->
        cookie c' = cookie c
        /\ warnings c' = warnings c ++ ["Failed to save token usage data to cookie:"]).
Proof.
  intros now data c c' horizon before after.
  assert (Hafter : after
            = List.filter (fun d => horizon <=? timestamp d) (before ++ [data])).
  { subst after c'. rewrite addTokenUsage_store. reflexivity. }
  assert (Hin : forall d, In d after
            <-> (In d before \/ d = data) /\ horizon <= timestamp d).
  { intros d. rewrite Hafter, filter_In, in_app_iff, Z.leb_le. simpl.
    intuition congruence. }
  split; [exact Hafter|].
  split; [intros d Hd; apply Hin in Hd; tauto|].
  split; [rewrite Hin; tauto|].
  split; [intros d Hd Hh; apply Hin; tauto|].
  split; [intros d Hd; apply Hin in Hd; tauto|].
  split.
  { subst c'. rewrite addTokenUsage_store. reflexivity. }
  subst c'. destruct c as [st ck cl th ws].
  cbn [isClient cookies_set_throws cookie warnings].
  split; [intros -> ->; reflexivity|].
  split; [intros ->; split; reflexivity|].
  intros -> ->. split; reflexivity.
Qed.

(** A browser ledger holding one event 40 days old and one 3 days old,
    to which an event stamped now is added. *)
Lemma addTokenUsage_retains_last_30_days_witness :
  let stale := mkUsage "A" "m" 1 1 2 (100 * day_ms - 40 * day_ms) in
  let recent := mkUsage "B" "m" 2 3 5 (100 * day_ms - 3 * day_ms) in
  let fresh := mkUsage "A" "m" 4 4 8 (100 * day_ms) in
  let c := {| tokenUsageStore := {| usageData := [stale; recent]; limits := ∅ |};
              cookie := None; isClient := true; cookies_set_throws := false;
              warnings := [] |} in
  let c' := addTokenUsage (100 * day_ms) fresh c in
  usageData (tokenUsageStore c') = [recent; fresh]
  /\ cookie c' = Some (tokenUsageStore c', 100 * day_ms + 30 * day_ms).
Proof.
  intros stale recent fresh c c'.
  pose proof (addTokenUsage_retains_last_30_days (100 * day_ms) fresh c) as H.
  destruct H as (Hafter & _ & _ & _ & _ & _ & Hcookie & _).
  split.
  - fold c' in Hafter. rewrite Hafter. reflexivity.
  - apply Hcookie; reflexivity.
Defined.

(** The same event recorded on the server and in a browser whose cookie
    write raises: the ledger holds it, and nothing has been written. *)
Lemma addTokenUsage_leaves_the_state_unsaved :
  let data := mkUsage "A" "m" 4 4 8 50 in
  let server := {| tokenUsageStore := initialState; cookie := None; isClient := false;
                   cookies_set_throws := false; warnings := [] |} in
  let browser := {| tokenUsageStore := initialState; cookie := None; isClient := true;
                    cookies_set_throws := true; warnings := [] |} in
  (usageData (tokenUsageStore (addTokenUsage 60 data server)) = [data]
   /\ cookie (addTokenUsage 60 data server) = None)
  /\ (usageData (tokenUsageStore (addTokenUsage 60 data browser)) = [data]
      /\ cookie (addTokenUsage 60 data browser) = None).
Proof. repeat split. Qed.

End UsageFacts.

(* ===================================================================== *)
(** * Properties of serialization and truncation                          *)
(* ===================================================================== *)

Module TruncationFacts.

Import Json Debug.

(** Induction over values that reaches the elements of arrays and the
    property values of objects. *)
Section ValueInduction.
Variable P : JsValue -> Prop.
Hypothesis P_undefined : P JUndefined.
Hypothesis P_null : P JNull.
Hypothesis P_bool : forall b, P (JBool b).
Hypothesis P_number : forall n, P (JNumber n).
Hypothesis P_bigint : forall n, P (JBigInt n).
Hypothesis P_string : forall s, P (JString s).
Hypothesis P_array : forall items, Forall P items -> P (JArray items).
Hypothesis P_object :
  forall props, Forall (fun kv => P (snd kv)) props -> P (JObject props).
Hypothesis P_cycle : P JCycle.

Fixpoint JsValue_nested_ind (v : JsValue) : P v :=
  match v with
  | JUndefined => P_undefined
  | JNull => P_null
  | JBool b => P_bool b
  | JNumber n => P_number n
  | JBigInt n => P_bigint n
  | JString s => P_string s
  | JArray items =>
      P_array items
        ((fix all (l : list JsValue) : Forall P l :=
            match l with
            | [] => List.Forall_nil P
            | x :: rest =>
                @List.Forall_cons _ P x rest (JsValue_nested_ind x) (all rest)
            end) items)
  | JObject props =>
      P_object props
        ((fix all (l : list (JsString * JsValue))
            : Forall (fun kv => P (snd kv)) l :=
            match l with
            | [] => List.Forall_nil _
            | kv :: rest =>
                @List.Forall_cons _ (fun kv => P (snd kv)) kv rest
                  (JsValue_nested_ind (snd kv)) (all rest)
            end) props)
  | JCycle => P_cycle
  end.
End ValueInduction.

(** One unfolding of [truncateData]. *)
Lemma truncateData_unfold (obj : JsValue) (maxSize : Q) :
  truncateData obj maxSize
  = match byteSize obj with
    | Throw e => Throw e
    | Ok size =>
        if Qle_bool (inject_Z size) maxSize then Ok obj
        else
          match obj with
          | JString s =>
              Ok (JString (firstn (Z.to_nat (Qfloor (maxSize / 2))) s
                             ++ truncation_marker))
          | JArray items =>
              match truncate_items (fun item => truncateData item (maxSize / 10))
                                   10%nat items with
              | Throw e => Throw e
              | Ok items' => Ok (JArray items')
              end
          | JObject props =>
              match truncate_entries (fun value => truncateData value (maxSize / 4))
                                     maxSize props [] 0 with
              | Throw e => Throw e
              | Ok truncated => Ok (JObject truncated)
              end
          | _ => Ok obj
          end
    end.
Proof. destruct obj; reflexivity. Qed.

(** A value that fits the budget is returned as it is. *)
Lemma truncateData_fits (obj : JsValue) (maxSize : Q) (size : Z) :
  byteSize obj = Ok size -> (inject_Z size <= maxSize)%Q ->
  truncateData obj maxSize = Ok obj.
Proof.
  intros Hsize Hle. rewrite truncateData_unfold, Hsize.
  apply Qle_bool_iff in Hle. rewrite Hle. reflexivity.
Qed.

(** A failure of [JSON.stringify] on the input is a failure of
    [truncateData]. *)
Lemma truncateData_throws (obj : JsValue) (maxSize : Q) (e : Thrown) :
  stringify obj = Throw e -> truncateData obj maxSize = Throw e.
Proof.
  intros H. rewrite truncateData_unfold. unfold byteSize. rewrite H. reflexivity.
Qed.

Lemma elements_with_ok (l : list JsValue) :
  Forall serializable l <-> exists parts, elements_with stringify l = Ok parts.
Proof.
  induction l as [|x l IH]; simpl.
  - split; [eauto | constructor].
  - split.
    + intros H. inversion H as [|? ? [o Hx] Hl]; subst.
      apply IH in Hl as [parts Hparts]. rewrite Hx, Hparts. eauto.
    + intros [parts H]. destruct (stringify x) as [o|e] eqn:Hx; [|discriminate].
      destruct (elements_with stringify l) as [ps|e] eqn:Hl; [|discriminate].
      constructor; [exists o; exact Hx | apply IH; eauto].
Qed.

Lemma members_with_ok (l : list (JsString * JsValue)) :
  Forall (fun kv => serializable (snd kv)) l
  <-> exists parts, members_with stringify l = Ok parts.
Proof.
  induction l as [|[k x] l IH]; simpl.
  - split; [eauto | constructor].
  - split.
    + intros H. inversion H as [|? ? [o Hx] Hl]; subst. simpl in Hx.
      apply IH in Hl as [parts Hparts]. rewrite Hx, Hparts. eauto.
    + intros [parts H]. destruct (stringify x) as [o|e] eqn:Hx; [|discriminate].
      destruct (members_with stringify l) as [ps|e] eqn:Hl; [|discriminate].
      constructor; [exists o; exact Hx | apply IH; eauto].
Qed.

Lemma serializable_array (items : list JsValue) :
  serializable (JArray items) <-> Forall serializable items.
Proof.
  rewrite elements_with_ok. unfold serializable. simpl. split.
  - intros [o H]. destruct (elements_with stringify items); [eauto | discriminate].
  - intros [parts H]. rewrite H. eauto.
Qed.

Lemma serializable_object (props : list (JsString * JsValue)) :
  serializable (JObject props) <-> Forall (fun kv => serializable (snd kv)) props.
Proof.
  rewrite members_with_ok. unfold serializable. simpl. split.
  - intros [o H]. destruct (members_with stringify props); [eauto | discriminate].
  - intros [parts H]. rewrite H. eauto.
Qed.

Lemma byteSize_serializable (v : JsValue) :
  serializable v <-> exists size, byteSize v = Ok size.
Proof.
  unfold serializable, byteSize. split.
  - intros [o H]. rewrite H. destruct o; eauto.
  - intros [size H]. destruct (stringify v) as [o|e]; [eauto | discriminate].
Qed.

Lemma truncate_items_well (maxSize : Q) (l : list JsValue) :
  Forall truncates_well l -> Forall serializable l ->
  forall n, exists l',
    truncate_items (fun item => truncateData item maxSize) n l = Ok l'
    /\ Forall serializable l'.
Proof.
  induction l as [|x l IH]; intros Hwell Hser n.
  - destruct n; simpl; eauto.
  - destruct n as [|n]; simpl; [eauto|].
    inversion Hwell as [|? ? Hx Hl]; subst.
    inversion Hser as [|? ? Sx Sl]; subst.
    destruct (Hx Sx maxSize) as [x' [Hx' Sx']]. rewrite Hx'.
    destruct (IH Hl Sl n) as [l' [Hl' Sl']]. rewrite Hl'.
    eauto.
Qed.

Lemma truncate_entries_well (inner maxSize : Q) (l : list (JsString * JsValue)) :
  Forall (fun kv => truncates_well (snd kv)) l ->
  Forall (fun kv => serializable (snd kv)) l ->
  forall truncated currentSize,
    Forall (fun kv => serializable (snd kv)) truncated ->
    exists truncated',
      truncate_entries (fun value => truncateData value inner) maxSize
                       l truncated currentSize = Ok truncated'
      /\ Forall (fun kv => serializable (snd kv)) truncated'.
Proof.
  induction l as [|[k x] l IH]; intros Hwell Hser truncated currentSize Hacc; simpl.
  - eauto.
  - destruct (Qle_bool maxSize (inject_Z currentSize)); [eauto|].
    inversion Hwell as [|? ? Hx Hl]; subst.
    inversion Hser as [|? ? Sx Sl]; subst. simpl in Hx, Sx.
    destruct (Hx Sx inner) as [x' [Hx' Sx']]. rewrite Hx'.
    destruct (proj1 (byteSize_serializable x') Sx') as [sz Hsz]. rewrite Hsz.
    apply IH; [assumption | assumption |].
    apply Forall_app. split; [assumption | constructor; [exact Sx' | constructor]].
Qed.

(** On every value that [JSON.stringify] accepts, [truncateData] returns,
    and what it returns is accepted by [JSON.stringify] again. *)
Lemma truncateData_total (v : JsValue) : truncates_well v.
Proof.
  induction v using JsValue_nested_ind; intros Hser maxSize;
    rewrite truncateData_unfold;
    destruct (proj1 (byteSize_serializable _) Hser) as [size Hsize];
    rewrite Hsize;
    destruct (Qle_bool (inject_Z size) maxSize); eauto.
  - exists (JString (firstn (Z.to_nat (Qfloor (maxSize / 2))) s ++ truncation_marker)).
    split; [reflexivity|]. unfold serializable. simpl. eauto.
  - apply serializable_array in Hser.
    destruct (truncate_items_well (maxSize / 10) items H Hser 10%nat) as [l' [Hl' Sl']].
    rewrite Hl'. exists (JArray l'). split; [reflexivity|].
    apply serializable_array, Sl'.
  - apply serializable_object in Hser.
    destruct (truncate_entries_well (maxSize / 4) maxSize props H Hser [] 0)
      as [t' [Ht' St']]; [constructor|].
    rewrite Ht'. exists (JObject t'). split; [reflexivity|].
    apply serializable_object, St'.
Qed.

(** ** Strings of plain characters *)

Ltac n_cases :=
  repeat match goal with
         | |- context [(?a =? ?b)%N] => destruct (N.eqb_spec a b); try lia
         | |- context [(?a <? ?b)%N] => destruct (N.ltb_spec a b); try lia
         | |- context [(?a <=? ?b)%N] => destruct (N.leb_spec a b); try lia
         end.

Lemma plain_char_range (c : N) :
  plain_char c = true -> (32 <= c < 127 /\ c <> 34 /\ c <> 92)%N.
Proof.
  unfold plain_char. rewrite !andb_true_iff, !negb_true_iff.
  rewrite N.leb_le, N.ltb_lt, !N.eqb_neq. tauto.
Qed.

Lemma quote_body_plain (s : JsString) :
  forallb plain_char s = true -> quote_body s = s.
Proof.
  induction s as [|c s IH]; [reflexivity|].
  cbn [forallb]. rewrite andb_true_iff. intros [Hc Hs].
  apply plain_char_range in Hc. cbn [quote_body].
  unfold is_high_surrogate, is_low_surrogate. n_cases.
  cbn [andb]. rewrite (IH Hs). reflexivity.
Qed.

Lemma utf8_encode_plain (s : JsString) :
  forallb (fun c => (c <? 128)%N) s = true -> utf8_encode s = s.
Proof.
  induction s as [|c s IH]; [reflexivity|].
  cbn [forallb]. rewrite andb_true_iff. intros [Hc Hs].
  cbn [utf8_encode]. change 0x80%N with 128%N. rewrite Hc, (IH Hs). reflexivity.
Qed.

Lemma plain_below_128 (s : JsString) :
  forallb plain_char s = true -> forallb (fun c => (c <? 128)%N) s = true.
Proof.
  rewrite !forallb_forall. intros H c Hc.
  apply H, plain_char_range in Hc. apply N.ltb_lt. lia.
Qed.

Lemma byteSize_plain_string (s : JsString) :
  forallb plain_char s = true ->
  byteSize (JString s) = Ok (Z.of_nat (length s) + 2).
Proof.
  intros Hs. unfold byteSize. cbn [stringify]. unfold quote.
  rewrite (quote_body_plain s Hs), utf8_encode_plain.
  - f_equal. rewrite !length_app. cbn [length]. lia.
  - rewrite !forallb_app. cbn [forallb].
    rewrite (plain_below_128 s Hs). reflexivity.
Qed.

Lemma forallb_firstn {A} (p : A -> bool) (n : nat) (l : list A) :
  forallb p l = true -> forallb p (firstn n l) = true.
Proof.
  revert n. induction l as [|a l IH]; intros [|n] H; simpl in *; auto.
  apply andb_true_iff in H as [Ha Hl]. rewrite Ha. simpl. auto.
Qed.

(** Half the budget rounded down, plus the marker and the two quotes,
    stays within a budget of at least 34. *)
Lemma half_budget_fits (maxSize : Q) (kept : nat) :
  (34 <= maxSize)%Q ->
  (kept <= Z.to_nat (Qfloor (maxSize / 2)))%nat ->
  (inject_Z (Z.of_nat (kept + 15) + 2) <= maxSize)%Q.
Proof.
  intros Hbig Hkept.
  assert (Hfloor : (inject_Z (Qfloor (maxSize / 2)) <= maxSize / 2)%Q)
    by apply Qfloor_le.
  assert (H17 : 17 <= Qfloor (maxSize / 2)).
  { rewrite <- (Qfloor_Z 17). apply Qfloor_resp_le.
    change (inject_Z 17) with (17 # 1)%Q.
    unfold Qdiv. change (/ 2)%Q with (1 # 2)%Q. lra. }
  apply Qle_trans with (inject_Z (Qfloor (maxSize / 2) + 17)).
  - rewrite <- Zle_Qle. lia.
  - rewrite inject_Z_plus. change (inject_Z 17) with (17 # 1)%Q.
    unfold Qdiv in *. change (/ 2)%Q with (1 # 2)%Q in *. lra.
Qed.

Lemma truncated_string_fits (s : JsString) (maxSize : Q) :
  forallb plain_char s = true -> (34 <= maxSize)%Q ->
  exists size,
    byteSize (JString (firstn (Z.to_nat (Qfloor (maxSize / 2))) s ++ truncation_marker))
    = Ok size
    /\ (inject_Z size <= maxSize)%Q.
Proof.
  intros Hs Hbig. eexists. split.
  - apply byteSize_plain_string. rewrite forallb_app.
    rewrite (forallb_firstn _ _ _ Hs). reflexivity.
  - rewrite length_app. change (length truncation_marker) with 15%nat.
    apply half_budget_fits; [exact Hbig|]. apply firstn_le_length.
Qed.

(** ** The byte budget *)

(** C3, as stated, fails at the default budget of 50 KiB: of a string of
    30000 characters U+0001, each of which serializes to the six bytes of
    its escape, [truncateData] keeps the first 25600 and appends the
    marker, 153617 bytes in all. *)
Lemma truncateData_exceeds_default_budget :
  match truncateData (JString (repeat 1%N (Z.to_nat 30000))) _maxDataSize with
  | Ok v' => byteSize v'
  | Throw e => Throw e
  end = Ok 153617
  /\ ~ (inject_Z 153617 <= _maxDataSize)%Q.
Proof.
  split; [vm_compute; reflexivity|].
  unfold _maxDataSize, Qle. cbn. lia.
Qed.

(** The same on a small scale: ten letters against a budget of 4 bytes
    come back as two letters and the marker, 19 bytes; a number too long
    for its budget comes back unchanged. *)
Lemma truncateData_exceeds_small_budget :
  truncateData (JString (str "aaaaaaaaaa")) 4 = Ok (JString (str "aa... [truncated]"))
  /\ byteSize (JString (str "aa... [truncated]")) = Ok 19
  /\ truncateData (JNumber 123456) 2 = Ok (JNumber 123456)
  /\ byteSize (JNumber 123456) = Ok 6.
Proof. repeat split; vm_compute; reflexivity. Qed.

(** C3, amended: when the input serializes to at most [maxBytes] bytes,
    [truncateData] returns it unchanged, and when the input is a string of
    plain characters and [maxBytes] is at least 34, it returns a string
    that serializes to at most [maxBytes] bytes.  In both cases the result
    is within the budget. *)
Theorem truncateData_within_budget :
  forall (v : JsValue) (maxBytes : Q),
    ((exists size, byteSize v = Ok size /\ (inject_Z size <= maxBytes)%Q)
     \/ (exists s, v = JString s /\ forallb plain_char s = true
                   /\ (34 <= maxBytes)%Q)) ->
    exists v' size',
      truncateData v maxBytes = Ok v'
      /\ byteSize v' = Ok size'
      /\ (inject_Z size' <= maxBytes)%Q
      /\ ((exists size, byteSize v = Ok size /\ (inject_Z size <= maxBytes)%Q)
          -> v' = v).
Proof.
  intros v maxBytes [[size [Hsize Hle]] | [s [-> [Hplain Hbig]]]].
  - exists v, size. repeat split; try assumption.
    eapply truncateData_fits; eassumption.
  - rewrite truncateData_unfold, (byteSize_plain_string s Hplain).
    destruct (Qle_bool (inject_Z (Z.of_nat (length s) + 2)) maxBytes) eqn:Hfit.
    + apply Qle_bool_iff in Hfit.
      exists (JString s), (Z.of_nat (length s) + 2).
      repeat split; try assumption. apply byteSize_plain_string, Hplain.
    + destruct (truncated_string_fits s maxBytes Hplain Hbig) as [size' [Hs' Hle']].
      eexists. exists size'. repeat split; try eassumption.
      intros [size [Hsize Hle]]. inversion Hsize; subst.
      apply Qle_bool_iff in Hle. congruence.
Qed.

(** Forty letters against a budget of 34 bytes. *)
Lemma truncateData_within_budget_witness :
  exists v' size',
    truncateData (JString (repeat 97%N 40)) 34 = Ok v'
    /\ byteSize v' = Ok size'
    /\ (inject_Z size' <= 34)%Q
    /\ ((exists size, byteSize (JString (repeat 97%N 40)) = Ok size
                      /\ (inject_Z size <= 34)%Q)
        -> v' = JString (repeat 97%N 40)).
Proof.
  apply (truncateData_within_budget (JString (repeat 97%N 40)) 34).
  right. exists (repeat 97%N 40).
  split; [reflexivity|]. split; [reflexivity|].
  unfold Qle. simpl. lia.
Defined.

(** ** Values that cannot be serialized *)

(** C4, as stated, fails on an object that refers to itself:
    [JSON.stringify] raises a TypeError, which [truncateData] lets
    through, and no string is returned in its place. *)
Lemma truncateData_raises_on_circular :
  truncateData (JObject [(str "self", JCycle)]) _maxDataSize
  = Throw (JsError "TypeError" (str "Converting circular structure to JSON"))
  /\ forall placeholder,
       truncateData (JObject [(str "self", JCycle)]) _maxDataSize
       <> Ok (JString placeholder).
Proof.
  assert (H : truncateData (JObject [(str "self", JCycle)]) _maxDataSize
              = Throw (JsError "TypeError"
                         (str "Converting circular structure to JSON")))
    by (vm_compute; reflexivity).
  split; [exact H|]. intros placeholder. rewrite H. discriminate.
Qed.

(** C4, amended: [truncateData] raises exactly when [JSON.stringify]
    raises on its input, and with the same error; on every input that
    [JSON.stringify] accepts it returns a value, itself serializable.
    [_log] has no handler either: when the payload of an enabled [_log]
    cannot be serialized, the error reaches the caller and nothing is
    appended. *)
Theorem truncateData_raises_as_stringify :
  forall (v : JsValue) (maxBytes : Q),
    (forall e, stringify v = Throw e -> truncateData v maxBytes = Throw e)
    /\ (serializable v ->
        exists v', truncateData v maxBytes = Ok v' /\ serializable v')
    /\ (forall e, stringify v = Throw e -> truthy v = true ->
        forall now lvl cat msg tr w,
          _isEnabled (mgr w) = true ->
          _log now lvl cat msg v tr w = (w, Throw e)).
Proof.
  intros v maxBytes. split; [intros e; apply truncateData_throws|].
  split; [intros Hser; apply truncateData_total, Hser|].
  intros e He Ht now lvl cat msg tr w Hen.
  unfold _log. rewrite Hen, Ht. cbn [negb].
  rewrite (truncateData_throws v _maxDataSize e He). reflexivity.
Qed.

(** A serializable payload, a BigInt, and a log call carrying the BigInt. *)
Lemma truncateData_raises_as_stringify_witness :
  (exists v', truncateData (JArray [JNumber 1; JString (str "x")]) 4 = Ok v'
              /\ serializable v')
  /\ truncateData (JBigInt 7) 4
     = Throw (JsError "TypeError" (str "Do not know how to serialize a BigInt"))
  /\ forall w, _isEnabled (mgr w) = true ->
       _log 0 LInfo CUser (str "click") (JBigInt 7) None w
       = (w, Throw (JsError "TypeError" (str "Do not know how to serialize a BigInt"))).
Proof.
  split.
  { apply (truncateData_raises_as_stringify (JArray [JNumber 1; JString (str "x")]) 4).
    eexists. reflexivity. }
  split.
  { apply (truncateData_raises_as_stringify (JBigInt 7) 4). reflexivity. }
  intros w Hen.
  apply (truncateData_raises_as_stringify (JBigInt 7) 4); [reflexivity | reflexivity | exact Hen].
Defined.

End TruncationFacts.

(* ===================================================================== *)
(** * Properties of the debug manager                                     *)
(* ===================================================================== *)

Module DebugFacts.

Import Json Debug.
Local Open Scope js_scope.

(** ** Statements that keep an invariant *)

Section Keeps.
Variable I : World -> Prop.

Lemma keeps_ret {A} (a : A) : keeps I (ret a).
Proof. intros w Hw. exact Hw. Qed.

Lemma keeps_throw {A} (e : Thrown) : keeps I (@throw A e).
Proof. intros w Hw. exact Hw. Qed.

Lemma keeps_bind {A B} (c : M A) (k : A -> M B) :
  keeps I c -> (forall a, keeps I (k a)) -> keeps I (bind c k).
Proof.
  intros Hc Hk w Hw. unfold bind. specialize (Hc w Hw).
  destruct (c w) as [w' [a|e]]; simpl in *; [apply Hk, Hc | exact Hc].
Qed.

Lemma keeps_try_catch {A} (c : M A) (handler : Thrown -> M A) :
  keeps I c -> (forall e, keeps I (handler e)) -> keeps I (try_catch c handler).
Proof.
  intros Hc Hh w Hw. unfold try_catch. specialize (Hc w Hw).
  destruct (c w) as [w' [a|e]]; simpl in *; [exact Hc | apply Hh, Hc].
Qed.

Lemma keeps_modify (f : World -> World) :
  (forall w, I w -> I (f w)) -> keeps I (modify f).
Proof. intros Hf w Hw. apply Hf, Hw. Qed.

Lemma keeps_discard {A} (c : M A) : keeps I c -> keeps I (discard c).
Proof. intros Hc. apply keeps_bind; [exact Hc | intros a; apply keeps_ret]. Qed.

(** An invariant that does not read what the listeners were handed ... *)
Hypothesis I_delivered :
  forall (d : Host -> list (nat * LogEntry)) w,
    I w -> I (on_host (fun h => set_delivered (d h) h) w).

Lemma keeps_notify (ls : list Listener) (entry : LogEntry) : keeps I (notify ls entry).
Proof.
  induction ls as [|l ls IH]; intros w Hw; simpl; [exact Hw|].
  destruct (listener_run l entry); simpl.
  - apply (I_delivered (fun h => delivered h ++ [(listener_id l, entry)])), Hw.
  - apply IH, (I_delivered (fun h => delivered h ++ [(listener_id l, entry)])), Hw.
Qed.

(** ... and that survives the replacement of the buffer by a capped
    [unshift]. *)
Hypothesis I_unshift :
  forall entry w,
    I w -> I (on_mgr (fun m => set_logs (unshift_capped entry (_logs m)) m) w).

Lemma keeps_log now lvl cat msg payload tr :
  keeps I (_log now lvl cat msg payload tr).
Proof.
  intros w Hw. unfold _log.
  destruct (negb (_isEnabled (mgr w))); [exact Hw|].
  destruct (if truthy payload then _ else _) as [truncated|e]; [|exact Hw].
  apply keeps_notify, I_unshift, Hw.
Qed.

End Keeps.

(** ** The retention buffer *)

Lemma unshift_capped_firstn (entry : LogEntry) (logs : list LogEntry) :
  (length logs <= _maxLogs)%nat ->
  unshift_capped entry logs = firstn _maxLogs (entry :: logs).
Proof.
  intros Hlen. unfold unshift_capped. cbn [length].
  destruct (Nat.ltb_spec _maxLogs (S (length logs))) as [Hfull|Hroom].
  - rewrite removelast_firstn_len. cbn [length Nat.pred].
    f_equal. lia.
  - symmetry. apply firstn_all2. cbn [length]. lia.
Qed.

Lemma unshift_capped_head (entry : LogEntry) (logs : list LogEntry) :
  (length logs <= _maxLogs)%nat ->
  unshift_capped entry logs = entry :: firstn (_maxLogs - 1) logs.
Proof.
  intros Hlen. rewrite unshift_capped_firstn by exact Hlen. reflexivity.
Qed.

Lemma unshift_capped_length (entry : LogEntry) (logs : list LogEntry) :
  (length logs <= _maxLogs)%nat ->
  (length (unshift_capped entry logs) <= _maxLogs)%nat.
Proof.
  intros Hlen. rewrite unshift_capped_firstn by exact Hlen.
  apply firstn_le_length.
Qed.

Lemma firstn_app_firstn {A} (n : nat) (a b : list A) :
  firstn n (a ++ firstn n b) = firstn n (a ++ b).
Proof.
  rewrite !firstn_app, firstn_firstn. do 2 f_equal. lia.
Qed.

Lemma bounded_delivered (d : Host -> list (nat * LogEntry)) (w : World) :
  bounded w -> bounded (on_host (fun h => set_delivered (d h) h) w).
Proof. intros H. exact H. Qed.

Lemma bounded_unshift (entry : LogEntry) (w : World) :
  bounded w ->
  bounded (on_mgr (fun m => set_logs (unshift_capped entry (_logs m)) m) w).
Proof. intros H. apply unshift_capped_length, H. Qed.

Lemma bounded_log now lvl cat msg payload tr :
  keeps bounded (_log now lvl cat msg payload tr).
Proof. apply keeps_log; [apply bounded_delivered | apply bounded_unshift]. Qed.

(** Steps through a statement whose parts keep [bounded]. *)
Ltac keeps_bounded :=
  repeat first
    [ apply bounded_log
    | apply keeps_ret
    | apply keeps_throw
    | apply keeps_discard
    | apply keeps_bind; [|intros ?]
    | apply keeps_try_catch; [|intros ?]
    | (apply keeps_modify; intros ? ?; assumption) ].

Lemma bounded_fetch_wrapper depth started settled requestId args :
  keeps bounded (_fetch depth started settled requestId args).
Proof.
  induction depth as [|depth IH]; cbn [_fetch]; keeps_bounded.
  - intros w Hw. destruct (_originalFetch (mgr w)) as [[|]|]; exact Hw.
  - intros w Hw. destruct (_originalFetch (mgr w)) as [[|]|]; try exact Hw.
    apply IH, Hw.
Qed.

Lemma bounded_debug_console depth now m first others :
  keeps bounded (debug_console depth now m first others).
Proof.
  induction depth as [|depth IH]; cbn [debug_console]; keeps_bounded.
  - intros w Hw. destruct (console_slot m _); exact Hw.
  - intros w Hw. destruct (console_slot m _); [exact Hw | apply IH, Hw].
Qed.

Lemma bounded_call_setItem impl now key value :
  keeps bounded (call_setItem impl now key value).
Proof.
  induction impl as [|original IH|]; cbn [call_setItem]; keeps_bounded.
  exact IH.
Qed.

Lemma bounded_setupDebugMode now : keeps bounded (_setupDebugMode now).
Proof.
  intros w Hw. unfold _setupDebugMode.
  destruct (negb (isClient (host w))); [exact Hw|].
  revert w Hw. keeps_bounded.
  - intros w Hw. unfold _interceptNetworkCalls.
    destruct (negb (isClient (host w))); exact Hw.
  - intros w Hw. unfold _setupErrorListeners.
    destruct (negb (isClient (host w))); exact Hw.
  - unfold _monitorStateChanges. keeps_bounded.
    intros w Hw. destruct (cookie_descriptor_throws (host w)); [|exact Hw].
    apply bounded_log, Hw.
Qed.

Lemma bounded_teardownDebugMode : keeps bounded _teardownDebugMode.
Proof.
  intros w Hw. unfold _teardownDebugMode.
  destruct (negb (isClient (host w))); [exact Hw|].
  revert w Hw. keeps_bounded.
  - intros w Hw. unfold _restoreNetworkCalls.
    destruct (_originalFetch (mgr w)); exact Hw.
  - intros w Hw. unfold _removeErrorListeners.
    destruct (negb (isClient (host w))); exact Hw.
Qed.

Lemma filter_length_le {A} (p : A -> bool) (l : list A) :
  (length (List.filter p l) <= length l)%nat.
Proof.
  induction l as [|a l IH]; simpl; [lia|]. destruct (p a); simpl; lia.
Qed.

(** Every operation leaves the buffer within its capacity. *)
Lemma bounded_perform (o : Op) : keeps bounded (perform o).
Proof.
  destruct o; cbn [perform].
  - intros w Hw. unfold enableDebug.
    destruct (negb (isClient (host w))); [exact Hw|].
    revert Hw. generalize (userAgent (host w)). intros ua. revert w.
    keeps_bounded.
    + unfold localStorage_setItem_call. intros w Hw.
      apply bounded_call_setItem, Hw.
    + apply bounded_setupDebugMode.
  - intros w Hw. unfold disableDebug.
    destruct (negb (isClient (host w))); [exact Hw|].
    revert w Hw. keeps_bounded.
    + unfold localStorage_setItem_call. intros w Hw.
      apply bounded_call_setItem, Hw.
    + apply bounded_teardownDebugMode.
    + intros w Hw. unfold bounded. simpl. unfold _maxLogs. lia.
  - unfold clearLogs. keeps_bounded.
    intros w Hw. unfold bounded. simpl. unfold _maxLogs. lia.
  - apply bounded_log.
  - intros w Hw. unfold addListener, modify, bounded. simpl.
    destruct (existsb _ _); exact Hw.
  - intros w Hw. exact Hw.
  - intros w Hw. exact Hw.
  - apply keeps_discard. intros w Hw. unfold fetch.
    destruct (window_fetch (host w)); [exact Hw|].
    apply bounded_fetch_wrapper, Hw.
  - intros w Hw. unfold console_call.
    destruct (console_slot m _); [exact Hw|].
    apply bounded_debug_console, Hw.
  - unfold localStorage_setItem_call. intros w Hw.
    apply bounded_call_setItem, Hw.
  - intros w Hw. unfold document_cookie_write.
    destruct (document_cookie (host w)); [exact Hw|].
    revert w Hw. keeps_bounded.
  - intros w Hw. destruct (window_onerror (host w)) as [[|]|]; try exact Hw.
    revert w Hw. unfold debug_onerror. keeps_bounded.
  - intros w Hw.
    destruct (window_onunhandledrejection (host w)) as [[|]|]; try exact Hw.
    apply bounded_log, Hw.
  - intros w Hw. unfold fire_interval.
    destruct (existsb _ _); [|exact Hw].
    unfold cleanup_tick, modify, bounded. simpl.
    etransitivity; [apply filter_length_le | exact Hw].
Qed.

Lemma bounded_run (ops : list Op) (w : World) : bounded w -> bounded (run ops w).
Proof.
  revert w. induction ops as [|o ops IH]; intros w Hw; simpl; [exact Hw|].
  apply IH, bounded_perform, Hw.
Qed.

Lemma bounded_construct (now : Z) (h : Host) : bounded (fst (construct now h)).
Proof.
  unfold construct. destruct (isClient h); [|unfold bounded; simpl; lia].
  destruct (bool_decide _); [|unfold bounded; simpl; lia].
  apply bounded_setupDebugMode. unfold bounded. simpl. lia.
Qed.

Lemma notify_mgr (ls : list Listener) (entry : LogEntry) (w : World) :
  mgr (fst (notify ls entry w)) = mgr w.
Proof.
  apply (keeps_notify (fun w' => mgr w' = mgr w)); [|reflexivity].
  intros d w' H. exact H.
Qed.

Lemma log_disabled now lvl cat msg payload tr (w : World) :
  _isEnabled (mgr w) = false ->
  _log now lvl cat msg payload tr w = (w, Ok tt).
Proof. intros H. unfold _log. rewrite H. reflexivity. Qed.

(** The manager after a call of [_log] while capture is enabled: only the
    buffer may differ, by the entry of the call. *)
Lemma log_call_mgr (c : LogCall) (w : World) :
  _isEnabled (mgr w) = true ->
  mgr (fst (log_call c w))
  = match appended_entry c with
    | Some entry => set_logs (unshift_capped entry (_logs (mgr w))) (mgr w)
    | None => mgr w
    end.
Proof.
  intros Hen. unfold log_call, _log, appended_entry. rewrite Hen. cbn [negb].
  destruct (if truthy (call_data c) then _ else _) as [truncated|e]; [|reflexivity].
  rewrite notify_mgr. reflexivity.
Qed.

Lemma run_log_calls (cs : list LogCall) (w : World) :
  _isEnabled (mgr w) = true -> bounded w ->
  _isEnabled (mgr (run (List.map OpLog cs) w)) = true
  /\ getLogs (run (List.map OpLog cs) w)
     = firstn _maxLogs (rev (omap appended_entry cs) ++ getLogs w).
Proof.
  revert w. induction cs as [|c cs IH]; intros w Hen Hb.
  - split; [exact Hen|]. simpl. symmetry. apply firstn_all2, Hb.
  - cbn [List.map run perform].
    pose proof (log_call_mgr c w Hen) as Hmgr.
    pose proof (bounded_log (call_now c) (call_level c) (call_category c)
                  (call_message c) (call_data c) (call_trace c) w Hb) as Hb'.
    fold (log_call c) in Hb'.
    destruct (IH (fst (log_call c w))) as [Hen' Hlogs]; [|exact Hb'|].
    { rewrite Hmgr. destruct (appended_entry c); exact Hen. }
    split; [exact Hen'|]. rewrite Hlogs. unfold getLogs. rewrite Hmgr.
    change (omap appended_entry (c :: cs))
      with (match appended_entry c with
            | Some entry => entry :: omap appended_entry cs
            | None => omap appended_entry cs
            end).
    destruct (appended_entry c) as [entry|]; cbn [set_logs _logs].
    + rewrite unshift_capped_firstn by exact Hb.
      rewrite firstn_app_firstn. cbn [rev]. rewrite <- app_assoc. reflexivity.
    + reflexivity.
Qed.

(** C1: from any state the manager can reach, a sequence of [_log] calls
    made while capture is enabled leaves at most [_maxLogs] = 100 entries
    in the buffer, and [getLogs] returns the entries of these calls, the
    latest first, followed by the earlier content, cut at 100: each call
    puts its entry at the head, and the entry dropped on overflow is the
    last, the oldest. *)
Theorem retention_buffer_capped_most_recent_first :
  forall (h : Host) (t0 : Z) (ops : list Op) (cs : list LogCall),
    let w := run ops (fst (construct t0 h)) in
    _isEnabled (mgr w) = true ->
    let w' := run (List.map OpLog cs) w in
    _maxLogs = 100%nat
    /\ (length (getLogs w') <= _maxLogs)%nat
    /\ getLogs w' = firstn _maxLogs (rev (omap appended_entry cs) ++ getLogs w)
    /\ (forall c entry,
          appended_entry c = Some entry ->
          getLogs (fst (log_call c w')) = entry :: firstn (_maxLogs - 1) (getLogs w')).
Proof.
  intros h t0 ops cs w Hen w'.
  assert (Hb : bounded w) by apply bounded_run, bounded_construct.
  destruct (run_log_calls cs w Hen Hb) as [Hen' Hlogs]. fold w' in Hen', Hlogs.
  assert (Hb' : bounded w') by (apply bounded_run, Hb).
  split; [reflexivity|].
  split; [exact Hb'|].
  split; [exact Hlogs|].
  intros c entry Hc. unfold getLogs.
  rewrite (log_call_mgr c w' Hen'), Hc. cbn [set_logs _logs].
  apply unshift_capped_head, Hb'.
Qed.

(** Capture is enabled at instant 1, then 101 entries are logged at the
    instants 2 to 102: the buffer holds the 100 entries of the instants
    102 down to 3. *)
Lemma retention_buffer_capped_most_recent_first_witness :
  let h := pristine_host (fun _ => Throw (NonError 0)) in
  let cs := List.map (fun n => mkLogCall (Z.of_nat n) LInfo CUser (str "tick")
                                         JUndefined None) (seq 2 101) in
  let w' := run (List.map OpLog cs) (run [OpEnableDebug 1] (fst (construct 0 h))) in
  length (getLogs w') = 100%nat
  /\ List.map timestamp (getLogs w') = List.map Z.of_nat (rev (seq 3 100)).
Proof.
  intros h cs w'.
  destruct (retention_buffer_capped_most_recent_first h 0 [OpEnableDebug 1] cs)
    as (_ & _ & Hlogs & _); [reflexivity|].
  fold w' in Hlogs. rewrite Hlogs.
  split; vm_compute; reflexivity.
Defined.

(** ** Clearing the buffer *)

(** C10: right after [clearLogs] the buffer holds exactly one entry when
    capture is enabled, the info/system entry 'Logs cleared' appended
    after the clear, and is empty when capture is disabled. *)
Theorem clearLogs_leaves_one_entry_when_enabled :
  forall (now : Z) (w : World),
    getLogs (fst (clearLogs now w))
    = if _isEnabled (mgr w)
      then [ {| timestamp := now; level := LInfo; category := CSystem;
                message := str "Logs cleared"; data := JUndefined;
                trace := None |} ]
      else [].
Proof.
  intros now w. unfold clearLogs, bind, modify, _log, getLogs.
  cbn [mgr on_mgr set_logs _isEnabled].
  destruct (_isEnabled (mgr w)); cbn [negb fst truthy]; [|reflexivity].
  rewrite notify_mgr. reflexivity.
Qed.

(** ** Delivery to the listeners *)

Lemma handed_nil (entry : LogEntry) (w : World) : handed [] entry w = w.
Proof.
  destruct w as [h m]. destruct h. unfold handed, on_host, set_delivered.
  simpl. rewrite app_nil_r. reflexivity.
Qed.

Lemma handed_cons (l : Listener) (ls : list Listener) (entry : LogEntry) (w : World) :
  handed ls entry (handed [l] entry w) = handed (l :: ls) entry w.
Proof.
  destruct w as [h m]. destruct h. unfold handed, on_host, set_delivered.
  simpl. rewrite <- app_assoc. reflexivity.
Qed.

(** Listeners that return are all handed the entry. *)
Lemma notify_all (ls : list Listener) (entry : LogEntry) (w : World) :
  Forall (fun l => listener_run l entry = None) ls ->
  notify ls entry w = (handed ls entry w, Ok tt).
Proof.
  revert w. induction ls as [|l ls IH]; intros w Hq.
  - rewrite handed_nil. reflexivity.
  - inversion Hq as [|? ? Hl Hls]; subst. cbn [notify]. rewrite Hl.
    change (on_host _ w) with (handed [l] entry w).
    rewrite (IH _ Hls), handed_cons. reflexivity.
Qed.

(** The first listener that raises ends the delivery. *)
Lemma notify_stops (pre post : list Listener) (bad : Listener) (err : Thrown)
  (entry : LogEntry) (w : World) :
  Forall (fun l => listener_run l entry = None) pre ->
  listener_run bad entry = Some err ->
  notify (pre ++ bad :: post) entry w = (handed (pre ++ [bad]) entry w, Throw err).
Proof.
  revert w. induction pre as [|l pre IH]; intros w Hq Hbad.
  - cbn [app notify]. rewrite Hbad. reflexivity.
  - inversion Hq as [|? ? Hl Hpre]; subst. cbn [app notify]. rewrite Hl.
    change (on_host _ w) with (handed [l] entry w).
    rewrite (IH _ Hpre Hbad), handed_cons. reflexivity.
Qed.

(** A call of [_log] while capture is enabled, on a payload whose
    truncation returns: the entry is stored, then handed out. *)
Lemma log_call_enabled (c : LogCall) (entry : LogEntry) (w : World) :
  _isEnabled (mgr w) = true -> appended_entry c = Some entry ->
  log_call c w = notify (_listeners (mgr w)) entry (stored entry w).
Proof.
  intros Hen Hc. unfold log_call, _log, appended_entry in *. rewrite Hen. cbn [negb].
  destruct (if truthy (call_data c) then _ else _) as [truncated|e]; [|discriminate].
  inversion Hc; subst. reflexivity.
Qed.

(** C9, as stated, fails with two listeners of which the first raises:
    the second is never handed the entry, and the error leaves [_log]. *)
Lemma listener_failure_stops_delivery :
  let boom := JsError "Error" (str "listener failed") in
  let bad := {| listener_id := 1; listener_run := fun _ => Some boom |} in
  let good := {| listener_id := 2; listener_run := fun _ => None |} in
  let w := run [OpEnableDebug 1; OpAddListener bad; OpAddListener good]
               (fresh (fun _ => Throw (NonError 0))) in
  let c := mkLogCall 2 LInfo CUser (str "click") JUndefined None in
  let entry := make_entry 2 LInfo CUser (str "click") JUndefined None in
  List.map listener_id (_listeners (mgr w)) = [1; 2]%nat
  /\ snd (log_call c w) = Throw boom
  /\ delivered (host (fst (log_call c w))) = [(1%nat, entry)]
  /\ ~ In (2%nat, entry) (delivered (host (fst (log_call c w)))).
Proof.
  intros boom bad good w c entry.
  assert (Hd : delivered (host (fst (log_call c w))) = [(1%nat, entry)])
    by (vm_compute; reflexivity).
  split; [vm_compute; reflexivity|].
  split; [vm_compute; reflexivity|].
  split; [exact Hd|].
  rewrite Hd. intros [H|[]]. discriminate H.
Qed.

(** C9, amended: the entry is stored in the buffer first, then the
    listeners are called in the order of their registration; when one of
    them raises, the listeners before it have been handed the entry, those
    after it are not called, the error leaves [_log], and the buffer keeps
    the new entry at its head and stays within its capacity. *)
Theorem listener_failure_ends_delivery_after_store :
  forall (c : LogCall) (entry : LogEntry) (w : World)
         (pre post : list Listener) (bad : Listener) (err : Thrown),
    _isEnabled (mgr w) = true ->
    appended_entry c = Some entry ->
    _listeners (mgr w) = pre ++ bad :: post ->
    Forall (fun l => listener_run l entry = None) pre ->
    listener_run bad entry = Some err ->
    snd (log_call c w) = Throw err
    /\ delivered (host (fst (log_call c w)))
       = delivered (host w)
         ++ List.map (fun l => (listener_id l, entry)) (pre ++ [bad])
    /\ getLogs (fst (log_call c w)) = unshift_capped entry (getLogs w)
    /\ (bounded w ->
        getLogs (fst (log_call c w)) = entry :: firstn (_maxLogs - 1) (getLogs w)
        /\ bounded (fst (log_call c w))).
Proof.
  intros c entry w pre post bad err Hen Hc Hls Hpre Hbad.
  rewrite (log_call_enabled c entry w Hen Hc).
  change (_listeners (mgr (stored entry w))) with (_listeners (mgr w)).
  rewrite Hls, (notify_stops pre post bad err entry _ Hpre Hbad).
  split; [reflexivity|].
  split; [reflexivity|].
  split; [reflexivity|].
  intros Hb. split.
  - apply unshift_capped_head, Hb.
  - apply unshift_capped_length, Hb.
Qed.

(** Two listeners, the first of which raises, as in the counterexample. *)
Lemma listener_failure_ends_delivery_after_store_witness :
  let boom := JsError "Error" (str "listener failed") in
  let bad := {| listener_id := 1; listener_run := fun _ => Some boom |} in
  let good := {| listener_id := 2; listener_run := fun _ => None |} in
  let w := run [OpEnableDebug 1; OpAddListener bad; OpAddListener good]
               (fresh (fun _ => Throw (NonError 0))) in
  let c := mkLogCall 2 LInfo CUser (str "click") JUndefined None in
  let entry := make_entry 2 LInfo CUser (str "click") JUndefined None in
  snd (log_call c w) = Throw boom
  /\ List.map message (getLogs (fst (log_call c w)))
     = [str "click"; str "Debug Mode Enabled"].
Proof.
  intros boom bad good w c entry.
  destruct (listener_failure_ends_delivery_after_store
              c entry w [] [good] bad boom)
    as (Hthrow & _ & Hlogs & _);
    try reflexivity; [constructor|].
  split; [exact Hthrow|]. rewrite Hlogs. reflexivity.
Defined.

(** ** The network interceptor *)

Lemma logged_refl (w : World) : logged w w.
Proof. destruct w as [h m]. destruct h, m. split; reflexivity. Qed.

Lemma logged_trans (a b c : World) : logged a b -> logged b c -> logged a c.
Proof.
  intros [Hh1 Hm1] [Hh2 Hm2]. split.
  - rewrite Hh2, Hh1. reflexivity.
  - rewrite Hm2, Hm1. reflexivity.
Qed.

Lemma logged_handed_stored (ls : list Listener) (entry : LogEntry) (w : World) :
  logged w (handed ls entry (stored entry w)).
Proof. destruct w as [h m]. destruct h, m. split; reflexivity. Qed.

Lemma logged_calm (w w' : World) : logged w w' -> calm w -> calm w'.
Proof.
  intros [_ Hm] Hc. unfold calm in *. rewrite Hm. exact Hc.
Qed.

Lemma unshift_capped_hd (entry : LogEntry) (logs : list LogEntry) :
  hd_error (unshift_capped entry logs) = Some entry.
Proof. destruct logs as [|a logs]; unfold unshift_capped; simpl.
  - reflexivity.
  - destruct (_ <? _)%nat; reflexivity.
Qed.

(** In a calm world a call of [_log] on a serializable payload returns. *)
Lemma log_calm now lvl cat msg payload tr (w : World) :
  calm w -> serializable payload ->
  exists w',
    _log now lvl cat msg payload tr w = (w', Ok tt)
    /\ logged w w'
    /\ (_isEnabled (mgr w) = true ->
        exists entry,
          hd_error (getLogs w') = Some entry
          /\ timestamp entry = now /\ level entry = lvl
          /\ category entry = cat /\ message entry = firstn 1000 msg).
Proof.
  intros Hcalm Hser. unfold _log.
  destruct (_isEnabled (mgr w)) eqn:Hen; cbn [negb].
  - assert (Htr : exists truncated,
              (if truthy payload then truncateData payload _maxDataSize
               else Ok JUndefined) = Ok truncated).
    { destruct (truthy payload); [|eauto].
      destruct (TruncationFacts.truncateData_total payload Hser _maxDataSize)
        as [v' [Hv' _]]. eauto. }
    destruct Htr as [truncated Htr]. rewrite Htr.
    set (entry := make_entry now lvl cat msg truncated tr).
    change (on_mgr _ w) with (stored entry w).
    change (_listeners (mgr (stored entry w))) with (_listeners (mgr w)).
    rewrite notify_all.
    + eexists. split; [reflexivity|]. split; [apply logged_handed_stored|].
      intros _. exists entry. split; [apply unshift_capped_hd|].
      repeat split.
    + specialize (Hcalm Hen). eapply List.Forall_impl; [|exact Hcalm].
      intros l Hl. apply Hl.
  - exists w. split; [reflexivity|]. split; [apply logged_refl|]. discriminate.
Qed.

Lemma serializable_request (u m : JsString) :
  serializable (JObject [(str "url", JString u); (str "method", JString m)]).
Proof. eexists. reflexivity. Qed.

Lemma serializable_response (d : JsString) (st : Z) (t : JsString) :
  serializable (JObject [(str "duration", JString d); (str "status", JNumber st);
                         (str "statusText", JString t)]).
Proof. eexists. reflexivity. Qed.

Lemma serializable_failure (d e : JsString) :
  serializable (JObject [(str "duration", JString d); (str "error", JString e)]).
Proof. eexists. reflexivity. Qed.

Lemma logged_originalFetch (w w' : World) :
  logged w w' -> _originalFetch (mgr w') = _originalFetch (mgr w).
Proof. intros [_ Hm]. rewrite Hm. reflexivity. Qed.

Lemma logged_isEnabled (w w' : World) :
  logged w w' -> _isEnabled (mgr w') = _isEnabled (mgr w).
Proof. intros [_ Hm]. rewrite Hm. reflexivity. Qed.

Lemma logged_native_fetch (w w' : World) :
  logged w w' -> native_fetch (host w') = native_fetch (host w).
Proof. intros [Hh _]. rewrite Hh. reflexivity. Qed.

Lemma logged_network_calls (w w' : World) :
  logged w w' -> network_calls (host w') = network_calls (host w).
Proof. intros [Hh _]. rewrite Hh. reflexivity. Qed.

(** The world after the platform's [fetch] has been called with [args]. *)
Lemma called_calm (args : FetchArgs) (w : World) :
  calm w ->
  calm (on_host (fun h => set_network_calls (network_calls h ++ [args]) h) w).
Proof. intros H. exact H. Qed.

(** [_fetch] in a calm world whose saved original is the platform's
    [fetch]. *)
Lemma fetch_wrapper_calm depth started settled requestId args (w : World) :
  _originalFetch (mgr w) = Some NativeFetch ->
  calm w ->
  exists w',
    _fetch depth started settled requestId args w
    = (w', native_fetch (host w) args)
    /\ network_calls (host w') = network_calls (host w) ++ [args]
    /\ (_isEnabled (mgr w) = true ->
        exists entry,
          hd_error (getLogs w') = Some entry
          /\ timestamp entry = settled
          /\ category entry = CNetwork
          /\ match native_fetch (host w) args with
             | Ok _ =>
                 level entry = LInfo
                 /\ message entry
                    = firstn 1000 (str "API Response [" ++ requestId ++ str "]")
             | Throw _ =>
                 level entry = LError
                 /\ message entry
                    = firstn 1000 (str "API Error [" ++ requestId ++ str "]")
             end).
Proof.
  intros Horig Hcalm.
  assert (Hbody :
    _fetch depth started settled requestId args w
    = try_catch
        (_log started LInfo CNetwork (str "API Request [" ++ requestId ++ str "]")
              (JObject [(str "url", JString (url args));
                        (str "method",
                         JString (match method args with
                                  | Some (c :: m) => c :: m
                                  | _ => str "GET"
                                  end))]) None;;
         originalResponse <-
           (fun w0 =>
              match _originalFetch (mgr w0) with
              | None =>
                  (w0, Throw (JsError "TypeError"
                     (str "Cannot read properties of null (reading 'apply')")))
              | Some NativeFetch =>
                  (on_host (fun h => set_network_calls (network_calls h ++ [args]) h) w0,
                   native_fetch (host w0) args)
              | Some DebugFetch =>
                  match depth with
                  | O => (w0, Throw call_stack_exceeded)
                  | S depth' => _fetch depth' started settled requestId args w0
                  end
              end);;
         _log settled LInfo CNetwork (str "API Response [" ++ requestId ++ str "]")
              (JObject [(str "duration", JString (duration_text (settled - started)));
                        (str "status", JNumber (status originalResponse));
                        (str "statusText", JString (statusText originalResponse))])
              None;;
         ret originalResponse)
        (fun error =>
           _log settled LError CNetwork (str "API Error [" ++ requestId ++ str "]")
                (JObject [(str "duration", JString (duration_text (settled - started)));
                          (str "error",
                           JString (match error with
                                    | JsError _ msg => msg
                                    | NonError _ => str "An unknown error occurred"
                                    end))]) None;;
           throw error) w).
  { destruct depth; reflexivity. }
  rewrite Hbody. clear Hbody. unfold try_catch, bind.
  destruct (log_calm started LInfo CNetwork
              (str "API Request [" ++ requestId ++ str "]") _ None w Hcalm
              (serializable_request (url args)
                 (match method args with
                  | Some (c :: m) => c :: m
                  | _ => str "GET"
                  end)))
    as [w1 [Hlog1 [Hlogged1 _]]].
  rewrite Hlog1.
  rewrite (logged_originalFetch w w1 Hlogged1), Horig.
  rewrite (logged_native_fetch w w1 Hlogged1).
  set (w2 := on_host (fun h => set_network_calls (network_calls h ++ [args]) h) w1).
  assert (Hcalm2 : calm w2) by (apply called_calm, (logged_calm w w1); assumption).
  assert (Hcalls2 : network_calls (host w2) = network_calls (host w) ++ [args]).
  { unfold w2. cbn. rewrite (logged_network_calls w w1 Hlogged1). reflexivity. }
  assert (Hen2 : _isEnabled (mgr w2) = _isEnabled (mgr w))
    by apply (logged_isEnabled w w1 Hlogged1).
  destruct (native_fetch (host w) args) as [response|failure].
  - destruct (log_calm settled LInfo CNetwork
                (str "API Response [" ++ requestId ++ str "]") _ None w2 Hcalm2
                (serializable_response (duration_text (settled - started))
                   (status response) (statusText response)))
      as [w3 [Hlog3 [Hlogged3 Hhead]]].
    rewrite Hlog3. exists w3. split; [reflexivity|]. split.
    + rewrite (logged_network_calls w2 w3 Hlogged3). exact Hcalls2.
    + intros Hen. rewrite <- Hen2 in Hen.
      destruct (Hhead Hen) as [entry (Hhd & Hts & Hlvl & Hcat & Hmsg)].
      exists entry. repeat split; assumption.
  - destruct (log_calm settled LError CNetwork
                (str "API Error [" ++ requestId ++ str "]") _ None w2 Hcalm2
                (serializable_failure (duration_text (settled - started))
                   (match failure with
                    | JsError _ msg => msg
                    | NonError _ => str "An unknown error occurred"
                    end)))
      as [w3 [Hlog3 [Hlogged3 Hhead]]].
    rewrite Hlog3. exists w3. split; [reflexivity|]. split.
    + rewrite (logged_network_calls w2 w3 Hlogged3). exact Hcalls2.
    + intros Hen. rewrite <- Hen2 in Hen.
      destruct (Hhead Hen) as [entry (Hhd & Hts & Hlvl & Hcat & Hmsg)].
      exists entry. repeat split; assumption.
Qed.

(** C8, as stated, fails when a registered listener raises.  With a
    listener that always raises, a request the platform would answer is
    never sent and the caller receives the listener's error; with a
    listener that raises on error entries only, a network failure reaches
    the caller as the listener's error, not as the original one. *)
Lemma fetch_wrapper_masks_outcome_when_listener_raises :
  let boom := JsError "Error" (str "listener failed") in
  let offline := JsError "TypeError" (str "Failed to fetch") in
  let response := mkResponse 200 (str "OK") 7 in
  let args := mkFetchArgs (str "/api/chat") (Some (str "POST")) in
  let always := {| listener_id := 1; listener_run := fun _ => Some boom |} in
  let on_errors :=
    {| listener_id := 1;
       listener_run := fun entry =>
         match level entry with LError => Some boom | _ => None end |} in
  let w1 := run [OpEnableDebug 1; OpAddListener always] (fresh (fun _ => Ok response)) in
  let w2 := run [OpEnableDebug 1; OpAddListener on_errors] (fresh (fun _ => Throw offline)) in
  (window_fetch (host w1) = DebugFetch
   /\ native_fetch (host w1) args = Ok response
   /\ snd (fetch 0 2 3 (str "k3x") args w1) = Throw boom
   /\ network_calls (host (fst (fetch 0 2 3 (str "k3x") args w1))) = [])
  /\ (window_fetch (host w2) = DebugFetch
      /\ native_fetch (host w2) args = Throw offline
      /\ snd (fetch 0 2 3 (str "k3x") args w2) = Throw boom
      /\ boom <> offline).
Proof.
  intros boom offline response args always on_errors w1 w2.
  repeat split; try (vm_compute; reflexivity).
  discriminate.
Qed.

(** C8, amended: when the wrapper's saved original is the platform's
    [fetch] and, while capture is enabled, every registered listener
    returns, the wrapper calls the platform's [fetch] once with the
    caller's arguments and hands its outcome to the caller unchanged: the
    response it returned, or the error it raised, re-raised after an
    error/network entry has been put at the head of the buffer. *)
Theorem fetch_wrapper_forwards_outcome :
  forall (depth : nat) (started settled : Z) (requestId : JsString)
         (args : FetchArgs) (w : World),
    _originalFetch (mgr w) = Some NativeFetch ->
    (_isEnabled (mgr w) = true ->
     Forall (fun l => forall entry, listener_run l entry = None) (_listeners (mgr w))) ->
    let result := _fetch depth started settled requestId args w in
    snd result = native_fetch (host w) args
    /\ network_calls (host (fst result)) = network_calls (host w) ++ [args]
    /\ (_isEnabled (mgr w) = true ->
        exists entry,
          hd_error (getLogs (fst result)) = Some entry
          /\ timestamp entry = settled
          /\ category entry = CNetwork
          /\ match native_fetch (host w) args with
             | Ok _ =>
                 level entry = LInfo
                 /\ message entry
                    = firstn 1000 (str "API Response [" ++ requestId ++ str "]")
             | Throw _ =>
                 level entry = LError
                 /\ message entry
                    = firstn 1000 (str "API Error [" ++ requestId ++ str "]")
             end).
Proof.
  intros depth started settled requestId args w Horig Hcalm result.
  destruct (fetch_wrapper_calm depth started settled requestId args w Horig Hcalm)
    as [w' [Hrun [Hcalls Hentry]]].
  subst result. rewrite Hrun. cbn [fst snd]. auto.
Qed.

(** A failing request in a world with one listener that returns. *)
Lemma fetch_wrapper_forwards_outcome_witness :
  let offline := JsError "TypeError" (str "Failed to fetch") in
  let args := mkFetchArgs (str "/api/chat") (Some (str "POST")) in
  let good := {| listener_id := 1; listener_run := fun _ => None |} in
  let w := run [OpEnableDebug 1; OpAddListener good] (fresh (fun _ => Throw offline)) in
  snd (_fetch 0 2 3 (str "k3x") args w) = Throw offline
  /\ network_calls (host (fst (_fetch 0 2 3 (str "k3x") args w))) = [args].
Proof.
  intros offline args good w.
  destruct (fetch_wrapper_forwards_outcome 0 2 3 (str "k3x") args w)
    as (Hout & Hcalls & _).
  - reflexivity.
  - intros _. constructor; [intros entry; reflexivity | constructor].
  - split; [exact Hout | exact Hcalls].
Defined.

(** ** Enabling and disabling *)

Lemma call_setItem_disabled impl now key value (w : World) :
  _isEnabled (mgr w) = false ->
  call_setItem impl now key value w
  = (on_host (fun h => set_items (store_item key value (localStorage_items h)) h) w,
     Ok tt).
Proof.
  intros Hoff. induction impl as [|original IH|]; cbn [call_setItem];
    [reflexivity| |reflexivity].
  unfold bind. rewrite (log_disabled _ _ _ _ _ _ w Hoff). exact IH.
Qed.

(** [disableDebug] always returns; in a browser it leaves capture disabled
    and the buffer empty, and it touches neither [localStorage.setItem],
    nor the cookie setter, nor the scheduled timers. *)
Lemma disableDebug_effect (now : Z) (w : World) :
  let w' := fst (disableDebug now w) in
  snd (disableDebug now w) = Ok tt
  /\ localStorage_setItem (host w') = localStorage_setItem (host w)
  /\ document_cookie (host w') = document_cookie (host w)
  /\ intervals (host w') = intervals (host w)
  /\ next_interval (host w') = next_interval (host w)
  /\ _cleanupInterval (mgr w') = _cleanupInterval (mgr w)
  /\ _listeners (mgr w') = _listeners (mgr w)
  /\ isClient (host w') = isClient (host w)
  /\ (isClient (host w) = true ->
      getLogs w' = [] /\ _isEnabled (mgr w') = false).
Proof.
  unfold disableDebug.
  destruct (isClient (host w)) eqn:Hclient; cbn [negb];
    [|repeat split; try discriminate; exact Hclient].
  unfold bind, modify, localStorage_setItem_call.
  cbn [host on_mgr].
  rewrite call_setItem_disabled by reflexivity.
  unfold _teardownDebugMode. cbn [host on_host on_mgr isClient set_items].
  rewrite Hclient. cbn [negb].
  unfold bind, _restoreNetworkCalls, _restoreConsole, _removeErrorListeners, modify.
  cbn [mgr on_host on_mgr set_isEnabled _originalFetch].
  destruct (_originalFetch (mgr w)); cbn; rewrite Hclient; cbn; repeat split;
    exact Hclient.
Qed.

Lemma touched_refl (w : World) : touched w w.
Proof.
  exists (localStorage_items (host w)), (delivered (host w)), (_logs (mgr w)).
  destruct w as [h m]. destruct h, m. split; reflexivity.
Qed.

Lemma touched_trans (a b c : World) : touched a b -> touched b c -> touched a c.
Proof.
  intros (i1 & d1 & l1 & Hh1 & Hm1) (i2 & d2 & l2 & Hh2 & Hm2).
  exists i2, d2, l2. rewrite Hh2, Hm2, Hh1, Hm1.
  destruct a as [h m]. destruct h, m. split; reflexivity.
Qed.

Lemma logged_touched (w w' : World) : logged w w' -> touched w w'.
Proof.
  intros [Hh Hm].
  exists (localStorage_items (host w)), (delivered (host w')), (_logs (mgr w')).
  rewrite Hm. split; [|reflexivity]. rewrite Hh at 1.
  destruct w as [h m]. destruct h. reflexivity.
Qed.

Lemma touched_peaceful (w w' : World) : touched w w' -> peaceful w -> peaceful w'.
Proof.
  intros (i & d & l & _ & Hm) Hp. unfold peaceful in *. rewrite Hm. exact Hp.
Qed.

Lemma log_peaceful now lvl cat msg payload tr (w : World) :
  peaceful w -> serializable payload ->
  exists w', _log now lvl cat msg payload tr w = (w', Ok tt) /\ touched w w'.
Proof.
  intros Hp Hser.
  destruct (log_calm now lvl cat msg payload tr w (fun _ => Hp) Hser)
    as [w' [Hrun [Hlogged _]]].
  exists w'. split; [exact Hrun | apply logged_touched, Hlogged].
Qed.

Lemma serializable_storage_update (key value : JsString) :
  serializable (JObject [(str "key", JString key); (str "value", JString value)]).
Proof. eexists. reflexivity. Qed.

(** Among listeners that return, a call of [localStorage.setItem]
    returns, through however many wrappers. *)
Lemma call_setItem_peaceful impl now key value (w : World) :
  peaceful w ->
  exists w', call_setItem impl now key value w = (w', Ok tt) /\ touched w w'.
Proof.
  assert (Hstore : forall w : World,
    exists w', modify (on_host (fun h =>
                 set_items (store_item key value (localStorage_items h)) h)) w
               = (w', Ok tt) /\ touched w w').
  { intros w0. eexists. split; [reflexivity|].
    exists (store_item key value (localStorage_items (host w0))),
           (delivered (host w0)), (_logs (mgr w0)).
    destruct w0 as [h m]. destruct h, m. split; reflexivity. }
  revert w. induction impl as [|original IH|]; intros w Hp; cbn [call_setItem].
  - apply Hstore.
  - unfold bind.
    destruct (log_peaceful now LInfo CState (str "LocalStorage Update") _ None w Hp
                (serializable_storage_update key value)) as [w1 [Hlog T1]].
    rewrite Hlog.
    destruct (IH w1 (touched_peaceful w w1 T1 Hp)) as [w2 [Hcall T2]].
    exists w2. split; [exact Hcall | eapply touched_trans; eassumption].
  - apply Hstore.
Qed.

Lemma serializable_enabled_notice (now : Z) (ua : JsString) :
  serializable (JObject [(str "timestamp", JString (toISOString now));
                         (str "userAgent", JString ua)]).
Proof. eexists. reflexivity. Qed.

(** *** Statements that return *)

Lemma returning_bind {A B} (P R Q : World -> Prop) (c : M A) (k : A -> M B) :
  returning P c R -> (forall a, returning R (k a) Q) -> returning P (bind c k) Q.
Proof.
  intros Hc Hk w Hw. destruct (Hc w Hw) as (w1 & a & Hrun & Hw1).
  destruct (Hk a w1 Hw1) as (w2 & b & Hrun2 & Hw2).
  exists w2, b. unfold bind. rewrite Hrun. auto.
Qed.

Lemma returning_modify (P Q : World -> Prop) (f : World -> World) :
  (forall w, P w -> Q (f w)) -> returning P (modify f) Q.
Proof. intros H w Hw. exists (f w), tt. split; [reflexivity | apply H, Hw]. Qed.

Lemma settled_touched en timers next (w w' : World) :
  touched w w' -> settled en timers next w ->
  settled en timers next w'.
Proof.
  intros (i & d & l & Hh & Hm) (Hp & Hc & Ht & Hn & He).
  unfold settled, peaceful in *. rewrite Hh, Hm.
  destruct w as [h m]. destruct h, m. cbn in *. repeat split; assumption.
Qed.

Lemma returning_log en timers next now lvl cat msg payload tr :
  serializable payload ->
  returning (settled en timers next)
            (_log now lvl cat msg payload tr)
            (settled en timers next).
Proof.
  intros Hser w Hw.
  destruct (log_peaceful now lvl cat msg payload tr w (proj1 Hw) Hser)
    as [w' [Hrun Ht]].
  exists w', tt. split; [exact Hrun|]. eapply settled_touched; eassumption.
Qed.

Lemma returning_setItem_call en timers next now key value :
  returning (settled en timers next)
            (localStorage_setItem_call now key value)
            (settled en timers next).
Proof.
  intros w Hw. unfold localStorage_setItem_call.
  destruct (call_setItem_peaceful (localStorage_setItem (host w)) now key value w
              (proj1 Hw)) as [w' [Hrun Ht]].
  exists w', tt. split; [exact Hrun|]. eapply settled_touched; eassumption.
Qed.

Lemma returning_setupDebugMode en timers next now :
  returning (settled en timers next)
            (_setupDebugMode now)
            (settled en timers next).
Proof.
  intros w Hw. unfold _setupDebugMode.
  rewrite (proj1 (proj2 Hw)). cbn [negb]. revert w Hw.
  apply (returning_bind _ (settled en timers next)).
  { intros w (Hp & Hc & Ht & Hn & He). unfold _interceptNetworkCalls.
    rewrite Hc. cbn [negb]. eexists. exists tt. split; [reflexivity|].
    destruct w as [h m]. destruct h, m. repeat split; assumption. }
  intros _. apply (returning_bind _ (settled en timers next)).
  { apply returning_modify. intros w (Hp & Hc & Ht & Hn & He).
    destruct w as [h m]. destruct h, m. repeat split; assumption. }
  intros _. apply (returning_bind _ (settled en timers next)).
  { intros w (Hp & Hc & Ht & Hn & He). unfold _setupErrorListeners.
    rewrite Hc. cbn [negb]. eexists. exists tt. split; [reflexivity|].
    destruct w as [h m]. destruct h, m. repeat split; assumption. }
  intros _. unfold _monitorStateChanges.
  apply (returning_bind _ (settled en timers next)).
  { apply returning_modify. intros w (Hp & Hc & Ht & Hn & He).
    destruct w as [h m]. unfold on_host, assign_setItem. cbn [host mgr].
    destruct (localStorage_setItem h); destruct h, m; repeat split; assumption. }
  intros _ w Hw. destruct (cookie_descriptor_throws (host w)).
  - apply returning_log; [eexists; reflexivity | exact Hw].
  - eexists. exists tt. split; [reflexivity|].
    destruct Hw as (Hp & Hc & Ht & Hn & He).
    destruct w as [h m]. destruct h, m. repeat split; assumption.
Qed.

(** Among listeners that return, [enableDebug] in a browser runs to its
    end and schedules one more timer. *)
Lemma enableDebug_settled en timers next now :
  returning (settled en timers next)
            (enableDebug now)
            (settled true (timers ++ [next]) (S next)).
Proof.
  intros w Hw. unfold enableDebug.
  rewrite (proj1 (proj2 Hw)). cbn [negb].
  generalize (userAgent (host w)). intros ua. revert w Hw.
  apply (returning_bind _ (settled true timers next)).
  { apply returning_modify. intros w (Hp & Hc & Ht & Hn & He).
    destruct w as [h m]. destruct h, m. repeat split; assumption. }
  intros _. apply (returning_bind _ (settled true timers next)).
  { apply returning_setItem_call. }
  intros _. apply (returning_bind _ (settled true timers next)).
  { apply returning_setupDebugMode. }
  intros _.
  apply (returning_bind _ (settled true (timers ++ [next]) (S next))).
  { intros w (Hp & Hc & Ht & Hn & He). unfold setInterval.
    eexists. eexists. split; [reflexivity|].
    destruct w as [h m]. destruct h, m. cbn in *. subst. repeat split; assumption. }
  intros id. apply (returning_bind _ (settled true (timers ++ [next]) (S next))).
  { apply returning_modify. intros w (Hp & Hc & Ht & Hn & He).
    destruct w as [h m]. destruct h, m. repeat split; assumption. }
  intros _. apply returning_log. apply serializable_enabled_notice.
Qed.

Lemma disableDebug_settled en timers next now :
  returning (settled en timers next)
            (disableDebug now)
            (settled false timers next).
Proof.
  intros w Hw.
  pose proof (disableDebug_effect now w) as Heff. cbn zeta in Heff.
  destruct (disableDebug now w) as [w' r]. cbn [fst snd] in Heff.
  destruct Heff as (Hr & Hs' & _ & Ht' & Hn' & _ & Hl' & Hc' & Hoff).
  destruct Hw as (Hp & Hc & Ht & Hn & He).
  exists w', tt. subst r. split; [reflexivity|].
  unfold settled, peaceful. rewrite Hl', Hc', Ht', Hn'.
  destruct (Hoff Hc) as [_ Hen]. repeat split; assumption.
Qed.

(** Enable/disable cycles among listeners that return: each cycle adds a
    scheduled timer, and none is ever taken away. *)
Lemma run_cycles_settled (instants : list (Z * Z)) :
  forall en timers next w,
    settled en timers next w ->
    exists en',
      settled en'
              (timers ++ seq next (length instants))
              (next + length instants)%nat
              (run (cycles instants) w).
Proof.
  induction instants as [|[t_on t_off] instants IH]; intros en timers next w Hw.
  - exists en. cbn. rewrite app_nil_r, Nat.add_0_r. exact Hw.
  - cbn [cycles flat_map app run perform].
    destruct (enableDebug_settled en timers next t_on w Hw)
      as (w1 & [] & Hrun1 & Hw1).
    rewrite Hrun1. cbn [fst].
    destruct (disableDebug_settled _ _ _ t_off w1 Hw1) as (w2 & [] & Hrun2 & Hw2).
    rewrite Hrun2. cbn [fst].
    destruct (IH _ _ _ w2 Hw2) as [en' Hfinal].
    exists en'. fold (cycles instants).
    cbn [length seq].
    rewrite <- app_assoc in Hfinal. cbn [app] in Hfinal.
    replace (next + S (length instants))%nat with (S next + length instants)%nat by lia.
    exact Hfinal.
Qed.

Lemma fresh_settled (fetch_result : FetchArgs -> Result Response) :
  settled false [] 1 (fresh fetch_result).
Proof. repeat split. constructor. Qed.

(** C7: at the input enable, disable.  The buffer is empty and capture is
    off, but the timer started by [enableDebug] is still scheduled, its
    handle still held in [_cleanupInterval]; [localStorage.setItem],
    assignable on this host, and the cookie setter are still wrapped;
    enabling again schedules a second timer next to the first.  In
    general, after n enable/disable cycles n timers are scheduled. *)
Theorem disableDebug_leaves_timer_scheduled :
  forall (fetch_result : FetchArgs -> Result Response),
    let w1 := run [OpEnableDebug 1] (fresh fetch_result) in
    let w2 := run [OpDisableDebug 2] w1 in
    let w3 := run [OpEnableDebug 3] w2 in
    ((intervals (host w1) = [1%nat] /\ _cleanupInterval (mgr w1) = Some 1%nat
      /\ List.map message (getLogs w1) = [str "Debug Mode Enabled"])
     /\ (getLogs w2 = [] /\ _isEnabled (mgr w2) = false
         /\ window_fetch (host w2) = NativeFetch)
     /\ (intervals (host w2) = [1%nat] /\ _cleanupInterval (mgr w2) = Some 1%nat)
     /\ (localStorage_setItem (host w2) = DebugSetItem NativeSetItem
         /\ document_cookie (host w2) = DebugCookieSetter)
     /\ intervals (host w3) = [1%nat; 2%nat])
    /\ forall instants,
         intervals (host (run (cycles instants) (fresh fetch_result)))
         = seq 1 (length instants).
Proof.
  intros fetch_result w1 w2 w3. split.
  - vm_compute. repeat split.
  - intros instants.
    destruct (run_cycles_settled instants _ _ _ (fresh fetch_result)
                (fresh_settled fetch_result))
      as [en' (_ & _ & Ht & _)].
    rewrite Ht. reflexivity.
Qed.

End DebugFacts.

(* ===================================================================== *)
(** * Further properties of the usage ledger                              *)
(* ===================================================================== *)

Module UsageMore.

Import TokenUsage UsageFacts.

Lemma total_insert_fresh (m : gmap string Z) (p : string) (limit : Z) :
  m !! p = None ->
  map_fold (fun _ l sum => sum + l) 0 (<[p := limit]> m)
  = map_fold (fun _ l sum => sum + l) 0 m + limit.
Proof.
  intros Hp.
  rewrite map_fold_insert_L;
    [reflexivity | intros; cbn; lia | exact Hp].
Qed.

Lemma total_insert (m : gmap string Z) (p : string) (limit : Z) :
  map_fold (fun _ l sum => sum + l) 0 (<[p := limit]> m)
  = map_fold (fun _ l sum => sum + l) 0 m - default 0 (m !! p) + limit.
Proof.
  destruct (m !! p) as [old|] eqn:Hp; cbn [default].
  - rewrite <- (insert_delete_eq m p limit).
    rewrite total_insert_fresh by apply lookup_delete_eq.
    rewrite (map_fold_delete_L _ 0 p old m);
      [cbn beta; unfold id; lia | intros; cbn; lia | exact Hp].
  - rewrite total_insert_fresh by exact Hp. lia.
Qed.

Lemma setTokenLimit_store now p limit c :
  tokenUsageStore (setTokenLimit now p limit c)
  = {| usageData := usageData (tokenUsageStore c);
       limits := <[p := limit]> (limits (tokenUsageStore c)) |}.
Proof. destruct c as [st ck [|] [|] ws]; reflexivity. Qed.

(** X1: [setTokenLimit] overwrites the limit of one provider: the limits of
    the others and the ledger stay as they are, the total of
    [getUsageStats] moves by the difference to the previous limit of that
    provider, a second call for the same provider replaces the first, and
    in a browser whose cookie write succeeds the new state is what the
    cookie holds. *)
Theorem setTokenLimit_overwrites_one_limit :
  forall (now : Z) (p : string) (limit : Z) (c : Client),
    let before := tokenUsageStore c in
    let after := tokenUsageStore (setTokenLimit now p limit c) in
    limits after !! p = Some limit
    /\ (forall q, q <> p -> limits after !! q = limits before !! q)
    /\ usageData after = usageData before
    /\ totalAvailable after
       = totalAvailable before - default 0 (limits before !! p) + limit
    /\ (forall later limit',
          tokenUsageStore (setTokenLimit later p limit' (setTokenLimit now p limit c))
          = tokenUsageStore (setTokenLimit later p limit' c))
    /\ (isClient c = true -> cookies_set_throws c = false ->
        cookie (setTokenLimit now p limit c) = Some (after, now + 30 * day_ms)).
Proof.
  intros now p limit c before after. subst before after.
  rewrite !setTokenLimit_store. cbn [limits usageData].
  split; [apply lookup_insert_eq|].
  split; [intros q Hq; apply lookup_insert_ne; congruence|].
  split; [reflexivity|].
  split; [unfold totalAvailable; cbn [limits]; apply total_insert|].
  split.
  - intros later limit'. rewrite !setTokenLimit_store. cbn [limits usageData].
    rewrite insert_insert_eq. reflexivity.
  - intros Hclient Hwrite.
    destruct c as [st ck cl th ws]; simpl in Hclient, Hwrite; subst cl th.
    reflexivity.
Qed.

(** A browser in which the limit of provider A goes from 1000 to 4000. *)
Lemma setTokenLimit_overwrites_one_limit_witness :
  let c := {| tokenUsageStore :=
                {| usageData := [];
                   limits := {["A" := 1000; "B" := 500]} |};
              cookie := None; isClient := true; cookies_set_throws := false;
              warnings := [] |} in
  totalAvailable (tokenUsageStore (setTokenLimit 7 "A" 4000 c)) = 4500
  /\ cookie (setTokenLimit 7 "A" 4000 c)
     = Some (tokenUsageStore (setTokenLimit 7 "A" 4000 c), 7 + 30 * day_ms).
Proof.
  intros c.
  destruct (setTokenLimit_overwrites_one_limit 7 "A" 4000 c)
    as (_ & _ & _ & Htotal & _ & Hcookie).
  split.
  - rewrite Htotal. vm_compute. reflexivity.
  - apply Hcookie; reflexivity.
Defined.

(** ** The breakdown by provider *)

Lemma sumTokens_cons (d : TokenUsageData) (l : list TokenUsageData) :
  sumTokens (d :: l) = totalTokens d + sumTokens l.
Proof. rewrite !sumTokens_sum. reflexivity. Qed.

Lemma bump_total (acc : list (string * Z)) (p : string) (n : Z) :
  fold_right Z.add 0 (List.map snd (bump_own acc p n))
  = fold_right Z.add 0 (List.map snd acc) + n.
Proof.
  induction acc as [|[k v] acc IH]; simpl; [lia|].
  destruct (String.eqb k p); simpl; lia.
Qed.

Lemma providerUsage_total (l : list TokenUsageData) :
  fold_right Z.add 0 (List.map snd (providerUsage l)) = sumTokens (counted l).
Proof.
  rewrite providerUsage_counted. generalize (counted l). clear l. intros l.
  assert (Hgen : forall acc,
            fold_right Z.add 0
              (List.map snd
                 (fold_left (fun acc d => bump_own acc (provider d) (totalTokens d)) l acc))
            = fold_right Z.add 0 (List.map snd acc) + sumTokens l).
  { induction l as [|d l IH]; intros acc.
    - unfold sumTokens. simpl. lia.
    - cbn [fold_left]. rewrite IH, bump_total, sumTokens_cons. lia. }
  rewrite Hgen. simpl. lia.
Qed.

Lemma sumTokens_nonneg (l : list TokenUsageData) :
  Forall (fun d => 0 <= totalTokens d) l -> 0 <= sumTokens l.
Proof.
  induction 1 as [|d l Hd _ IH]; [unfold sumTokens; simpl; lia|].
  rewrite sumTokens_cons. lia.
Qed.

Lemma sumTokens_filter_le (p : TokenUsageData -> bool) (l : list TokenUsageData) :
  Forall (fun d => 0 <= totalTokens d) l ->
  0 <= sumTokens (List.filter p l) <= sumTokens l.
Proof.
  induction 1 as [|d l Hd _ IH]; [unfold sumTokens; simpl; lia|].
  cbn [List.filter]. destruct (p d); rewrite ?sumTokens_cons; lia.
Qed.

Lemma Forall_filter_tokens (p : TokenUsageData -> bool) (l : list TokenUsageData) :
  Forall (fun d => 0 <= totalTokens d) l ->
  Forall (fun d => 0 <= totalTokens d) (List.filter p l).
Proof.
  rewrite !List.Forall_forall. intros H d Hd. apply filter_In in Hd. apply H, Hd.
Qed.

(** X2: When no provider of the window bears a name that [{}] inherits, the
    breakdown of [getUsageStats] accounts for all the tokens of the
    window: the usages of its rows add up to [used].  When, in addition,
    no event has a negative token count, each row lies between 0 and
    [used] and each percentage between 0 and 100; the row of a provider
    that accounts for all of a positive [used] shows exactly 100. *)
Theorem providerBreakdown_accounts_for_all_usage :
  forall (now : Z) (w : TimeRange) (st : TokenUsageStore),
    let r := getUsageStats now w st in
    Forall (fun d => own_name (provider d) = true) (filteredData now w st) ->
    fold_right Z.add 0 (List.map usage (providerBreakdown r)) = used r
    /\ (Forall (fun d => 0 <= totalTokens d) (usageData st) ->
        0 <= used r
        /\ Forall (fun sh => 0 <= usage sh <= used r
                             /\ (Q2Qc 0 <= percentage sh)%Qc
                             /\ (percentage sh <= Q2Qc (inject_Z 100))%Qc
                             /\ (0 < used r -> usage sh = used r ->
                                 percentage sh = Q2Qc (inject_Z 100)))
                  (providerBreakdown r)).
Proof.
  intros now w st r Hown.
  assert (Hsum : fold_right Z.add 0 (List.map usage (providerBreakdown r)) = used r).
  { subst r. unfold getUsageStats. cbn [providerBreakdown used].
    rewrite List.map_map.
    rewrite <- (own_name_counted _ Hown) at 2.
    rewrite <- (providerUsage_total (filteredData now w st)).
    rewrite <- Object_entries_total.
    f_equal. apply List.map_ext. intros [n u]. reflexivity. }
  split; [exact Hsum|].
  intros Hnonneg.
  assert (Hin : Forall (fun d => 0 <= totalTokens d) (filteredData now w st))
    by apply Forall_filter_tokens, Hnonneg.
  assert (Hused : 0 <= used r) by apply sumTokens_nonneg, Hin.
  split; [exact Hused|].
  apply List.Forall_forall. intros sh Hsh.
  apply providerBreakdown_In in Hsh as (_ & _ & Hu & Hp).
  assert (Hrange : 0 <= usage sh <= used r).
  { rewrite Hu. unfold tokensOf. apply sumTokens_filter_le, Hin. }
  split; [exact Hrange|].
  rewrite Hp.
  change (sumTokens (filteredData now w st)) with (used r).
  destruct (share_facts (usage sh) (used r)) as (Hzero & _ & Hall & Hbetween & _).
  destruct (Z.ltb_spec 0 (used r)) as [Hpos|Hle].
  - destruct (Hbetween Hpos Hrange) as [Hlow Hhigh].
    split; [exact Hlow|]. split; [exact Hhigh | exact Hall].
  - rewrite (Hzero Hle).
    split; [apply Qcle_refl|]. split; [apply (Q2Qc_le 0 100); lia | lia].
Qed.

(** Two providers sharing 400 tokens 3 to 1. *)
Lemma providerBreakdown_accounts_for_all_usage_witness :
  let st := {| usageData := [mkUsage "A" "m" 100 200 300 5; mkUsage "B" "m" 60 40 100 6];
               limits := ∅ |} in
  List.map usage (providerBreakdown (getUsageStats 10 All st)) = [300; 100]
  /\ fold_right Z.add 0 (List.map usage (providerBreakdown (getUsageStats 10 All st)))
     = 400.
Proof.
  intros st.
  destruct (providerBreakdown_accounts_for_all_usage 10 All st) as [Hsum _].
  - repeat constructor.
  - split; [vm_compute; reflexivity|]. rewrite Hsum. reflexivity.
Defined.

(** ** Windows *)

Lemma filter_filter_weaker {A} (p q : A -> bool) (l : list A) :
  (forall a, p a = true -> q a = true) ->
  List.filter p (List.filter q l) = List.filter p l.
Proof.
  intros Hpq. induction l as [|a l IH]; [reflexivity|].
  cbn [List.filter]. destruct (q a) eqn:Hq; cbn [List.filter].
  - rewrite IH. reflexivity.
  - destruct (p a) eqn:Hp; [|exact IH]. rewrite (Hpq a Hp) in Hq. discriminate.
Qed.

Lemma sumTokens_filter_mono (p q : TokenUsageData -> bool) (l : list TokenUsageData) :
  (forall d, In d l -> p d = true -> q d = true) ->
  Forall (fun d => 0 <= totalTokens d) l ->
  sumTokens (List.filter p l) <= sumTokens (List.filter q l).
Proof.
  intros Hpq Hl. induction Hl as [|d l Hd Hl IH]; [apply Z.le_refl|].
  assert (IH' : sumTokens (List.filter p l) <= sumTokens (List.filter q l))
    by (apply IH; intros d' Hd'; apply Hpq; right; exact Hd').
  specialize (Hpq d (or_introl eq_refl)).
  cbn [List.filter]. pose proof (sumTokens_filter_le q l Hl) as Hq.
  destruct (p d), (q d); rewrite ?sumTokens_cons; try lia;
    specialize (Hpq eq_refl); discriminate.
Qed.

(** X3: The windows nest: whatever the instant of the query, a ledger without
    negative token counts shows no more usage over 24 hours than over 7
    days, no more over 7 days than over 30, and, its events being stamped
    at or after the epoch, no more over 30 days than over all time; the
    total against which usage is measured is the same in each. *)
Theorem usage_grows_with_the_window :
  forall (now : Z) (st : TokenUsageStore),
    Forall (fun d => 0 <= totalTokens d /\ 0 <= timestamp d) (usageData st) ->
    used (getUsageStats now H24 st) <= used (getUsageStats now D7 st)
    /\ used (getUsageStats now D7 st) <= used (getUsageStats now D30 st)
    /\ used (getUsageStats now D30 st) <= used (getUsageStats now All st)
    /\ used (getUsageStats now All st) = sumTokens (usageData st)
    /\ remaining (getUsageStats now All st) <= remaining (getUsageStats now H24 st).
Proof.
  intros now st Hst.
  assert (Htok : Forall (fun d => 0 <= totalTokens d) (usageData st))
    by (eapply List.Forall_impl; [|exact Hst]; intros d Hd; apply Hd).
  assert (Hts : forall d, In d (usageData st) -> 0 <= timestamp d).
  { intros d Hd. rewrite List.Forall_forall in Hst. apply Hst, Hd. }
  assert (H1 : used (getUsageStats now H24 st) <= used (getUsageStats now D7 st)).
  { apply sumTokens_filter_mono; [|exact Htok].
    intros d _. cbn [cutoffTime]. rewrite !Z.leb_le. lia. }
  assert (H2 : used (getUsageStats now D7 st) <= used (getUsageStats now D30 st)).
  { apply sumTokens_filter_mono; [|exact Htok].
    intros d _. cbn [cutoffTime]. rewrite !Z.leb_le. lia. }
  assert (H3 : used (getUsageStats now D30 st) <= used (getUsageStats now All st)).
  { apply sumTokens_filter_mono; [|exact Htok].
    intros d Hd _. cbn [cutoffTime]. apply Z.leb_le, Hts, Hd. }
  assert (H4 : used (getUsageStats now All st) = sumTokens (usageData st)).
  { unfold getUsageStats, filteredData. cbn [used cutoffTime]. f_equal.
    apply forallb_filter_id, forallb_forall. intros d Hd. apply Z.leb_le, Hts, Hd. }
  repeat split; try assumption.
  unfold getUsageStats in *. cbn [remaining used] in *. lia.
Qed.

(** A ledger with one event 2 days old and one of the last hour. *)
Lemma usage_grows_with_the_window_witness :
  let now := 40 * day_ms in
  let st := {| usageData := [mkUsage "A" "m" 1 2 3 (now - 2 * day_ms);
                             mkUsage "A" "m" 3 4 7 (now - 1000)];
               limits := {["A" := 100]} |} in
  used (getUsageStats now H24 st) <= used (getUsageStats now D7 st)
  /\ used (getUsageStats now H24 st) = 7
  /\ used (getUsageStats now D7 st) = 10.
Proof.
  intros now st.
  destruct (usage_grows_with_the_window now st) as (H1 & _).
  - repeat constructor; simpl; unfold now, day_ms; lia.
  - split; [exact H1|]. split; reflexivity.
Defined.

(** ** What is left of the limit *)

(** X4: [remaining] is never negative: it is what is left of the total while
    usage is below it, and 0 from the moment usage reaches the total.
    [percentUsed] is 0 when there is nothing to measure against (no limit
    configured, or limits that add up to nothing); it is not capped, and
    exceeds 100 once usage exceeds a positive total. *)
Theorem remaining_is_clamped_and_percentUsed_is_not :
  forall (now : Z) (w : TimeRange) (st : TokenUsageStore),
    let r := getUsageStats now w st in
    0 <= remaining r
    /\ (remaining r = 0 <-> total r <= used r)
    /\ (used r <= total r -> remaining r + used r = total r)
    /\ (limits st = ∅ -> total r = 0)
    /\ (total r <= 0 -> percentUsed r = Q2Qc 0)
    /\ (usageData st = [] ->
        used r = 0 /\ providerBreakdown r = [] /\ percentUsed r = Q2Qc 0
        /\ remaining r = Z.max 0 (total r))
    /\ (0 < total r -> total r < used r ->
        (Q2Qc (inject_Z 100) < percentUsed r)%Qc).
Proof.
  intros now w st r. subst r. unfold getUsageStats.
  cbn [remaining total used percentUsed providerBreakdown].
  split; [lia|]. split; [lia|]. split; [lia|].
  split.
  { intros Hl. unfold totalAvailable. rewrite Hl. apply map_fold_empty. }
  split.
  { intros Hle. destruct (Z.ltb_spec 0 (totalAvailable st)); [lia | reflexivity]. }
  split.
  { intros He. unfold filteredData. rewrite He. cbn.
    repeat split.
    - destruct (0 <? totalAvailable st); [apply ratio100_of_zero | reflexivity].
    - f_equal. lia. }
  intros Hpos Hover. rewrite (proj2 (Z.ltb_lt _ _) Hpos).
  set (avail := totalAvailable st) in *.
  set (tokens := sumTokens (filteredData now w st)) in *.
  assert (Hp : (Q2Qc 0 < Q2Qc (inject_Z avail))%Qc)
    by (apply (Q2Qc_lt 0 avail), Hpos).
  apply Qcnot_le_lt. intros Hle.
  apply Qcmult_le_compat_r with (z := Q2Qc (inject_Z avail)) in Hle;
    [|apply Qclt_le_weak, Hp].
  rewrite (ratio100_spec tokens avail ltac:(lia)) in Hle.
  assert (Hmul : (Q2Qc (inject_Z 100) * Q2Qc (inject_Z avail))%Qc
                 = Q2Qc (inject_Z (100 * avail))).
  { apply Qc_is_canon. simpl. rewrite !Qred_correct. unfold Qeq. simpl. lia. }
  rewrite Hmul in Hle. unfold Qcle in Hle. simpl in Hle.
  rewrite !Qred_correct in Hle. rewrite <- Zle_Qle in Hle. nia.
Qed.

(** 150 tokens used against a limit of 100. *)
Lemma remaining_is_clamped_and_percentUsed_is_not_witness :
  let st := {| usageData := [mkUsage "A" "m" 100 50 150 5];
               limits := {["A" := 100]} |} in
  remaining (getUsageStats 10 All st) = 0
  /\ (Q2Qc (inject_Z 100) < percentUsed (getUsageStats 10 All st))%Qc.
Proof.
  intros st.
  destruct (remaining_is_clamped_and_percentUsed_is_not 10 All st)
    as (_ & Hzero & _ & _ & _ & _ & Hover).
  split.
  - apply Hzero. vm_compute. discriminate.
  - apply Hover; vm_compute; reflexivity.
Defined.

(** ** Recording, then querying *)

Lemma filter_filter_stronger {A} (p q : A -> bool) (l : list A) :
  (forall a, q a = true -> p a = true) ->
  List.filter p (List.filter q l) = List.filter q l.
Proof.
  intros Hqp. apply forallb_filter_id, forallb_forall.
  intros a Ha. apply filter_In in Ha. apply Hqp, Ha.
Qed.

Lemma recorded_window (now : Z) (data : TokenUsageData) (c : Client) (w : TimeRange) :
  w <> All ->
  filteredData now w (tokenUsageStore (addTokenUsage now data c))
  = filteredData now w (tokenUsageStore c)
    ++ (if cutoffTime now w <=? timestamp data then [data] else []).
Proof.
  intros Hw. rewrite addTokenUsage_store. unfold filteredData. cbn [usageData].
  rewrite filter_filter_weaker.
  - rewrite List.filter_app. cbn [List.filter].
    destruct (cutoffTime now w <=? timestamp data); reflexivity.
  - intros d. rewrite !Z.leb_le.
    destruct w; cbn [cutoffTime]; unfold day_ms; try lia. congruence.
Qed.

Lemma recorded_used (now : Z) (data : TokenUsageData) (c : Client) (w : TimeRange) :
  w <> All ->
  used (getUsageStats now w (tokenUsageStore (addTokenUsage now data c)))
  = used (getUsageStats now w (tokenUsageStore c))
    + (if cutoffTime now w <=? timestamp data then totalTokens data else 0).
Proof.
  intros Hw. unfold getUsageStats. cbn [used].
  rewrite (recorded_window now data c w Hw), sumTokens_app.
  destruct (cutoffTime now w <=? timestamp data); unfold sumTokens; simpl; lia.
Qed.

(** X5: Statistics read right after an event is recorded, at the same
    instant: the total is unchanged, and over 24 hours, 7 days or 30 days
    [used] grows by the tokens of the event when the event falls in the
    window, and by nothing otherwise; an event stamped with the instant of
    the call always counts.  Once the clock is 30 days past the epoch the
    all-time window shows what the 30-day window shows, because recording
    has dropped everything older. *)
Theorem recorded_usage_shows_in_the_statistics :
  forall (now : Z) (data : TokenUsageData) (c : Client) (w : TimeRange),
    let st := tokenUsageStore c in
    let st' := tokenUsageStore (addTokenUsage now data c) in
    total (getUsageStats now w st') = total (getUsageStats now w st)
    /\ (w <> All ->
        used (getUsageStats now w st')
        = used (getUsageStats now w st)
          + (if cutoffTime now w <=? timestamp data then totalTokens data else 0))
    /\ (w <> All -> timestamp data = now ->
        used (getUsageStats now w st') = used (getUsageStats now w st) + totalTokens data)
    /\ (30 * day_ms <= now ->
        getUsageStats now All st' = getUsageStats now D30 st').
Proof.
  intros now data c w st st'. subst st st'.
  split.
  { rewrite addTokenUsage_store. reflexivity. }
  split; [apply recorded_used|].
  split.
  { intros Hw Hts. rewrite (recorded_used now data c w Hw), Hts.
    assert (Hin : (cutoffTime now w <=? now) = true)
      by (apply Z.leb_le; destruct w; cbn [cutoffTime]; try lia; congruence).
    rewrite Hin. reflexivity. }
  intros Hnow.
  assert (Hsame : filteredData now All (tokenUsageStore (addTokenUsage now data c))
                  = filteredData now D30 (tokenUsageStore (addTokenUsage now data c))).
  { rewrite addTokenUsage_store. unfold filteredData. cbn [usageData].
    rewrite filter_filter_stronger, filter_filter_weaker; [reflexivity| |];
      intros d H; apply Z.leb_le in H; apply Z.leb_le;
      cbn [cutoffTime] in *; unfold day_ms in *; lia. }
  unfold getUsageStats. rewrite Hsame. reflexivity.
Qed.

(** A ledger holding an event 40 days old, to which an event is added. *)
Lemma recorded_usage_shows_in_the_statistics_witness :
  let now := 100 * day_ms in
  let c := {| tokenUsageStore :=
                {| usageData := [mkUsage "A" "m" 1 1 2 (now - 40 * day_ms)];
                   limits := {["A" := 1000]} |};
              cookie := None; isClient := true; cookies_set_throws := false;
              warnings := [] |} in
  let data := mkUsage "B" "m" 4 4 8 now in
  used (getUsageStats now H24 (tokenUsageStore (addTokenUsage now data c))) = 8
  /\ used (getUsageStats now All (tokenUsageStore (addTokenUsage now data c))) = 8.
Proof.
  intros now c data.
  destruct (recorded_usage_shows_in_the_statistics now data c H24)
    as (_ & _ & Hstamp & Hall).
  split.
  - rewrite Hstamp; [reflexivity | discriminate | reflexivity].
  - rewrite Hall; [reflexivity | unfold now, day_ms; lia].
Defined.

(** ** When the cookie cannot be written *)

(** X7: The store in memory does not depend on the cookie: [addTokenUsage]
    and [setTokenLimit] leave the same state whether the module runs on
    the server, in a browser, or in a browser whose cookie write raises.
    Nothing is written on the server; a write that raises is swallowed,
    the cookie keeps what it held and one warning is handed to
    [debug.warn]. *)
Theorem failed_cookie_write_never_loses_the_update :
  forall (now : Z) (data : TokenUsageData) (p : string) (limit : Z) (c : Client),
    let added := addTokenUsage now data c in
    let limited := setTokenLimit now p limit c in
    (forall c0, tokenUsageStore c0 = tokenUsageStore c ->
        tokenUsageStore (addTokenUsage now data c0) = tokenUsageStore added
        /\ tokenUsageStore (setTokenLimit now p limit c0) = tokenUsageStore limited)
    /\ (isClient c = false ->
        cookie added = cookie c /\ warnings added = warnings c
        /\ cookie limited = cookie c /\ warnings limited = warnings c)
    /\ (isClient c = true -> cookies_set_throws c = true ->
        cookie added = cookie c
        /\ warnings added = warnings c ++ ["Failed to save token usage data to cookie:"]
        /\ cookie limited = cookie c
        /\ warnings limited = warnings c ++ ["Failed to save token usage data to cookie:"]).
Proof.
  intros now data p limit c added limited. subst added limited.
  split.
  { intros c0 H0. rewrite !addTokenUsage_store, !setTokenLimit_store, H0. auto. }
  destruct c as [st ck cl th ws]. cbn [isClient cookies_set_throws cookie warnings].
  split.
  - intros ->. repeat split.
  - intros -> ->. repeat split.
Qed.

(** A browser that refuses the cookie. *)
Lemma failed_cookie_write_never_loses_the_update_witness :
  let c := {| tokenUsageStore := initialState; cookie := None; isClient := true;
              cookies_set_throws := true; warnings := [] |} in
  let data := mkUsage "A" "m" 1 2 3 50 in
  usageData (tokenUsageStore (addTokenUsage 60 data c)) = [data]
  /\ cookie (addTokenUsage 60 data c) = None
  /\ warnings (addTokenUsage 60 data c) = ["Failed to save token usage data to cookie:"].
Proof.
  intros c data.
  destruct (failed_cookie_write_never_loses_the_update 60 data "A" 0 c)
    as (_ & _ & Hthrows).
  destruct (Hthrows eq_refl eq_refl) as (Hcookie & Hwarn & _).
  split; [reflexivity|]. split; [exact Hcookie | exact Hwarn].
Defined.

End UsageMore.

(* ===================================================================== *)
(** * Properties of the token counter                                     *)
(* ===================================================================== *)

Module CountingFacts.

Import Json TokenCounting.

Lemma count_roles_from (encode : JsString -> list N) (messages : list Message)
  (prompt completion : Z) :
  fold_left
    (fun '(prompt, completion) message =>
       let tokens := countTokens encode (content message) in
       if String.eqb (role message) "assistant" then (prompt, completion + tokens)
       else (prompt + tokens, completion))
    messages (prompt, completion)
  = (prompt
     + fold_right Z.add 0
         (List.map (fun m => countTokens encode (content m))
            (List.filter (fun m => negb (String.eqb (role m) "assistant")) messages)),
     completion
     + fold_right Z.add 0
         (List.map (fun m => countTokens encode (content m))
            (List.filter (fun m => String.eqb (role m) "assistant") messages))).
Proof.
  revert prompt completion.
  induction messages as [|m messages IH]; intros prompt completion.
  - cbn. f_equal; lia.
  - cbn [fold_left List.filter].
    destruct (String.eqb (role m) "assistant"); cbn [negb];
      rewrite IH; cbn [List.map fold_right]; f_equal; lia.
Qed.

Lemma tokens_split (encode : JsString -> list N) (messages : list Message) :
  fold_right Z.add 0 (List.map (fun m => countTokens encode (content m)) messages)
  = fold_right Z.add 0
      (List.map (fun m => countTokens encode (content m))
         (List.filter (fun m => negb (String.eqb (role m) "assistant")) messages))
    + fold_right Z.add 0
        (List.map (fun m => countTokens encode (content m))
           (List.filter (fun m => String.eqb (role m) "assistant") messages)).
Proof.
  induction messages as [|m messages IH]; [reflexivity|].
  cbn [List.map fold_right List.filter].
  destruct (String.eqb (role m) "assistant"); cbn [negb List.map fold_right]; lia.
Qed.

Lemma tokens_nonneg (encode : JsString -> list N) (messages : list Message) :
  0 <= fold_right Z.add 0 (List.map (fun m => countTokens encode (content m)) messages).
Proof.
  induction messages as [|m messages IH]; cbn [List.map fold_right]; [lia|].
  unfold countTokens at 1. lia.
Qed.

Lemma countMessageTokens_fields (encode : JsString -> list N) (messages : list Message) :
  countMessageTokens encode messages
  = {| promptTokens :=
         fold_right Z.add 0
           (List.map (fun m => countTokens encode (content m))
              (List.filter (fun m => negb (String.eqb (role m) "assistant")) messages));
       completionTokens :=
         fold_right Z.add 0
           (List.map (fun m => countTokens encode (content m))
              (List.filter (fun m => String.eqb (role m) "assistant") messages));
       totalTokens :=
         fold_right Z.add 0
           (List.map (fun m => countTokens encode (content m)) messages) |}.
Proof.
  unfold countMessageTokens, count_roles. rewrite count_roles_from.
  rewrite (tokens_split encode messages). reflexivity.
Qed.

(** X8: Whatever the tokenizer, [countMessageTokens] counts every message
    once: the completion count is the tokens of the messages whose role is
    'assistant', the prompt count those of all the other messages
    (system and tool messages included), and the total is the tokens of
    the whole conversation.  No count is negative, and the counts of a
    conversation continued by further messages are the sums of the counts
    of its two parts. *)
Theorem countMessageTokens_counts_each_message_once :
  forall (encode : JsString -> list N) (messages more : list Message),
    let tokens := fun l =>
      fold_right Z.add 0 (List.map (fun m => countTokens encode (content m)) l) in
    let r := countMessageTokens encode messages in
    completionTokens r
    = tokens (List.filter (fun m => String.eqb (role m) "assistant") messages)
    /\ promptTokens r
       = tokens (List.filter (fun m => negb (String.eqb (role m) "assistant")) messages)
    /\ totalTokens r = tokens messages
    /\ totalTokens r = promptTokens r + completionTokens r
    /\ 0 <= promptTokens r /\ 0 <= completionTokens r
    /\ promptTokens (countMessageTokens encode (messages ++ more))
       = promptTokens r + promptTokens (countMessageTokens encode more)
    /\ completionTokens (countMessageTokens encode (messages ++ more))
       = completionTokens r + completionTokens (countMessageTokens encode more)
    /\ totalTokens (countMessageTokens encode (messages ++ more))
       = totalTokens r + totalTokens (countMessageTokens encode more).
Proof.
  intros encode messages more tokens r. subst r.
  rewrite !countMessageTokens_fields. cbn [promptTokens completionTokens totalTokens].
  fold (tokens messages).
  repeat split; try apply tokens_nonneg.
  - apply tokens_split.
  - rewrite List.filter_app, List.map_app, fold_right_app.
    generalize (List.filter (fun m => negb (String.eqb (role m) "assistant")) messages).
    intros l. induction l as [|m l IH]; cbn in *; lia.
  - rewrite List.filter_app, List.map_app, fold_right_app.
    generalize (List.filter (fun m => String.eqb (role m) "assistant") messages).
    intros l. induction l as [|m l IH]; cbn in *; lia.
  - rewrite List.map_app, fold_right_app. subst tokens.
    induction messages as [|m l IH]; cbn in *; lia.
Qed.

(** X9: [trackTokenUsage] puts one event at the end of the ledger, stamped
    when it was built, carrying the provider, the model and the counts of
    the conversation; events older than 30 days leave the ledger in the
    same step.  Statistics read at that instant over a window that holds
    the stamp show [used] grown by the tokens of the whole conversation.
    The clock is taken not to run 30 days between the two readings of
    [Date.now()]. *)
Theorem trackTokenUsage_records_the_conversation :
  forall (encode : JsString -> list N) (stamped now : Z) (messages : list Message)
         (model provider : string) (c : TokenUsage.Client) (w : TokenUsage.TimeRange),
    now - 30 * TokenUsage.day_ms <= stamped ->
    let c' := trackTokenUsage encode stamped now messages model provider c in
    let tokens :=
      fold_right Z.add 0 (List.map (fun m => countTokens encode (content m)) messages) in
    exists event,
      TokenUsage.usageData (TokenUsage.tokenUsageStore c')
      = List.filter (fun d => now - 30 * TokenUsage.day_ms <=? TokenUsage.timestamp d)
                    (TokenUsage.usageData (TokenUsage.tokenUsageStore c))
        ++ [event]
      /\ TokenUsage.provider event = provider
      /\ TokenUsage.model event = model
      /\ TokenUsage.timestamp event = stamped
      /\ TokenUsage.totalTokens event = tokens
      /\ TokenUsage.totalTokens event
         = TokenUsage.promptTokens event + TokenUsage.completionTokens event
      /\ (w <> TokenUsage.All -> TokenUsage.cutoffTime now w <= stamped ->
          TokenUsage.used (TokenUsage.getUsageStats now w (TokenUsage.tokenUsageStore c'))
          = TokenUsage.used (TokenUsage.getUsageStats now w (TokenUsage.tokenUsageStore c))
            + tokens).
Proof.
  intros encode stamped now messages model provider c w Hclock c' tokens.
  subst c'. unfold trackTokenUsage.
  rewrite countMessageTokens_fields. cbn [promptTokens completionTokens totalTokens].
  fold tokens. eexists. split.
  { rewrite UsageFacts.addTokenUsage_store. cbn [TokenUsage.usageData].
    rewrite List.filter_app. cbn [List.filter TokenUsage.timestamp].
    rewrite (proj2 (Z.leb_le _ _) Hclock). reflexivity. }
  cbn [TokenUsage.provider TokenUsage.model TokenUsage.timestamp
       TokenUsage.totalTokens TokenUsage.promptTokens TokenUsage.completionTokens].
  repeat split.
  - apply tokens_split.
  - intros Hw Hin. rewrite (UsageMore.recorded_used now _ c w Hw).
    cbn [TokenUsage.timestamp TokenUsage.totalTokens].
    rewrite (proj2 (Z.leb_le _ _) Hin). reflexivity.
Qed.

(** A tokenizer that yields one token per code unit, and a conversation of
    a question and an answer. *)
Lemma trackTokenUsage_records_the_conversation_witness :
  let encode := fun text : JsString => text in
  let messages := [mkMessage "user" (str "hello"); mkMessage "assistant" (str "hi")] in
  let c := {| TokenUsage.tokenUsageStore := TokenUsage.initialState;
              TokenUsage.cookie := None; TokenUsage.isClient := true;
              TokenUsage.cookies_set_throws := false; TokenUsage.warnings := [] |} in
  TokenUsage.used
    (TokenUsage.getUsageStats 1000 TokenUsage.H24
       (TokenUsage.tokenUsageStore
          (trackTokenUsage encode 999 1000 messages "gpt-4" "OpenAI" c))) = 7.
Proof.
  intros encode messages c.
  destruct (trackTokenUsage_records_the_conversation
              encode 999 1000 messages "gpt-4" "OpenAI" c TokenUsage.H24)
    as (event & _ & _ & _ & _ & _ & _ & Hused).
  - unfold TokenUsage.day_ms. lia.
  - rewrite Hused; [reflexivity | discriminate | cbn; lia].
Defined.

End CountingFacts.

(* ===================================================================== *)
(** * Properties of the settings dialog                                   *)
(* ===================================================================== *)

Module SettingsFacts.

Import Json Settings.

(** ** Showing a payload *)

Lemma elements_with_returns (f : JsValue -> Result (option JsString)) (l : list JsValue) :
  (exists parts, elements_with f l = Ok parts)
  <-> Forall (fun x => exists o, f x = Ok o) l.
Proof.
  induction l as [|x l IH]; cbn [elements_with].
  - split; [constructor | eauto].
  - split.
    + intros [parts H]. destruct (f x) as [o|e] eqn:Hx; [|discriminate].
      constructor; [eauto|]. apply IH.
      destruct (elements_with f l); [eauto | discriminate].
    + intros H. inversion H as [|? ? [o Hx] Hl]; subst. rewrite Hx.
      apply IH in Hl as [parts Hl]. rewrite Hl. eauto.
Qed.

Lemma members_with_returns (f : JsValue -> Result (option JsString))
  (l : list (JsString * JsValue)) :
  (exists parts, members_with f l = Ok parts)
  <-> Forall (fun kv => exists o, f (snd kv) = Ok o) l.
Proof.
  induction l as [|[k x] l IH]; cbn [members_with].
  - split; [constructor | eauto].
  - split.
    + intros [parts H]. destruct (f x) as [o|e] eqn:Hx; [|discriminate].
      constructor; [cbn; eauto|]. apply IH.
      destruct (members_with f l); [eauto | discriminate].
    + intros H. inversion H as [|? ? [o Hx] Hl]; subst. cbn in Hx. rewrite Hx.
      apply IH in Hl as [parts Hl]. rewrite Hl. eauto.
Qed.

Lemma members_spaced_returns (f : JsValue -> Result (option JsString))
  (l : list (JsString * JsValue)) :
  (exists parts, members_spaced f l = Ok parts)
  <-> Forall (fun kv => exists o, f (snd kv) = Ok o) l.
Proof.
  induction l as [|[k x] l IH]; cbn [members_spaced].
  - split; [constructor | eauto].
  - split.
    + intros [parts H]. destruct (f x) as [o|e] eqn:Hx; [|discriminate].
      constructor; [cbn; eauto|]. apply IH.
      destruct (members_spaced f l); [eauto | discriminate].
    + intros H. inversion H as [|? ? [o Hx] Hl]; subst. cbn in Hx. rewrite Hx.
      apply IH in Hl as [parts Hl]. rewrite Hl. eauto.
Qed.

Lemma Forall_iff_pointwise {A} (P R : A -> Prop) (l : list A) :
  Forall (fun a => P a <-> R a) l -> (Forall P l <-> Forall R l).
Proof.
  induction 1 as [|a l Ha _ IH]; [split; constructor|].
  split; intros H; inversion H; subst; constructor; tauto.
Qed.

(** Printing with indentation returns exactly where printing without
    does. *)
Lemma stringify_pretty_returns (v : JsValue) :
  forall depth, (exists o, stringify_pretty depth v = Ok o) <-> serializable v.
Proof.
  induction v using TruncationFacts.JsValue_nested_ind; intros depth;
    try (unfold serializable; cbn [stringify_pretty]; tauto).
  - (* arrays *)
    transitivity (Forall (fun x => exists o, stringify_pretty (S depth) x = Ok o) items).
    + rewrite <- elements_with_returns. cbn [stringify_pretty].
      destruct (elements_with _ items); split; intros [o Ho]; eauto; discriminate.
    + transitivity (Forall (fun x => exists o, stringify x = Ok o) items).
      * apply Forall_iff_pointwise. eapply List.Forall_impl; [|exact H].
        intros x Hx. apply Hx.
      * rewrite <- elements_with_returns. unfold serializable. cbn [stringify].
        destruct (elements_with _ items); split; intros [o Ho]; eauto; discriminate.
  - (* objects *)
    transitivity (Forall (fun kv => exists o, stringify_pretty (S depth) (snd kv) = Ok o)
                         props).
    + rewrite <- members_spaced_returns. cbn [stringify_pretty].
      destruct (members_spaced _ props); split; intros [o Ho]; eauto; discriminate.
    + transitivity (Forall (fun kv => exists o, stringify (snd kv) = Ok o) props).
      * apply Forall_iff_pointwise. eapply List.Forall_impl; [|exact H].
        intros x Hx. apply Hx.
      * rewrite <- members_with_returns. unfold serializable. cbn [stringify].
        destruct (members_with _ props); split; intros [o Ho]; eauto; discriminate.
Qed.

(** X10: [formatData] never raises.  A string is shown as it is.  Any other
    value is shown as its indented JSON text exactly when [JSON.stringify]
    accepts it, a scalar as the text [JSON.stringify] gives without
    indentation; a value [JSON.stringify] refuses (a circular structure, a
    BigInt at any depth) is shown as the text '[Unable to format
    data]'. *)
Theorem formatData_falls_back_where_stringify_raises :
  forall (v : JsValue),
    (forall s, v = JString s -> formatData v = Some s)
    /\ (forall e, stringify v = Throw e -> formatData v = Some unable_to_format)
    /\ (serializable v -> (forall s, v <> JString s) ->
        exists o, stringify_pretty 0 v = Ok o /\ formatData v = o)
    /\ (forall o, stringify v = Ok o ->
        (forall s, v <> JString s) ->
        (forall items, v <> JArray items) -> (forall props, v <> JObject props) ->
        formatData v = o).
Proof.
  intros v. split; [intros s ->; reflexivity|]. split.
  { intros e He.
    assert (Hno : ~ serializable v) by (intros [o Ho]; congruence).
    assert (Hthrows : exists e', stringify_pretty 0 v = Throw e').
    { destruct (stringify_pretty 0 v) as [o|e'] eqn:Hp; [|eauto].
      exfalso. apply Hno, (stringify_pretty_returns v 0). eauto. }
    destruct Hthrows as [e' He'].
    destruct v; try (unfold formatData; rewrite He'; reflexivity).
    discriminate He. }
  split.
  { intros Hser Hstr. apply (stringify_pretty_returns v 0) in Hser as [o Ho].
    exists o. split; [exact Ho|].
    destruct v; try (unfold formatData; rewrite Ho; reflexivity).
    exfalso. eapply Hstr. reflexivity. }
  intros o Ho Hstr Harr Hobj.
  destruct v; try (unfold formatData; cbn [stringify_pretty]; rewrite Ho; reflexivity).
  - exfalso. eapply Hstr. reflexivity.
  - exfalso. eapply Harr. reflexivity.
  - exfalso. eapply Hobj. reflexivity.
Qed.

(** An object holding itself, and an array of two numbers. *)
Lemma formatData_falls_back_where_stringify_raises_witness :
  formatData (JObject [(str "self", JCycle)]) = Some unable_to_format
  /\ exists o, stringify_pretty 0 (JArray [JNumber 1; JNumber 2]) = Ok o
               /\ formatData (JArray [JNumber 1; JNumber 2]) = o.
Proof.
  split.
  - destruct (formatData_falls_back_where_stringify_raises
                (JObject [(str "self", JCycle)])) as (_ & Hthrow & _).
    eapply Hthrow. reflexivity.
  - destruct (formatData_falls_back_where_stringify_raises
                (JArray [JNumber 1; JNumber 2])) as (_ & _ & Hok & _).
    apply Hok; [eexists; reflexivity | discriminate].
Defined.

(** ** Switching a provider on and off *)

Lemma toggled_twice (providerName : string) (l : list Provider) :
  toggled providerName (toggled providerName l) = l.
Proof.
  unfold toggled. rewrite List.map_map. rewrite <- (List.map_id l) at 2.
  apply List.map_ext. intros [n en models]. cbn [name isEnabled staticModels].
  destruct (String.eqb n providerName) eqn:Hn; cbn [name isEnabled staticModels];
    rewrite Hn; [rewrite negb_involutive|]; reflexivity.
Qed.

Lemma toggled_names (providerName : string) (l : list Provider) :
  List.map name (toggled providerName l) = List.map name l.
Proof.
  unfold toggled. rewrite List.map_map. apply List.map_ext.
  intros p. destruct (String.eqb (name p) providerName); reflexivity.
Qed.

Lemma enabledStates_untouched (l : list Provider) (acc : gmap string bool) (n : string) :
  ~ In n (List.map name l) ->
  fold_left (fun acc provider => <[name provider := isEnabled provider]> acc) l acc !! n
  = acc !! n.
Proof.
  revert acc. induction l as [|q l IH]; intros acc Hn; [reflexivity|].
  cbn [fold_left]. rewrite IH by (intros H; apply Hn; right; exact H).
  apply lookup_insert_ne. intros Heq. apply Hn. left. exact Heq.
Qed.

Lemma enabledStates_lookup (l : list Provider) (acc : gmap string bool) (p : Provider) :
  List.NoDup (List.map name l) -> In p l ->
  fold_left (fun acc provider => <[name provider := isEnabled provider]> acc) l acc
    !! name p
  = Some (isEnabled p).
Proof.
  revert acc. induction l as [|q l IH]; intros acc Hnd Hp; [destruct Hp|].
  cbn [List.map] in Hnd. inversion Hnd as [|? ? Hq Hnd']; subst.
  cbn [fold_left]. destruct Hp as [->|Hp].
  - rewrite enabledStates_untouched by exact Hq. apply lookup_insert_eq.
  - apply IH; assumption.
Qed.

(** X11: [handleToggleProvider] inverts the enabled flag of the providers of
    the given name and of no other, keeps the list in its order, and a
    second toggle gives back the list it started from.  The cookie
    'providers' is rewritten on every toggle; when no two providers share
    a name it maps each provider of the new list to its enabled flag. *)
Theorem handleToggleProvider_flips_the_named_provider :
  forall (now : Z) (providersList : list Provider) (providerName : string)
         (panel : Panel),
    let panel' := handleToggleProvider now providersList providerName panel in
    List.map name (providers panel') = List.map name (providers panel)
    /\ List.map isEnabled (providers panel')
       = List.map (fun p => if String.eqb (name p) providerName
                            then negb (isEnabled p) else isEnabled p)
                  (providers panel)
    /\ List.map staticModels (providers panel') = List.map staticModels (providers panel)
    /\ providers (handleToggleProvider now providersList providerName panel')
       = providers panel
    /\ exists states,
         providers_cookie panel' = Some states
         /\ (List.NoDup (List.map name (providers panel)) ->
             forall p, In p (providers panel') -> states !! name p = Some (isEnabled p)).
Proof.
  intros now providersList providerName panel panel'. subst panel'.
  unfold handleToggleProvider. cbn [providers providers_cookie].
  split; [apply toggled_names|].
  split.
  { unfold toggled. rewrite List.map_map. apply List.map_ext.
    intros p. destruct (String.eqb (name p) providerName); reflexivity. }
  split.
  { unfold toggled. rewrite List.map_map. apply List.map_ext.
    intros p. destruct (String.eqb (name p) providerName); reflexivity. }
  split; [apply toggled_twice|].
  eexists. split; [reflexivity|].
  intros Hnd p Hp. unfold enabledStates. apply enabledStates_lookup; [|exact Hp].
  rewrite toggled_names. exact Hnd.
Qed.

(** Two providers, the first of which is switched on. *)
Lemma handleToggleProvider_flips_the_named_provider_witness :
  let openai := mkProvider "OpenAI" false (Some [mkModelInfo "gpt-4o" 8000]) in
  let ollama := mkProvider "Ollama" true None in
  let panel := {| providers := [openai; ollama]; providers_cookie := None;
                  usage := {| TokenUsage.tokenUsageStore := TokenUsage.initialState;
                              TokenUsage.cookie := None; TokenUsage.isClient := true;
                              TokenUsage.cookies_set_throws := false;
                              TokenUsage.warnings := [] |} |} in
  exists states,
    providers_cookie (handleToggleProvider 5 [openai; ollama] "OpenAI" panel)
    = Some states
    /\ states !! "OpenAI" = Some true /\ states !! "Ollama" = Some true.
Proof.
  intros openai ollama panel.
  destruct (handleToggleProvider_flips_the_named_provider
              5 [openai; ollama] "OpenAI" panel)
    as (_ & _ & _ & _ & states & Hcookie & Hstates).
  exists states. split; [exact Hcookie|].
  assert (Hnd : List.NoDup (List.map name (providers panel))).
  { cbn. repeat constructor; cbn; [intros [H|[]]; discriminate H | tauto]. }
  split.
  - apply (Hstates Hnd (mkProvider "OpenAI" true (Some [mkModelInfo "gpt-4o" 8000]))).
    left. reflexivity.
  - apply (Hstates Hnd ollama). right. left. reflexivity.
Defined.

Lemma fold_max_bounds (rest : list Z) (x : Z) :
  x <= fold_left Z.max rest x
  /\ (forall y, In y rest -> y <= fold_left Z.max rest x)
  /\ In (fold_left Z.max rest x) (x :: rest).
Proof.
  revert x. induction rest as [|y rest IH]; intros x; cbn [fold_left].
  - repeat split; [lia | intros y [] | left; reflexivity].
  - destruct (IH (Z.max x y)) as (H1 & H2 & H3). repeat split.
    + lia.
    + intros z [<-|Hz]; [lia | apply H2, Hz].
    + destruct H3 as [H3|H3]; [|right; right; exact H3].
      rewrite <- H3.
      destruct (Z.max_spec x y) as [[_ Hm]|[_ Hm]]; rewrite Hm;
        [right; left | left]; reflexivity.
Qed.

Lemma math_max_bounds (numbers : list Z) (m : Z) :
  math_max numbers = Some m ->
  In m numbers /\ forall y, In y numbers -> y <= m.
Proof.
  destruct numbers as [|x rest]; [discriminate|]. cbn [math_max].
  intros H. inversion H; subst. clear H.
  destruct (fold_max_bounds rest x) as (H1 & H2 & H3).
  split; [exact H3|]. intros y [<-|Hy]; [exact H1 | apply H2, Hy].
Qed.

(** X12: A toggle never touches the ledger, never removes a limit and never
    changes the limit of another provider.  The limit of the toggled
    provider changes only when the toggle switches it on, and then to the
    largest [maxTokenAllowed] among the models the settings store lists
    for it, that number being positive: switching a provider off leaves
    its limit, and so the total of the statistics, where it was. *)
Theorem handleToggleProvider_sets_limit_only_when_enabling :
  forall (now : Z) (providersList : list Provider) (providerName : string)
         (panel : Panel),
    let before := TokenUsage.tokenUsageStore (usage panel) in
    let after :=
      TokenUsage.tokenUsageStore
        (usage (handleToggleProvider now providersList providerName panel)) in
    TokenUsage.usageData after = TokenUsage.usageData before
    /\ (forall q, q <> providerName ->
        TokenUsage.limits after !! q = TokenUsage.limits before !! q)
    /\ (TokenUsage.limits after !! providerName
        = TokenUsage.limits before !! providerName
        \/ exists info models limit,
             List.find (fun p => String.eqb (name p) providerName) providersList
             = Some info
             /\ staticModels info = Some models
             /\ TokenUsage.limits after !! providerName = Some limit
             /\ 0 < limit
             /\ In limit (List.map maxTokenAllowed models)
             /\ forall m, In m models -> maxTokenAllowed m <= limit)
    /\ (forall p,
          List.find (fun p => String.eqb (name p) providerName) (providers panel)
          = Some p ->
          isEnabled p = true ->
          usage (handleToggleProvider now providersList providerName panel)
          = usage panel)
    /\ (is_Some (TokenUsage.limits before !! providerName) ->
        is_Some (TokenUsage.limits after !! providerName)).
Proof.
  intros now providersList providerName panel before after.
  subst before after. unfold handleToggleProvider. cbn [usage].
  set (by_name := fun p : Provider => String.eqb (name p) providerName).
  assert (Hfind : List.find by_name (toggled providerName (providers panel))
                  = option_map
                      (fun p => {| name := name p; isEnabled := negb (isEnabled p);
                                   staticModels := staticModels p |})
                      (List.find by_name (providers panel))).
  { unfold toggled, by_name.
    induction (providers panel) as [|q l IH]; [reflexivity|].
    cbn [List.map List.find].
    destruct (String.eqb (name q) providerName) eqn:Hq; cbn [name]; rewrite Hq;
      [reflexivity | exact IH]. }
  rewrite Hfind. clear Hfind.
  destruct (List.find by_name (providers panel)) as [p|]; cbn [option_map isEnabled].
  2: { repeat split; auto; try (intros p0 H0; discriminate H0). }
  destruct (isEnabled p) eqn:Hen; cbn [negb].
  { repeat split; auto. }
  assert (Hoff : forall p0, Some p = Some p0 -> isEnabled p0 = true -> False).
  { intros p0 H0 H1. inversion H0; subst. congruence. }
  destruct (List.find by_name providersList) as [info|] eqn:Hinfo.
  2: { repeat split; auto; try (intros p0 H0 H1; destruct (Hoff p0 H0 H1)). }
  destruct (staticModels info) as [models|] eqn:Hmodels.
  2: { repeat split; auto; try (intros p0 H0 H1; destruct (Hoff p0 H0 H1)). }
  destruct (math_max (List.map maxTokenAllowed models)) as [limit|] eqn:Hmax.
  2: { repeat split; auto; try (intros p0 H0 H1; destruct (Hoff p0 H0 H1)). }
  destruct (Z.ltb_spec 0 limit) as [Hpos|Hneg].
  2: { repeat split; auto; try (intros p0 H0 H1; destruct (Hoff p0 H0 H1)). }
  rewrite UsageMore.setTokenLimit_store.
  cbn [TokenUsage.usageData TokenUsage.limits].
  destruct (math_max_bounds _ _ Hmax) as [Hin Hle].
  split; [reflexivity|].
  split; [intros q Hq; apply lookup_insert_ne; congruence|].
  split.
  { right. exists info, models, limit. repeat split; auto.
    - apply lookup_insert_eq.
    - intros m Hm. apply Hle, in_map, Hm. }
  split; [intros p0 H0 H1; destruct (Hoff p0 H0 H1)|].
  intros _. rewrite lookup_insert_eq. eexists. reflexivity.
Qed.

(** A provider with two models is switched on, then off again. *)
Lemma handleToggleProvider_sets_limit_only_when_enabling_witness :
  let openai :=
    mkProvider "OpenAI" false
      (Some [mkModelInfo "gpt-4o" 8000; mkModelInfo "o1" 32000]) in
  let panel := {| providers := [openai]; providers_cookie := None;
                  usage := {| TokenUsage.tokenUsageStore := TokenUsage.initialState;
                              TokenUsage.cookie := None; TokenUsage.isClient := true;
                              TokenUsage.cookies_set_throws := false;
                              TokenUsage.warnings := [] |} |} in
  let on := handleToggleProvider 5 [openai] "OpenAI" panel in
  TokenUsage.limits (TokenUsage.tokenUsageStore (usage on)) !! "OpenAI" = Some 32000
  /\ usage (handleToggleProvider 6 [openai] "OpenAI" on) = usage on.
Proof.
  intros openai panel on. split; [reflexivity|].
  destruct (handleToggleProvider_sets_limit_only_when_enabling 6 [openai] "OpenAI" on)
    as (_ & _ & _ & Hoff & _).
  eapply Hoff; reflexivity.
Defined.

End SettingsFacts.

(* ===================================================================== *)
(** * Further properties of the debug manager                             *)
(* ===================================================================== *)

Module DebugMore.

Import Json Debug DebugFacts.
Local Open Scope js_scope.

(** ** Properties that hold in every state the manager reaches *)

Section Stores.
Variable Q : bool -> bool -> list LogEntry -> list Listener -> Prop.

(** A property that survives the storing of an entry [_log] builds ... *)
Hypothesis Q_store :
  forall entry client logs ls,
    made entry -> Q client true logs ls -> Q client true (unshift_capped entry logs) ls.

Lemma observes_log now lvl cat msg payload tr :
  keeps (observes Q) (_log now lvl cat msg payload tr).
Proof.
  intros w Hw. unfold _log.
  destruct (_isEnabled (mgr w)) eqn:Hen; cbn [negb]; [|exact Hw].
  destruct (if truthy payload then _ else _) as [truncated|e] eqn:Htr; [|exact Hw].
  apply (keeps_notify (observes Q)); [intros d w' H; exact H|].
  unfold observes in *. cbn [host mgr on_mgr set_logs _isEnabled _logs _listeners].
  rewrite Hen in *. apply Q_store; [|exact Hw].
  exists (mkLogCall now lvl cat msg payload tr). unfold appended_entry.
  cbn [call_data call_now call_level call_category call_message call_trace].
  rewrite Htr. reflexivity.
Qed.

Ltac keeps_observed :=
  repeat first
    [ apply observes_log
    | apply keeps_ret
    | apply keeps_throw
    | apply keeps_discard
    | apply keeps_bind; [|intros ?]
    | apply keeps_try_catch; [|intros ?]
    | (apply keeps_modify; intros ? ?; assumption) ].

Lemma observes_fetch_wrapper depth started settled requestId args :
  keeps (observes Q) (_fetch depth started settled requestId args).
Proof.
  induction depth as [|depth IH]; cbn [_fetch]; keeps_observed.
  - intros w Hw. destruct (_originalFetch (mgr w)) as [[|]|]; exact Hw.
  - intros w Hw. destruct (_originalFetch (mgr w)) as [[|]|]; try exact Hw.
    apply IH, Hw.
Qed.

Lemma observes_debug_console depth now m first others :
  keeps (observes Q) (debug_console depth now m first others).
Proof.
  induction depth as [|depth IH]; cbn [debug_console]; keeps_observed.
  - intros w Hw. destruct (console_slot m _); exact Hw.
  - intros w Hw. destruct (console_slot m _); [exact Hw | apply IH, Hw].
Qed.

Lemma observes_call_setItem impl now key value :
  keeps (observes Q) (call_setItem impl now key value).
Proof.
  induction impl as [|original IH|]; cbn [call_setItem]; keeps_observed.
  exact IH.
Qed.

Lemma observes_setItem_call now key value :
  keeps (observes Q) (localStorage_setItem_call now key value).
Proof.
  unfold localStorage_setItem_call. intros w Hw. apply observes_call_setItem, Hw.
Qed.

Lemma observes_setupDebugMode now : keeps (observes Q) (_setupDebugMode now).
Proof.
  intros w Hw. unfold _setupDebugMode.
  destruct (negb (isClient (host w))); [exact Hw|].
  revert w Hw. keeps_observed.
  - intros w Hw. unfold _interceptNetworkCalls.
    destruct (negb (isClient (host w))); exact Hw.
  - intros w Hw. unfold _setupErrorListeners.
    destruct (negb (isClient (host w))); exact Hw.
  - apply keeps_modify. intros w Hw.
    unfold observes, on_host, assign_setItem in *. cbn [host mgr].
    destruct (localStorage_setItem (host w)); exact Hw.
  - intros w Hw. destruct (cookie_descriptor_throws (host w)); [|exact Hw].
    apply observes_log, Hw.
Qed.

Lemma observes_enabled_steps now (ua : JsString) :
  keeps (observes Q)
    (localStorage_setItem_call now (str "devDebugEnabled") (str "true");;
     _setupDebugMode now;;
     id <- setInterval;;
     modify (on_mgr (set_cleanupInterval (Some id)));;
     _log now LInfo CSystem (str "Debug Mode Enabled")
          (JObject [(str "timestamp", JString (toISOString now));
                    (str "userAgent", JString ua)]) None).
Proof.
  keeps_observed.
  - apply observes_setItem_call.
  - apply observes_setupDebugMode.
Qed.

Lemma observes_other_operations (o : Op) :
  match o with
  | OpEnableDebug _ | OpDisableDebug _ | OpClearLogs _ | OpAddListener _
  | OpUnsubscribe _ | OpTimer _ _ => True
  | _ => keeps (observes Q) (perform o)
  end.
Proof.
  destruct o; cbn [perform]; try exact I.
  - apply observes_log.
  - intros w Hw. exact Hw.
  - apply keeps_discard. intros w Hw. unfold fetch.
    destruct (window_fetch (host w)); [exact Hw|].
    apply observes_fetch_wrapper, Hw.
  - intros w Hw. unfold console_call.
    destruct (console_slot m _); [exact Hw|].
    apply observes_debug_console, Hw.
  - apply observes_setItem_call.
  - intros w Hw. unfold document_cookie_write.
    destruct (document_cookie (host w)); [exact Hw|].
    revert w Hw. keeps_observed.
  - intros w Hw. destruct (window_onerror (host w)) as [[|]|]; try exact Hw.
    revert w Hw. unfold debug_onerror. keeps_observed.
  - intros w Hw.
    destruct (window_onunhandledrejection (host w)) as [[|]|]; try exact Hw.
    apply observes_log, Hw.
Qed.

End Stores.

Section Invariant.
Variable Q : bool -> bool -> list LogEntry -> list Listener -> Prop.

Hypothesis Q_start : forall client, Q client false [] [].
Hypothesis Q_enable :
  forall en logs ls, Q true en logs ls -> Q true true logs ls.
Hypothesis Q_disable :
  forall en logs ls, Q true en logs ls -> Q true false [] ls.
Hypothesis Q_prune :
  forall (p : LogEntry -> bool) client en logs ls,
    Q client en logs ls -> Q client en (List.filter p logs) ls.
Hypothesis Q_store :
  forall entry client logs ls,
    made entry -> Q client true logs ls -> Q client true (unshift_capped entry logs) ls.
Hypothesis Q_add :
  forall l client en logs ls,
    existsb (fun l' => Nat.eqb (listener_id l') (listener_id l)) ls = false ->
    Q client en logs ls -> Q client en logs (ls ++ [l]).
Hypothesis Q_unsub :
  forall (p : Listener -> bool) client en logs ls,
    Q client en logs ls -> Q client en logs (List.filter p ls).

Lemma Q_clear client en logs ls : Q client en logs ls -> Q client en [] ls.
Proof.
  intros H. apply (Q_prune (fun _ => false)) in H.
  replace (List.filter (fun _ => false) logs) with (@nil LogEntry) in H; [exact H|].
  clear H. induction logs as [|a logs IH]; [reflexivity | exact IH].
Qed.

Lemma observes_enableDebug now : keeps (observes Q) (enableDebug now).
Proof.
  intros w Hw. unfold enableDebug.
  destruct (isClient (host w)) eqn:Hclient; cbn [negb]; [|exact Hw].
  generalize (userAgent (host w)). intros ua.
  set (Q' := fun client en logs ls => client = true /\ Q client en logs ls).
  assert (Hstore' : forall entry client logs ls,
            made entry -> Q' client true logs ls ->
            Q' client true (unshift_capped entry logs) ls).
  { intros entry client logs ls Hm [Hc Hq]. split; [exact Hc|].
    apply Q_store; assumption. }
  assert (Hw' : observes Q' w) by (split; assumption).
  apply (keeps_bind (observes Q')
           (modify (on_mgr (set_isEnabled true)))
           (fun _ =>
              localStorage_setItem_call now (str "devDebugEnabled") (str "true");;
              _setupDebugMode now;;
              id <- setInterval;;
              modify (on_mgr (set_cleanupInterval (Some id)));;
              _log now LInfo CSystem (str "Debug Mode Enabled")
                   (JObject [(str "timestamp", JString (toISOString now));
                             (str "userAgent", JString ua)]) None)) in Hw'.
  - exact (proj2 Hw').
  - apply keeps_modify. intros w0 [Hc Hq]. split; [exact Hc|].
    unfold observes in *. cbn [host mgr on_mgr set_isEnabled _isEnabled _logs _listeners].
    rewrite Hc in *. eapply Q_enable, Hq.
  - intros _. apply (observes_enabled_steps Q' Hstore').
Qed.

Lemma observes_disableDebug now : keeps (observes Q) (disableDebug now).
Proof.
  intros w Hw.
  pose proof (disableDebug_effect now w) as Heff. cbn zeta in Heff.
  destruct Heff as (_ & _ & _ & _ & _ & _ & Hl & Hc & Hoff).
  unfold observes in *. rewrite Hl, Hc.
  destruct (isClient (host w)) eqn:Hclient.
  - destruct (Hoff eq_refl) as [Hlogs Hen]. unfold getLogs in Hlogs.
    rewrite Hlogs, Hen. eapply Q_disable, Hw.
  - unfold disableDebug. rewrite Hclient. exact Hw.
Qed.

Lemma observes_perform (o : Op) : keeps (observes Q) (perform o).
Proof.
  pose proof (observes_other_operations Q Q_store o) as Hother.
  destruct o; try exact Hother; cbn [perform].
  - apply observes_enableDebug.
  - apply observes_disableDebug.
  - unfold clearLogs. apply keeps_bind; [|intros _; apply observes_log, Q_store].
    apply keeps_modify. intros w Hw. eapply Q_clear, Hw.
  - intros w Hw. unfold addListener, modify, observes in *.
    cbn [fst host mgr on_mgr].
    destruct (existsb _ _) eqn:Hex; [exact Hw|].
    apply Q_add; assumption.
  - intros w Hw. apply Q_unsub, Hw.
  - intros w Hw. unfold fire_interval.
    destruct (existsb _ _); [|exact Hw]. apply Q_prune, Hw.
Qed.

Lemma observes_run (ops : list Op) (w : World) :
  observes Q w -> observes Q (run ops w).
Proof.
  revert w. induction ops as [|o ops IH]; intros w Hw; simpl; [exact Hw|].
  apply IH, observes_perform, Hw.
Qed.

Lemma observes_construct (now : Z) (h : Host) : observes Q (fst (construct now h)).
Proof.
  unfold construct. destruct (isClient h) eqn:Hclient.
  - destruct (bool_decide _).
    + apply (observes_setupDebugMode Q Q_store). unfold observes. cbn.
      rewrite Hclient. eapply Q_enable, Q_start.
    + unfold observes. cbn. apply Q_start.
  - unfold observes. cbn. apply Q_start.
Qed.

Lemma observes_reachable (w : World) : reachable w -> observes Q w.
Proof.
  intros (h & t0 & ops & ->). apply observes_run, observes_construct.
Qed.

End Invariant.

Lemma removelast_Forall {A} (P : A -> Prop) (l : list A) :
  Forall P l -> Forall P (removelast l).
Proof.
  induction 1 as [|a l Ha Hl IH]; [constructor|].
  cbn [removelast]. destruct l; [constructor|].
  constructor; [exact Ha | exact IH].
Qed.

Lemma unshift_capped_Forall (P : LogEntry -> Prop) (entry : LogEntry)
  (logs : list LogEntry) :
  P entry -> Forall P logs -> Forall P (unshift_capped entry logs).
Proof.
  intros He Hl. unfold unshift_capped.
  destruct (_ <? _)%nat; [apply removelast_Forall|]; constructor; assumption.
Qed.

Lemma filter_Forall {A} (P : A -> Prop) (p : A -> bool) (l : list A) :
  Forall P l -> Forall P (List.filter p l).
Proof.
  rewrite !List.Forall_forall. intros H a Ha. apply filter_In in Ha. apply H, Ha.
Qed.

(** What holds of every entry [_log] builds holds of every entry of the
    buffer, in every state the manager reaches. *)
Lemma reachable_entries (P : LogEntry -> Prop) (w : World) :
  (forall entry, made entry -> P entry) ->
  reachable w -> Forall P (getLogs w).
Proof.
  intros Hmade Hw.
  apply (observes_reachable (fun _ _ logs _ => Forall P logs)); try exact Hw.
  - intros _. constructor.
  - intros en logs ls H. exact H.
  - intros en logs ls H. constructor.
  - intros p client en logs ls H. apply filter_Forall, H.
  - intros entry client logs ls He H. apply unshift_capped_Forall; auto.
  - intros l client en logs ls _ H. exact H.
  - intros p client en logs ls H. exact H.
Qed.

Lemma reachable_run (ops : list Op) (w : World) : reachable w -> reachable (run ops w).
Proof.
  intros (h & t0 & ops0 & ->). exists h, t0, (ops0 ++ ops).
  revert ops. generalize (fst (construct t0 h)).
  induction ops0 as [|o ops0 IH]; intros w ops; [reflexivity|].
  cbn [app run]. apply IH.
Qed.

Lemma reachable_fresh (fetch_result : FetchArgs -> Result Response) :
  reachable (fresh fetch_result).
Proof. exists (pristine_host fetch_result), 0, []. reflexivity. Qed.

(** *** Capture off, buffer empty *)

(** X13: In every state the manager reaches, the buffer holds entries only
    while capture is enabled: with capture off, [getLogs] is empty.  Where
    there is no window, capture is never on, whatever is called:
    [isDebugEnabled] answers false and nothing is ever held. *)
Theorem capture_off_means_buffer_empty :
  forall (w : World),
    reachable w ->
    (_isEnabled (mgr w) = false -> getLogs w = [])
    /\ (isClient (host w) = false ->
        _isEnabled (mgr w) = false /\ isDebugEnabled w = false /\ getLogs w = []).
Proof.
  intros w Hw.
  assert (H : observes (fun client en logs _ =>
                          (en = false -> logs = []) /\ (client = false -> en = false)) w).
  { apply observes_reachable; try exact Hw.
    - intros client. split; reflexivity.
    - intros en logs ls _. split; discriminate.
    - intros en logs ls _. split; [reflexivity | discriminate].
    - intros p client en logs ls [H1 H2]. split; [|exact H2].
      intros Hen. rewrite (H1 Hen). reflexivity.
    - intros entry client logs ls _ [_ H2]. split; [discriminate | exact H2].
    - intros l client en logs ls _ H. exact H.
    - intros p client en logs ls H. exact H. }
  destruct H as [Hempty Hserver]. split; [exact Hempty|].
  intros Hoff. specialize (Hserver Hoff).
  repeat split; [exact Hserver | | apply Hempty, Hserver].
  unfold isDebugEnabled. rewrite Hoff. reflexivity.
Qed.

(** Entries are logged, then capture is switched off. *)
Lemma capture_off_means_buffer_empty_witness :
  let w := run [OpEnableDebug 1;
                OpLog (mkLogCall 2 LInfo CUser (str "click") JUndefined None);
                OpDisableDebug 3] (fresh (fun _ => Throw (NonError 0))) in
  getLogs w = [].
Proof.
  intros w.
  destruct (capture_off_means_buffer_empty w) as [Hempty _].
  - apply reachable_run, reachable_fresh.
  - apply Hempty. reflexivity.
Defined.

(** *** The shape of the stored entries *)

Lemma newlines_app (a b : JsString) :
  newlines (a ++ b) = (newlines a + newlines b)%nat.
Proof. unfold newlines. rewrite List.filter_app, length_app. reflexivity. Qed.

Lemma split_lines_no_newline (s : JsString) :
  Forall (fun line => newlines line = 0%nat) (split_lines s).
Proof.
  induction s as [|c s IH]; cbn [split_lines].
  - repeat constructor.
  - destruct (N.eqb_spec c 10) as [->|Hc].
    + constructor; [reflexivity | exact IH].
    + assert (Hc' : N.eqb 10 c = false) by (apply N.eqb_neq; congruence).
      destruct (split_lines s) as [|line lines].
      * repeat constructor. unfold newlines. cbn [List.filter]. rewrite Hc'. reflexivity.
      * inversion IH as [|? ? Hline Hlines]; subst. constructor; [|exact Hlines].
        unfold newlines in *. cbn [List.filter]. rewrite Hc'. exact Hline.
Qed.

Lemma join_newlines (lines : list JsString) :
  Forall (fun line => newlines line = 0%nat) lines ->
  newlines (join [10%N] lines) = Nat.pred (length lines).
Proof.
  induction 1 as [|p rest Hp Hrest IH]; [reflexivity|].
  destruct rest as [|q rest].
  - cbn [join length Nat.pred]. exact Hp.
  - change (join [10%N] (p :: q :: rest)) with (p ++ [10%N] ++ join [10%N] (q :: rest)).
    rewrite !newlines_app, IH, Hp. reflexivity.
Qed.

Lemma firstn_Forall {A} (P : A -> Prop) (n : nat) (l : list A) :
  Forall P l -> Forall P (firstn n l).
Proof.
  intros H. revert n. induction H as [|a l Ha _ IH]; intros [|n]; cbn [firstn];
    constructor; auto.
Qed.

Lemma made_capped (entry : LogEntry) : made entry -> capped entry.
Proof.
  intros [c Hc]. unfold appended_entry in Hc.
  destruct (if truthy (call_data c) then _ else _) as [truncated|e]; [|discriminate].
  inversion Hc; subst. clear Hc. unfold capped, make_entry. cbn [message trace].
  split; [apply firstn_le_length|].
  destruct (call_trace c) as [[|ch t]|]; try exact I.
  rewrite join_newlines by apply firstn_Forall, split_lines_no_newline.
  pose proof (firstn_le_length 5 (split_lines (ch :: t))). lia.
Qed.

(** X14: Whatever has been logged and however long the messages and stack
    traces were, every entry the buffer holds has a message of at most
    1000 code units and a trace of at most five lines. *)
Theorem stored_entries_are_capped :
  forall (w : World),
    reachable w ->
    Forall (fun entry =>
              (length (message entry) <= 1000)%nat
              /\ forall t, trace entry = Some t -> (newlines t <= 4)%nat)
           (getLogs w).
Proof.
  intros w Hw. apply reachable_entries; [|exact Hw].
  intros entry Hmade. destruct (made_capped entry Hmade) as [Hmsg Htrace].
  split; [exact Hmsg|]. intros t Ht. rewrite Ht in Htrace. exact Htrace.
Qed.

(** A warning with a message of 1500 characters and a trace of 8 lines. *)
Lemma stored_entries_are_capped_witness :
  let long := repeat 97%N 1500 in
  let deep := join [10%N] (repeat (str "at f (app.js:1:1)") 8) in
  let w := run [OpEnableDebug 1;
                OpLog (mkLogCall 2 LWarn CSystem long JUndefined (Some deep))]
               (fresh (fun _ => Throw (NonError 0))) in
  List.map (fun entry => length (message entry)) (getLogs w) = [1000; 18]%nat
  /\ Forall (fun entry => forall t, trace entry = Some t -> (newlines t <= 4)%nat)
            (getLogs w).
Proof.
  intros long deep w.
  pose proof (stored_entries_are_capped w
                (reachable_run _ _ (reachable_fresh _))) as H.
  split; [vm_compute; reflexivity|].
  eapply List.Forall_impl; [|exact H]. intros entry [_ Ht]. exact Ht.
Defined.

Lemma made_serializable (entry : LogEntry) : made entry -> serializable (data entry).
Proof.
  intros [c Hc]. unfold appended_entry in Hc.
  destruct (truthy (call_data c)).
  - destruct (truncateData (call_data c) _maxDataSize) as [truncated|e] eqn:Htr;
      [|discriminate].
    inversion Hc; subst. clear Hc. cbn [data make_entry].
    assert (Hser : serializable (call_data c)).
    { destruct (stringify (call_data c)) as [o|e] eqn:Hs; [eexists; exact Hs|].
      rewrite (TruncationFacts.truncateData_throws _ _ _ Hs) in Htr. discriminate. }
    destruct (TruncationFacts.truncateData_total (call_data c) Hser _maxDataSize)
      as [v' [Hv' Hser']].
    rewrite Hv' in Htr. inversion Htr; subst. exact Hser'.
  - inversion Hc; subst. eexists. reflexivity.
Qed.

(** X15: Every payload the buffer holds is one [JSON.stringify] accepted when
    it was stored, truncated or not: a payload it refuses never enters the
    buffer.  So the debug tab, which prints payloads with [formatData],
    finds none on which the indented printing raises.  (Payloads are
    values here; an object changed by its owner after it was logged is
    outside this statement.) *)
Theorem stored_payloads_are_serializable :
  forall (w : World),
    reachable w ->
    Forall (fun entry =>
              serializable (data entry)
              /\ exists o, Settings.stringify_pretty 0 (data entry) = Ok o)
           (getLogs w).
Proof.
  intros w Hw. apply reachable_entries; [|exact Hw].
  intros entry Hmade. pose proof (made_serializable entry Hmade) as Hser.
  split; [exact Hser|]. apply SettingsFacts.stringify_pretty_returns, Hser.
Qed.

(** A call with a circular payload, which raises, between two calls that
    are stored. *)
Lemma stored_payloads_are_serializable_witness :
  let w := run [OpEnableDebug 1;
                OpLog (mkLogCall 2 LInfo CUser (str "a") (JNumber 7) None);
                OpLog (mkLogCall 3 LInfo CUser (str "b")
                                 (JObject [(str "self", JCycle)]) None);
                OpLog (mkLogCall 4 LInfo CUser (str "c") (JArray [JNull]) None)]
               (fresh (fun _ => Throw (NonError 0))) in
  List.map message (getLogs w) = [str "c"; str "a"; str "Debug Mode Enabled"]
  /\ Forall (fun entry => serializable (data entry)) (getLogs w).
Proof.
  intros w.
  pose proof (stored_payloads_are_serializable w
                (reachable_run _ _ (reachable_fresh _))) as H.
  split; [vm_compute; reflexivity|].
  eapply List.Forall_impl; [|exact H]. intros entry [Hser _]. exact Hser.
Defined.

(** *** The listeners *)

Lemma listener_registered (l : Listener) (ls : list Listener) :
  existsb (fun l' => Nat.eqb (listener_id l') (listener_id l)) ls = true
  <-> In (listener_id l) (List.map listener_id ls).
Proof.
  rewrite existsb_exists, in_map_iff. split.
  - intros [l' [Hin Heq]]. apply Nat.eqb_eq in Heq. eauto.
  - intros [l' [Heq Hin]]. exists l'. split; [exact Hin|]. apply Nat.eqb_eq, Heq.
Qed.

Lemma filter_ids_NoDup (p : Listener -> bool) (ls : list Listener) :
  List.NoDup (List.map listener_id ls) ->
  List.NoDup (List.map listener_id (List.filter p ls)).
Proof.
  induction ls as [|l ls IH]; [intros H; exact H|].
  cbn [List.map List.filter]. intros Hnd.
  inversion Hnd as [|? ? Hl Hls]; subst.
  destruct (p l); [|apply IH, Hls].
  cbn [List.map]. apply List.NoDup_cons; [|apply IH, Hls].
  intros Hin. apply Hl. apply in_map_iff in Hin as [l' [Heq Hin]].
  apply filter_In in Hin. apply in_map_iff. exists l'. tauto.
Qed.

Lemma unsubscribe_fresh (l : Listener) (ls : list Listener) :
  ~ In (listener_id l) (List.map listener_id ls) ->
  List.filter (fun l' => negb (Nat.eqb (listener_id l') (listener_id l))) ls = ls.
Proof.
  intros Hfresh. apply forallb_filter_id, forallb_forall. intros l' Hl'.
  apply negb_true_iff, Nat.eqb_neq. intros Heq. apply Hfresh.
  rewrite <- Heq. apply in_map, Hl'.
Qed.

(** X16: In every state the manager reaches no callback is registered twice,
    so each entry is handed to a callback once.  Registering a callback
    that is registered changes nothing; the function [addListener]
    returns takes the callback out, whenever it is called and however
    often the callback was registered; and for a callback that was not
    registered, subscribing and unsubscribing leaves the listeners as
    they were, in their order. *)
Theorem listeners_are_registered_once :
  forall (w : World) (l : Listener),
    reachable w ->
    let w1 := fst (addListener l w) in
    let w2 := fst (unsubscribe l w1) in
    List.NoDup (List.map listener_id (_listeners (mgr w)))
    /\ In (listener_id l) (List.map listener_id (_listeners (mgr w1)))
    /\ fst (addListener l w1) = w1
    /\ ~ In (listener_id l) (List.map listener_id (_listeners (mgr w2)))
    /\ (~ In (listener_id l) (List.map listener_id (_listeners (mgr w))) ->
        _listeners (mgr w2) = _listeners (mgr w))
    /\ getLogs w2 = getLogs w.
Proof.
  intros w l Hw w1 w2.
  assert (Hnd : List.NoDup (List.map listener_id (_listeners (mgr w)))).
  { apply (observes_reachable (fun _ _ _ ls => List.NoDup (List.map listener_id ls)));
      try exact Hw; auto.
    - intros _. constructor.
    - intros l0 client en logs ls Hex H. rewrite List.map_app.
      apply List.NoDup_app; [exact H | |].
      + apply List.NoDup_cons; [simpl; tauto | apply List.NoDup_nil].
      + intros x Hx [<-|[]]. apply listener_registered in Hx. congruence.
    - intros p client en logs ls H. apply filter_ids_NoDup, H. }
  split; [exact Hnd|].
  assert (Hin1 : In (listener_id l) (List.map listener_id (_listeners (mgr w1)))).
  { subst w1. unfold addListener, modify. cbn [fst mgr on_mgr].
    destruct (existsb _ _) eqn:Hex.
    - apply listener_registered, Hex.
    - cbn [_listeners set_listeners]. rewrite List.map_app. apply in_or_app.
      right. left. reflexivity. }
  split; [exact Hin1|].
  split.
  { unfold addListener at 1. unfold modify. cbn [fst].
    apply listener_registered in Hin1. destruct w1 as [h1 m1].
    unfold on_mgr. cbn [mgr host] in *. rewrite Hin1. reflexivity. }
  split.
  { subst w2. unfold unsubscribe, modify. cbn [fst mgr on_mgr _listeners set_listeners].
    intros Hin. apply in_map_iff in Hin as [l' [Heq Hin]].
    apply filter_In in Hin as [_ Hne].
    apply negb_true_iff, Nat.eqb_neq in Hne. congruence. }
  split.
  { intros Hfresh. subst w2 w1. unfold unsubscribe, addListener, modify.
    cbn [fst mgr on_mgr].
    assert (Hex : existsb (fun l' => Nat.eqb (listener_id l') (listener_id l))
                          (_listeners (mgr w)) = false).
    { destruct (existsb _ _) eqn:Hex; [|reflexivity].
      apply listener_registered in Hex. contradiction. }
    rewrite Hex. cbn [_listeners set_listeners].
    rewrite List.filter_app, (unsubscribe_fresh l _ Hfresh). cbn [List.filter].
    rewrite Nat.eqb_refl. cbn [negb]. apply app_nil_r. }
  subst w2 w1. unfold unsubscribe, addListener, modify, getLogs.
  cbn [fst mgr on_mgr]. destruct (existsb _ _); reflexivity.
Qed.

(** One callback registered twice next to another. *)
Lemma listeners_are_registered_once_witness :
  let first := {| listener_id := 1; listener_run := fun _ => None |} in
  let second := {| listener_id := 2; listener_run := fun _ => None |} in
  let w := run [OpAddListener first; OpAddListener second; OpAddListener first]
               (fresh (fun _ => Throw (NonError 0))) in
  List.NoDup (List.map listener_id (_listeners (mgr w)))
  /\ List.map listener_id (_listeners (mgr w)) = [1; 2]%nat
  /\ ~ In 1%nat (List.map listener_id
                   (_listeners (mgr (fst (unsubscribe first (fst (addListener first w))))))).
Proof.
  intros first second w.
  destruct (listeners_are_registered_once w first
              (reachable_run _ _ (reachable_fresh _))) as (Hnd & _ & _ & Hgone & _).
  split; [exact Hnd|]. split; [reflexivity | exact Hgone].
Defined.

(** ** Switching capture on and off *)

Lemma logged_iff (w w' : World) :
  logged w w'
  <-> exists handed_out logs,
        host w' = set_delivered handed_out (host w) /\ mgr w' = set_logs logs (mgr w).
Proof.
  split.
  - intros [Hh Hm]. eauto.
  - intros (d & l & Hh & Hm). unfold logged. rewrite Hh, Hm.
    destruct w as [h m]. destruct h, m. split; reflexivity.
Qed.

(** A call of [_log] changes nothing but the buffer and what the
    listeners were handed, whether it returns or raises. *)
Lemma log_logged now lvl cat msg payload tr (w : World) :
  logged w (fst (_log now lvl cat msg payload tr w)).
Proof.
  apply (keeps_log (logged w)); [| |apply logged_refl].
  - intros d w' H. apply logged_iff in H as (d0 & l0 & Hh & Hm). apply logged_iff.
    exists (d (host w')), l0. cbn [host mgr on_host]. rewrite Hh at 2.
    split; [|exact Hm]. destruct (host w). reflexivity.
  - intros entry w' H. apply logged_iff in H as (d0 & l0 & Hh & Hm). apply logged_iff.
    exists d0, (unshift_capped entry (_logs (mgr w'))). cbn [host mgr on_mgr].
    split; [exact Hh|]. rewrite Hm at 2. destruct (mgr w). reflexivity.
Qed.

Lemma logged_peaceful (w w' : World) : logged w w' -> peaceful w -> peaceful w'.
Proof. intros [_ Hm] Hp. unfold peaceful in *. rewrite Hm. exact Hp. Qed.

Lemma logged_on_host (f : Host -> Host) (a b : World) :
  (forall d h, f (set_delivered d h) = set_delivered d (f h)) ->
  logged a b -> logged (on_host f a) (on_host f b).
Proof.
  intros Hcomm H. apply logged_iff in H as (d & l & Hh & Hm). apply logged_iff.
  exists d, l. cbn [host mgr on_host]. rewrite Hh, Hcomm. auto.
Qed.

Lemma logged_on_mgr (g : DebugManager -> DebugManager) (a b : World) :
  (forall l m, g (set_logs l m) = set_logs l (g m)) ->
  logged a b -> logged (on_mgr g a) (on_mgr g b).
Proof.
  intros Hcomm H. apply logged_iff in H as (d & l & Hh & Hm). apply logged_iff.
  exists d, l. cbn [host mgr on_mgr]. rewrite Hm, Hcomm. auto.
Qed.

Lemma logged_flag_written (value : JsString) (a b : World) :
  logged a b -> logged (flag_written value a) (flag_written value b).
Proof.
  intros H. apply logged_iff in H as (d & l & Hh & Hm). apply logged_iff.
  exists d, l. unfold flag_written. cbn [host mgr on_host]. rewrite Hh.
  split; [|exact Hm]. destruct (host a). reflexivity.
Qed.

Lemma logged_intercepted (a b : World) :
  logged a b -> logged (intercepted a) (intercepted b).
Proof.
  intros H. apply logged_iff in H as (d & l & Hh & Hm). apply logged_iff.
  exists d, l. destruct a as [ha ma], b as [hb mb]. cbn [host mgr] in Hh, Hm.
  subst hb mb. destruct ha, ma. unfold intercepted, assign_setItem.
  cbn -[str store_item].
  destruct localStorage_setItem0, cookie_descriptor_throws0; split; reflexivity.
Qed.

Lemma logged_timer_started (a b : World) :
  logged a b -> logged (timer_started a) (timer_started b).
Proof.
  intros H. apply logged_iff in H as (d & l & Hh & Hm). apply logged_iff.
  exists d, l. destruct a as [ha ma], b as [hb mb]. cbn [host mgr] in Hh, Hm.
  subst hb mb. destruct ha, ma. split; reflexivity.
Qed.

(** Among listeners that return, a call of [localStorage.setItem] stores
    the item, through however many wrappers. *)
Lemma call_setItem_world impl now key value (w : World) :
  peaceful w ->
  exists w',
    call_setItem impl now key value w = (w', Ok tt)
    /\ logged (on_host (fun h => set_items (store_item key value (localStorage_items h)) h) w)
              w'.
Proof.
  revert w. induction impl as [|original IH|]; intros w Hp; cbn [call_setItem].
  - eexists. split; [reflexivity | apply logged_refl].
  - unfold bind.
    destruct (log_calm now LInfo CState (str "LocalStorage Update") _ None w
                (fun _ => Hp) (serializable_storage_update key value))
      as [w1 [Hlog [L1 _]]].
    rewrite Hlog.
    destruct (IH w1 (logged_peaceful w w1 L1 Hp)) as [w2 [Hcall L2]].
    exists w2. split; [exact Hcall|].
    eapply logged_trans; [|exact L2].
    apply logged_iff in L1 as (d & l & Hh & Hm). apply logged_iff.
    exists d, l. cbn [host mgr on_host]. rewrite Hh.
    split; [|exact Hm]. destruct (host w). reflexivity.
  - eexists. split; [reflexivity | apply logged_refl].
Qed.

Lemma assign_setItem_fields (h : Host) :
  isClient (assign_setItem h) = isClient h
  /\ window_fetch (assign_setItem h) = window_fetch h
  /\ console (assign_setItem h) = console h
  /\ window_onerror (assign_setItem h) = window_onerror h
  /\ window_onunhandledrejection (assign_setItem h) = window_onunhandledrejection h
  /\ document_cookie (assign_setItem h) = document_cookie h
  /\ cookie_descriptor_throws (assign_setItem h) = cookie_descriptor_throws h
  /\ intervals (assign_setItem h) = intervals h
  /\ next_interval (assign_setItem h) = next_interval h.
Proof. unfold assign_setItem. destruct (localStorage_setItem h); repeat split. Qed.

Lemma assign_setItem_throws (h : Host) :
  cookie_descriptor_throws (assign_setItem h) = cookie_descriptor_throws h.
Proof. apply assign_setItem_fields. Qed.

(** [_setupDebugMode] in a browser, among listeners that return while
    capture is enabled. *)
Lemma setupDebugMode_world now (w : World) :
  isClient (host w) = true -> calm w ->
  exists w', _setupDebugMode now w = (w', Ok tt) /\ logged (intercepted w) w'.
Proof.
  intros Hclient Hcalm. unfold _setupDebugMode. rewrite Hclient. cbn [negb].
  unfold bind, _interceptNetworkCalls, _interceptConsole, _setupErrorListeners,
    _monitorStateChanges, modify, bind.
  cbn [host mgr on_host on_mgr isClient set_window_fetch set_console
       set_error_handlers set_setItem cookie_descriptor_throws].
  rewrite Hclient. cbn [negb].
  cbn [host mgr on_host on_mgr isClient set_window_fetch set_console
       set_error_handlers set_setItem cookie_descriptor_throws].
  rewrite Hclient. cbn [negb].
  cbn [host mgr on_host on_mgr isClient set_window_fetch set_console
       set_error_handlers set_setItem cookie_descriptor_throws].
  unfold intercepted.
  cbn [host mgr on_host on_mgr isClient set_window_fetch set_console
       set_error_handlers set_setItem cookie_descriptor_throws].
  match goal with
  | |- context [cookie_descriptor_throws ?h] => destruct (cookie_descriptor_throws h)
  end.
  - match goal with
    | |- exists w', _log _ _ _ _ _ _ ?x = _ /\ _ =>
        destruct (log_calm now LWarn CSystem (str "Failed to set up cookie monitoring")
                    JUndefined None x Hcalm) as [w' [Hlog [L _]]];
          [eexists; reflexivity|]
    end.
    exists w'. split; [exact Hlog | exact L].
  - eexists. split; [reflexivity | apply logged_refl].
Qed.

Lemma setupDebugMode_exact now (w : World) :
  isClient (host w) = true -> cookie_descriptor_throws (host w) = false ->
  _setupDebugMode now w = (intercepted w, Ok tt).
Proof.
  intros Hclient Hquiet. unfold _setupDebugMode. rewrite Hclient. cbn [negb].
  unfold bind, _interceptNetworkCalls, _interceptConsole, _setupErrorListeners,
    _monitorStateChanges, modify, bind.
  cbn [host mgr on_host on_mgr isClient set_window_fetch set_console
       set_error_handlers set_setItem cookie_descriptor_throws].
  rewrite Hclient. cbn [negb].
  cbn [host mgr on_host on_mgr isClient set_window_fetch set_console
       set_error_handlers set_setItem cookie_descriptor_throws].
  rewrite Hclient. cbn [negb].
  cbn [host mgr on_host on_mgr isClient set_window_fetch set_console
       set_error_handlers set_setItem cookie_descriptor_throws].
  unfold intercepted.
  cbn [host mgr on_host on_mgr isClient set_window_fetch set_console
       set_error_handlers set_setItem cookie_descriptor_throws].
  rewrite assign_setItem_throws.
  cbn [set_window_fetch set_console set_error_handlers cookie_descriptor_throws].
  rewrite Hquiet. reflexivity.
Qed.

Lemma intercepted_mgr (w : World) :
  mgr (intercepted w) = set_originalFetch (Some (window_fetch (host w))) (mgr w).
Proof.
  unfold intercepted. destruct (cookie_descriptor_throws _); reflexivity.
Qed.

(** While capture is enabled, the entry a call of [_log] on a
    serializable payload leaves at the head of the buffer. *)
Lemma log_calm_appended now lvl cat msg payload tr (w : World) :
  calm w -> serializable payload -> _isEnabled (mgr w) = true ->
  exists entry,
    appended_entry (mkLogCall now lvl cat msg payload tr) = Some entry
    /\ hd_error (getLogs (fst (_log now lvl cat msg payload tr w))) = Some entry.
Proof.
  intros Hcalm Hser Hen. unfold _log, appended_entry. rewrite Hen.
  cbn [negb call_data call_now call_level call_category call_message call_trace].
  assert (Htr : exists truncated,
            (if truthy payload then truncateData payload _maxDataSize
             else Ok JUndefined) = Ok truncated).
  { destruct (truthy payload); [|eauto].
    destruct (TruncationFacts.truncateData_total payload Hser _maxDataSize)
      as [v' [Hv' _]]. eauto. }
  destruct Htr as [truncated Htr]. rewrite Htr.
  set (entry := make_entry now lvl cat msg truncated tr).
  exists entry. split; [reflexivity|].
  change (on_mgr _ w) with (stored entry w).
  change (_listeners (mgr (stored entry w))) with (_listeners (mgr w)).
  rewrite notify_all.
  - apply unshift_capped_hd.
  - specialize (Hcalm Hen). eapply List.Forall_impl; [|exact Hcalm].
    intros l Hl. apply Hl.
Qed.

(** [enableDebug] in a browser, among listeners that return: it runs to
    its end and leaves [switched_on], with the notice at the head of the
    buffer. *)
Lemma enableDebug_world now (w : World) :
  isClient (host w) = true -> peaceful w ->
  exists w',
    enableDebug now w = (w', Ok tt)
    /\ logged (switched_on w) w'
    /\ exists entry,
         hd_error (getLogs w') = Some entry
         /\ timestamp entry = now /\ level entry = LInfo
         /\ category entry = CSystem
         /\ message entry = firstn 1000 (str "Debug Mode Enabled")
         /\ appended_entry
              (mkLogCall now LInfo CSystem (str "Debug Mode Enabled")
                 (JObject [(str "timestamp", JString (toISOString now));
                           (str "userAgent", JString (userAgent (host w)))]) None)
            = Some entry.
Proof.
  intros Hclient Hp. unfold enableDebug. rewrite Hclient. cbn [negb].
  generalize (userAgent (host w)). intros ua.
  unfold bind at 1. unfold modify at 1.
  set (w0 := on_mgr (set_isEnabled true) w).
  assert (Hp0 : peaceful w0) by exact Hp.
  unfold bind at 1. unfold localStorage_setItem_call.
  destruct (call_setItem_world (localStorage_setItem (host w0)) now
              (str "devDebugEnabled") (str "true") w0 Hp0) as [w1 [Hcall L1]].
  rewrite Hcall.
  assert (Hp1 : peaceful w1).
  { eapply logged_peaceful; [exact L1 | exact Hp0]. }
  assert (Hc1 : isClient (host w1) = true).
  { destruct L1 as [Hh _]. rewrite Hh. exact Hclient. }
  unfold bind at 1.
  destruct (setupDebugMode_world now w1 Hc1 (fun _ => Hp1)) as [w2 [Hsetup L2]].
  rewrite Hsetup.
  assert (Hp2 : peaceful w2).
  { eapply logged_peaceful; [exact L2|].
    unfold peaceful. rewrite intercepted_mgr. exact Hp1. }
  unfold bind at 1. unfold setInterval at 1.
  unfold bind at 1. unfold modify at 1.
  change (on_mgr (set_cleanupInterval (Some (next_interval (host w2))))
            (on_host (fun h => set_intervals (intervals h ++ [next_interval (host w2)])
                                 (S (next_interval (host w2))) h) w2))
    with (timer_started w2).
  assert (Hp3 : peaceful (timer_started w2)) by exact Hp2.
  assert (Hen3 : _isEnabled (mgr (timer_started w2)) = true).
  { change (_isEnabled (mgr w2) = true).
    rewrite (logged_isEnabled _ _ L2), intercepted_mgr.
    cbn [_isEnabled set_originalFetch].
    rewrite (logged_isEnabled _ _ L1). reflexivity. }
  destruct (log_calm_appended now LInfo CSystem (str "Debug Mode Enabled")
              (JObject [(str "timestamp", JString (toISOString now));
                        (str "userAgent", JString ua)])
              None (timer_started w2) (fun _ => Hp3)
              (serializable_enabled_notice now ua) Hen3) as [entry' [Happ Hhd']].
  destruct (log_calm now LInfo CSystem (str "Debug Mode Enabled")
              (JObject [(str "timestamp", JString (toISOString now));
                        (str "userAgent", JString ua)])
              None (timer_started w2) (fun _ => Hp3)
              (serializable_enabled_notice now ua)) as [w4 [Hlog [L4 Hhead]]].
  rewrite Hlog in Hhd'. cbn [fst] in Hhd'.
  rewrite Hlog. exists w4. split; [reflexivity|]. split.
  - eapply logged_trans; [|exact L4]. unfold switched_on.
    apply logged_timer_started.
    eapply logged_trans; [|exact L2].
    apply logged_intercepted. exact L1.
  - destruct (Hhead Hen3) as [entry (H1 & H2 & H3 & H4 & H5)].
    exists entry. repeat split; try assumption. congruence.
Qed.

(** [disableDebug] in a browser: it always runs to its end, and leaves
    [switched_off]. *)
Lemma disableDebug_world now (w : World) :
  isClient (host w) = true -> disableDebug now w = (switched_off w, Ok tt).
Proof.
  intros Hclient. unfold disableDebug. rewrite Hclient. cbn [negb].
  unfold bind, modify, localStorage_setItem_call. cbn [host on_mgr].
  rewrite call_setItem_disabled by reflexivity.
  unfold _teardownDebugMode. cbn [host on_host on_mgr isClient set_items].
  rewrite Hclient. cbn [negb].
  unfold bind, _restoreNetworkCalls, _restoreConsole, _removeErrorListeners, modify.
  unfold switched_off, flag_written.
  cbn [mgr on_host on_mgr set_isEnabled _originalFetch].
  destruct (_originalFetch (mgr w));
    cbn [host mgr on_host on_mgr isClient set_items set_window_fetch set_console];
    rewrite Hclient; reflexivity.
Qed.

Lemma logged_fields (a b : World) :
  logged a b ->
  (isClient (host b) = isClient (host a)
   /\ window_fetch (host b) = window_fetch (host a)
   /\ console (host b) = console (host a)
   /\ window_onerror (host b) = window_onerror (host a)
   /\ window_onunhandledrejection (host b) = window_onunhandledrejection (host a)
   /\ localStorage_setItem (host b) = localStorage_setItem (host a)
   /\ document_cookie (host b) = document_cookie (host a)
   /\ localStorage_items (host b) = localStorage_items (host a)
   /\ cookie_writes (host b) = cookie_writes (host a)
   /\ intervals (host b) = intervals (host a)
   /\ next_interval (host b) = next_interval (host a)
   /\ network_calls (host b) = network_calls (host a)
   /\ console_output (host b) = console_output (host a))
  /\ (_isEnabled (mgr b) = _isEnabled (mgr a)
      /\ _listeners (mgr b) = _listeners (mgr a)
      /\ _originalFetch (mgr b) = _originalFetch (mgr a)
      /\ _originalConsole (mgr b) = _originalConsole (mgr a)
      /\ _cleanupInterval (mgr b) = _cleanupInterval (mgr a)).
Proof.
  intros H. apply logged_iff in H as (d & l & Hh & Hm). rewrite Hh, Hm.
  repeat split.
Qed.

Lemma switched_on_fields (w : World) :
  let w' := switched_on w in
  (isClient (host w') = isClient (host w)
   /\ window_fetch (host w') = DebugFetch
   /\ console (host w')
      = mkConsole DebugConsole DebugConsole DebugConsole DebugConsole
   /\ window_onerror (host w') = Some DebugHandler
   /\ window_onunhandledrejection (host w') = Some DebugHandler
   /\ localStorage_setItem (host w')
      = match localStorage_setItem (host w) with
        | StorageMethod => StorageMethod
        | original => DebugSetItem original
        end
   /\ document_cookie (host w')
      = (if cookie_descriptor_throws (host w) then document_cookie (host w)
         else DebugCookieSetter)
   /\ localStorage_items (host w')
      = (let items := store_item (str "devDebugEnabled") (str "true")
                                 (localStorage_items (host w)) in
         match localStorage_setItem (host w) with
         | StorageMethod =>
             store_item (str "setItem") (setItem_wrapper_text (host w)) items
         | _ => items
         end)
   /\ cookie_writes (host w') = cookie_writes (host w)
   /\ intervals (host w') = intervals (host w) ++ [next_interval (host w)]
   /\ next_interval (host w') = S (next_interval (host w))
   /\ network_calls (host w') = network_calls (host w)
   /\ console_output (host w') = console_output (host w))
  /\ (_isEnabled (mgr w') = true
      /\ _listeners (mgr w') = _listeners (mgr w)
      /\ _originalFetch (mgr w') = Some (window_fetch (host w))
      /\ _originalConsole (mgr w') = _originalConsole (mgr w)
      /\ _cleanupInterval (mgr w') = Some (next_interval (host w))).
Proof.
  destruct w as [h m]. destruct h, m.
  destruct localStorage_setItem0, cookie_descriptor_throws0; repeat split.
Qed.

Lemma getItem_store_item (key value : JsString) (items : list (JsString * JsString)) :
  getItem key (store_item key value items) = Some value.
Proof.
  induction items as [|[k v] items IH]; cbn [store_item getItem].
  - destruct (decide (key = key)); [reflexivity | contradiction].
  - destruct (decide (k = key)) as [->|Hk]; cbn [getItem].
    + destruct (decide (key = key)); [reflexivity | contradiction].
    + destruct (decide (k = key)); [contradiction | exact IH].
Qed.

Lemma getItem_store_other (key other value : JsString)
  (items : list (JsString * JsString)) :
  other <> key -> getItem other (store_item key value items) = getItem other items.
Proof.
  intros Hne. induction items as [|[k v] items IH]; cbn [store_item getItem].
  - destruct (decide (key = other)); [congruence | reflexivity].
  - destruct (decide (k = key)) as [->|Hk]; cbn [getItem].
    + destruct (decide (key = other)); [congruence | reflexivity].
    + destruct (decide (k = other)); [reflexivity | exact IH].
Qed.

Lemma store_item_twice (key value : JsString) (items : list (JsString * JsString)) :
  store_item key value (store_item key value items) = store_item key value items.
Proof.
  induction items as [|[k v] items IH]; cbn [store_item].
  - destruct (decide (key = key)); [reflexivity | contradiction].
  - destruct (decide (k = key)) as [->|Hk]; cbn [store_item].
    + destruct (decide (key = key)); [reflexivity | contradiction].
    + destruct (decide (k = key)); [contradiction | rewrite IH; reflexivity].
Qed.

Lemma switched_on_flag (w : World) :
  getItem (str "devDebugEnabled") (localStorage_items (host (switched_on w)))
  = Some (str "true").
Proof.
  destruct (switched_on_fields w) as [(_ & _ & _ & _ & _ & _ & _ & S8 & _) _].
  cbn zeta in S8. rewrite S8. destruct (localStorage_setItem (host w)).
  - apply getItem_store_item.
  - apply getItem_store_item.
  - rewrite getItem_store_other by (intros E; vm_compute in E; discriminate).
    apply getItem_store_item.
Qed.

(** X17: In a browser, among listeners that return, [enableDebug] runs to its
    end: capture is on, [window.fetch] is the wrapper with the previous
    function saved as the original, the four console methods and both
    error handlers are the manager's, whatever they were before, the
    cookie setter is the manager's unless reading the descriptor raised,
    'devDebugEnabled' is stored as 'true', one more timer is scheduled
    with its handle kept and the listeners are untouched.  The assignment
    to [localStorage.setItem] installs nothing on the platform's
    [Storage]: the method stays the platform's and the text of the arrow
    function is stored under the key 'setItem'; on an ordinary object the
    function found there is wrapped once more.  The entry
    'Debug Mode Enabled' at the head of the buffer is built from the
    instant as an ISO text and the user agent. *)
Theorem enableDebug_installs_the_interceptors :
  forall (now : Z) (w : World),
    isClient (host w) = true ->
    peaceful w ->
    let w' := fst (enableDebug now w) in
    snd (enableDebug now w) = Ok tt
    /\ _isEnabled (mgr w') = true
    /\ window_fetch (host w') = DebugFetch
    /\ _originalFetch (mgr w') = Some (window_fetch (host w))
    /\ console (host w') = mkConsole DebugConsole DebugConsole DebugConsole DebugConsole
    /\ window_onerror (host w') = Some DebugHandler
    /\ window_onunhandledrejection (host w') = Some DebugHandler
    /\ match localStorage_setItem (host w) with
       | StorageMethod =>
           localStorage_setItem (host w') = StorageMethod
           /\ getItem (str "setItem") (localStorage_items (host w'))
              = Some (setItem_wrapper_text (host w))
       | original => localStorage_setItem (host w') = DebugSetItem original
       end
    /\ document_cookie (host w')
       = (if cookie_descriptor_throws (host w) then document_cookie (host w)
          else DebugCookieSetter)
    /\ getItem (str "devDebugEnabled") (localStorage_items (host w')) = Some (str "true")
    /\ intervals (host w') = intervals (host w) ++ [next_interval (host w)]
    /\ _cleanupInterval (mgr w') = Some (next_interval (host w))
    /\ _listeners (mgr w') = _listeners (mgr w)
    /\ exists entry,
         hd_error (getLogs w') = Some entry
         /\ timestamp entry = now /\ level entry = LInfo /\ category entry = CSystem
         /\ message entry = str "Debug Mode Enabled"
         /\ appended_entry
              (mkLogCall now LInfo CSystem (str "Debug Mode Enabled")
                 (JObject [(str "timestamp", JString (toISOString now));
                           (str "userAgent", JString (userAgent (host w)))]) None)
            = Some entry.
Proof.
  intros now w Hclient Hp w'. subst w'.
  destruct (enableDebug_world now w Hclient Hp) as [w' [Hrun [L Hhead]]].
  rewrite Hrun. cbn [fst snd].
  destruct (logged_fields _ _ L)
    as [(_ & H2 & H3 & H4 & H5 & H6 & H7 & H8 & _ & H10 & _ & _ & _)
        (M1 & M2 & M3 & _ & M5)].
  destruct (switched_on_fields w)
    as [(_ & S2 & S3 & S4 & S5 & S6 & S7 & S8 & _ & S10 & _ & _ & _)
        (N1 & N2 & N3 & _ & N5)].
  cbn zeta in *.
  assert (Hflag : getItem (str "devDebugEnabled") (localStorage_items (host w'))
                  = Some (str "true")).
  { rewrite H8. apply switched_on_flag. }
  split; [reflexivity|]. split; [congruence|]. split; [congruence|].
  split; [congruence|]. split; [congruence|]. split; [congruence|].
  split; [congruence|]. split.
  { rewrite H6, S6, H8, S8. destruct (localStorage_setItem (host w)).
    - reflexivity.
    - reflexivity.
    - split; [reflexivity | apply getItem_store_item]. }
  split; [congruence|]. split; [exact Hflag|]. split; [congruence|].
  split; [congruence|]. split; [congruence|].
  destruct Hhead as [entry (E1 & E2 & E3 & E4 & E5 & E6)].
  exists entry. repeat split; assumption.
Qed.

(** A browser in which the application has its own [window.onerror]. *)
Lemma enableDebug_installs_the_interceptors_witness :
  let h := set_error_handlers (Some (AppHandler 7)) None
             (browser_host (fun _ => Throw (NonError 0))) in
  let w := fst (construct 0 h) in
  let w' := fst (enableDebug 1 w) in
  window_onerror (host w) = Some (AppHandler 7)
  /\ window_onerror (host w') = Some DebugHandler
  /\ _originalFetch (mgr w') = Some NativeFetch
  /\ localStorage_setItem (host w') = StorageMethod
  /\ getItem (str "setItem") (localStorage_items (host w')) = Some (str "(key,value)=>{...}")
  /\ List.map data (firstn 1 (getLogs w'))
     = [JObject [(str "timestamp", JString (str "1970-01-01T00:00:00.001Z"));
                 (str "userAgent", JString (str "Mozilla/5.0"))]].
Proof.
  intros h w w'.
  destruct (enableDebug_installs_the_interceptors 1 w)
    as (_ & _ & _ & Horig & _ & Herr & _ & [Hmethod Htext] & _).
  - reflexivity.
  - constructor.
  - split; [reflexivity|]. split; [exact Herr|]. split; [exact Horig|].
    split; [exact Hmethod|]. split; [exact Htext|]. vm_compute. reflexivity.
Defined.

Lemma switched_off_twice (w : World) : switched_off (switched_off w) = switched_off w.
Proof.
  destruct w as [h m]. destruct h, m. unfold switched_off, flag_written.
  destruct _originalFetch0; cbv -[str store_item]; rewrite store_item_twice;
    reflexivity.
Qed.

(** X18: In a browser [disableDebug] always runs to its end, whatever the
    listeners do.  It puts [window.fetch] back to the saved original and
    forgets it, puts the console methods back to those of the time the
    manager was created, and sets both error handlers to null: a handler
    the application had before debug mode was switched on is not put
    back.  'devDebugEnabled' is stored as 'false' and the listeners stay
    registered.  Switching off a second time changes nothing. *)
Theorem disableDebug_resets_handlers_and_keeps_listeners :
  forall (now later : Z) (w : World),
    isClient (host w) = true ->
    let w' := fst (disableDebug now w) in
    snd (disableDebug now w) = Ok tt
    /\ window_fetch (host w') = default (window_fetch (host w)) (_originalFetch (mgr w))
    /\ _originalFetch (mgr w') = None
    /\ console (host w') = _originalConsole (mgr w)
    /\ window_onerror (host w') = None
    /\ window_onunhandledrejection (host w') = None
    /\ getItem (str "devDebugEnabled") (localStorage_items (host w')) = Some (str "false")
    /\ _listeners (mgr w') = _listeners (mgr w)
    /\ delivered (host w') = delivered (host w)
    /\ disableDebug later w' = (w', Ok tt).
Proof.
  intros now later w Hclient w'. subst w'.
  rewrite (disableDebug_world now w Hclient). cbn [fst snd].
  assert (Hclient' : isClient (host (switched_off w)) = true).
  { destruct w as [h m]. destruct h, m. cbn in Hclient. subst.
    unfold switched_off, flag_written. destruct _originalFetch0; reflexivity. }
  rewrite (disableDebug_world later _ Hclient'), switched_off_twice.
  destruct w as [h m]. destruct h, m. unfold switched_off, flag_written.
  destruct _originalFetch0; cbv -[str store_item getItem]; repeat split;
    apply getItem_store_item.
Qed.

(** The application's [window.onerror] is gone after debug mode has been
    switched on and off. *)
Lemma disableDebug_resets_handlers_and_keeps_listeners_witness :
  let h := set_error_handlers (Some (AppHandler 7)) None
             (pristine_host (fun _ => Throw (NonError 0))) in
  let w := run [OpEnableDebug 1] (fst (construct 0 h)) in
  window_onerror (host (fst (disableDebug 2 w))) = None
  /\ window_fetch (host (fst (disableDebug 2 w))) = NativeFetch.
Proof.
  intros h w.
  destruct (disableDebug_resets_handlers_and_keeps_listeners 2 3 w)
    as (_ & Hfetch & _ & _ & Herr & _).
  - reflexivity.
  - split; [exact Herr|]. rewrite Hfetch. reflexivity.
Defined.

Lemma switched_off_fields (w : World) :
  let w' := switched_off w in
  isClient (host w') = isClient (host w)
  /\ window_fetch (host w') = default (window_fetch (host w)) (_originalFetch (mgr w))
  /\ console (host w') = _originalConsole (mgr w)
  /\ window_onerror (host w') = None
  /\ window_onunhandledrejection (host w') = None
  /\ localStorage_setItem (host w') = localStorage_setItem (host w)
  /\ document_cookie (host w') = document_cookie (host w)
  /\ (forall key, key <> str "devDebugEnabled" ->
      getItem key (localStorage_items (host w')) = getItem key (localStorage_items (host w))).
Proof.
  destruct w as [h m]. destruct h, m. unfold switched_off, flag_written.
  destruct _originalFetch0; cbv -[str store_item getItem]; repeat split;
    intros key Hkey; apply getItem_store_other; exact Hkey.
Qed.

(** C6: at the input enable, disable, in a browser.  The teardown has put
    back [fetch], the console methods and the error handlers, but the
    accessor the manager defined on [document.cookie] is still in place:
    [_teardownDebugMode] never removes it, and every later assignment to
    [document.cookie] goes through the manager's setter.  The platform's
    [localStorage.setItem] was never replaced; the text stored under the
    key 'setItem' by the assignment to it is left behind too.  The
    accessor is defined over the setter of [Document.prototype] each
    time, so a cookie assignment after a second enable is logged once.
    In general, from any browser among listeners that return, one enable
    and one disable leave the cookie accessor the manager's while the
    other interceptors are taken away. *)
Theorem disableDebug_leaves_cookie_setter_wrapped :
  forall (fetch_result : FetchArgs -> Result Response),
    let w0 := fst (construct 0 (browser_host fetch_result)) in
    let w1 := run [OpEnableDebug 1; OpDisableDebug 2] w0 in
    let w2 := run [OpEnableDebug 3] w1 in
    let w3 := run [OpCookieWrite 4 (str "theme=dark")] w2 in
    (document_cookie (host w0) = ProtoCookieSetter
     /\ (window_fetch (host w1) = NativeFetch
         /\ console (host w1) = console (host w0)
         /\ window_onerror (host w1) = None
         /\ window_onunhandledrejection (host w1) = None)
     /\ document_cookie (host w1) = DebugCookieSetter
     /\ (localStorage_setItem (host w1) = StorageMethod
         /\ List.map fst (localStorage_items (host w1))
            = [str "devDebugEnabled"; str "setItem"])
     /\ document_cookie (host w2) = DebugCookieSetter
     /\ List.map message (getLogs w3) = [str "Cookie Update"; str "Debug Mode Enabled"]
     /\ cookie_writes (host w3) = [str "theme=dark"])
    /\ forall (t_on t_off : Z) (w : World),
         isClient (host w) = true ->
         peaceful w ->
         cookie_descriptor_throws (host w) = false ->
         let w' := fst (disableDebug t_off (fst (enableDebug t_on w))) in
         (window_fetch (host w') = window_fetch (host w)
          /\ console (host w') = _originalConsole (mgr w)
          /\ window_onerror (host w') = None
          /\ window_onunhandledrejection (host w') = None)
         /\ document_cookie (host w') = DebugCookieSetter
         /\ (localStorage_setItem (host w) = StorageMethod ->
             localStorage_setItem (host w') = StorageMethod
             /\ getItem (str "setItem") (localStorage_items (host w'))
                = Some (setItem_wrapper_text (host w))).
Proof.
  intros fetch_result w0 w1 w2 w3. split.
  - vm_compute. repeat split.
  - intros t_on t_off w Hclient Hp Hquiet w'. subst w'.
    destruct (enableDebug_world t_on w Hclient Hp) as [wa [Hrun [L _]]].
    rewrite Hrun. cbn [fst].
    destruct (logged_fields _ _ L)
      as [(H1 & H2 & H3 & H4 & H5 & H6 & H7 & H8 & _) (_ & _ & M3 & M4 & _)].
    destruct (switched_on_fields w)
      as [(S1 & S2 & S3 & S4 & S5 & S6 & S7 & S8 & _) (_ & _ & N3 & N4 & _)].
    cbn zeta in *.
    assert (Hclient' : isClient (host wa) = true) by congruence.
    rewrite (disableDebug_world t_off wa Hclient'). cbn [fst].
    destruct (switched_off_fields wa) as (_ & F2 & F3 & F4 & F5 & F6 & F7 & F8).
    cbn zeta in *.
    split.
    { rewrite F2, F3, F4, F5, M3, N3, M4, N4. repeat split. }
    split.
    { rewrite F7, H7, S7, Hquiet. reflexivity. }
    intros Hmethod. rewrite F6, H6, S6, Hmethod. split; [reflexivity|].
    rewrite F8 by (intros E; vm_compute in E; discriminate).
    rewrite H8, S8, Hmethod. apply getItem_store_item.
Qed.

(** A browser in which the application installed nothing of its own. *)
Lemma disableDebug_leaves_cookie_setter_wrapped_witness :
  let w := fst (construct 0 (browser_host (fun _ => Throw (NonError 0)))) in
  let w' := fst (disableDebug 2 (fst (enableDebug 1 w))) in
  document_cookie (host w) = ProtoCookieSetter
  /\ document_cookie (host w') = DebugCookieSetter
  /\ window_fetch (host w') = NativeFetch
  /\ localStorage_setItem (host w') = StorageMethod.
Proof.
  intros w w'.
  destruct (disableDebug_leaves_cookie_setter_wrapped (fun _ => Throw (NonError 0)))
    as [_ Hgeneral].
  destruct (Hgeneral 1 2 w) as ((Hfetch & _) & Hcookie & Hstorage).
  - reflexivity.
  - constructor.
  - reflexivity.
  - split; [reflexivity|]. split; [exact Hcookie|]. split; [exact Hfetch|].
    exact (proj1 (Hstorage eq_refl)).
Defined.

Lemma enableDebug_installs_flag now (x : World) :
  isClient (host x) = true -> peaceful x ->
  getItem (str "devDebugEnabled") (localStorage_items (host (fst (enableDebug now x))))
  = Some (str "true")
  /\ snd (enableDebug now x) = Ok tt.
Proof.
  intros Hclient Hp.
  destruct (enableDebug_world now x Hclient Hp) as [w' [Hrun [L _]]].
  rewrite Hrun. cbn [fst snd]. split; [|reflexivity].
  destruct (logged_fields _ _ L) as [(_ & _ & _ & _ & _ & _ & _ & H8 & _) _].
  rewrite H8. apply switched_on_flag.
Qed.

(** ** Switching on twice *)

Lemma fetch_wrapper_loops depth started settled requestId args :
  forall w : World,
    _originalFetch (mgr w) = Some DebugFetch -> calm w ->
    exists w',
      _fetch depth started settled requestId args w = (w', Throw call_stack_exceeded)
      /\ logged w w'.
Proof.
  induction depth as [|depth IH]; intros w Horig Hcalm; cbn [_fetch];
    unfold try_catch, bind;
    destruct (log_calm started LInfo CNetwork
                (str "API Request [" ++ requestId ++ str "]") _ None w Hcalm
                (serializable_request (url args)
                   (match method args with
                    | Some (c :: m) => c :: m
                    | _ => str "GET"
                    end)))
      as [w1 [Hlog1 [L1 _]]];
    rewrite Hlog1; rewrite (logged_originalFetch w w1 L1), Horig.
  - cbv beta iota.
    destruct (log_calm settled LError CNetwork
                (str "API Error [" ++ requestId ++ str "]") _ None w1
                (logged_calm w w1 L1 Hcalm)
                (serializable_failure (duration_text (settled - started))
                   (match call_stack_exceeded with
                    | JsError _ msg => msg
                    | NonError _ => str "An unknown error occurred"
                    end)))
      as [w2 [Hlog2 [L2 _]]].
    unfold throw. rewrite Hlog2. exists w2. split; [reflexivity|].
    eapply logged_trans; eassumption.
  - destruct (IH w1) as [w2 [Hinner L2]].
    { rewrite (logged_originalFetch w w1 L1). exact Horig. }
    { apply (logged_calm w w1 L1 Hcalm). }
    rewrite Hinner. cbv beta iota.
    assert (L02 : logged w w2) by (eapply logged_trans; eassumption).
    destruct (log_calm settled LError CNetwork
                (str "API Error [" ++ requestId ++ str "]") _ None w2
                (logged_calm w w2 L02 Hcalm)
                (serializable_failure (duration_text (settled - started))
                   (match call_stack_exceeded with
                    | JsError _ msg => msg
                    | NonError _ => str "An unknown error occurred"
                    end)))
      as [w3 [Hlog3 [L3 _]]].
    unfold throw. rewrite Hlog3. exists w3. split; [reflexivity|].
    eapply logged_trans; eassumption.
Qed.

Lemma fetch_wrapper_unplugged depth started settled requestId args (w : World) :
  _originalFetch (mgr w) = None -> _isEnabled (mgr w) = false ->
  _fetch depth started settled requestId args w
  = (w, Throw (JsError "TypeError"
                 (str "Cannot read properties of null (reading 'apply')"))).
Proof.
  intros Horig Hoff.
  destruct depth; cbn [_fetch]; unfold try_catch, bind;
    rewrite (log_disabled _ _ _ _ _ _ w Hoff), Horig; cbv beta iota;
    rewrite (log_disabled _ _ _ _ _ _ w Hoff); reflexivity.
Qed.

(** X19: [enableDebug] is not protected against being called while the
    interceptors are in place (a second call, or a first call after the
    constructor found 'devDebugEnabled' set): it then saves the wrapper
    itself as the original [fetch].  From there every request ends in the
    wrapper calling itself until the stack is exhausted; the request
    never reaches the network.  A [disableDebug] after that puts the
    wrapper back as [window.fetch] with no original behind it, and every
    request raises a TypeError.  Listeners are taken to return. *)
Theorem enableDebug_twice_leaves_fetch_calling_itself :
  forall (now later : Z) (w : World),
    isClient (host w) = true ->
    peaceful w ->
    window_fetch (host w) = DebugFetch ->
    let w1 := fst (enableDebug now w) in
    let w2 := fst (disableDebug later w1) in
    _originalFetch (mgr w1) = Some DebugFetch
    /\ (forall depth started settled requestId args,
          snd (fetch depth started settled requestId args w1)
          = Throw call_stack_exceeded
          /\ network_calls (host (fst (fetch depth started settled requestId args w1)))
             = network_calls (host w1))
    /\ window_fetch (host w2) = DebugFetch
    /\ _originalFetch (mgr w2) = None
    /\ (forall depth started settled requestId args,
          fetch depth started settled requestId args w2
          = (w2, Throw (JsError "TypeError"
                          (str "Cannot read properties of null (reading 'apply')")))).
Proof.
  intros now later w Hclient Hp Hwrapped w1 w2. subst w2 w1.
  destruct (enableDebug_world now w Hclient Hp) as [w1 [Hrun [L _]]].
  rewrite Hrun. cbn [fst].
  destruct (logged_fields _ _ L)
    as [(H1 & H2 & _) (_ & M2 & M3 & _)].
  destruct (switched_on_fields w) as [(S1 & S2 & _) (_ & N2 & N3 & _)].
  cbn zeta in *.
  assert (Horig : _originalFetch (mgr w1) = Some DebugFetch) by congruence.
  assert (Hfetch : window_fetch (host w1) = DebugFetch) by congruence.
  assert (Hclient1 : isClient (host w1) = true) by congruence.
  assert (Hp1 : peaceful w1) by (unfold peaceful in *; congruence).
  split; [exact Horig|]. split.
  { intros depth started settled requestId args. unfold fetch. rewrite Hfetch.
    destruct (fetch_wrapper_loops depth started settled requestId args w1 Horig
                (fun _ => Hp1)) as [w' [Hloop L']].
    rewrite Hloop. cbn [fst snd]. split; [reflexivity|].
    apply (logged_network_calls _ _ L'). }
  rewrite (disableDebug_world later w1 Hclient1). cbn [fst].
  assert (Hoff : window_fetch (host (switched_off w1)) = DebugFetch
                 /\ _originalFetch (mgr (switched_off w1)) = None
                 /\ _isEnabled (mgr (switched_off w1)) = false).
  { destruct w1 as [h1 m1]. destruct h1, m1. cbn in Horig. subst.
    repeat split. }
  destruct Hoff as (Hf2 & Ho2 & He2).
  split; [exact Hf2|]. split; [exact Ho2|].
  intros depth started settled requestId args. unfold fetch. rewrite Hf2.
  apply fetch_wrapper_unplugged; assumption.
Qed.

(** Debug mode switched on twice in a browser that would answer every
    request. *)
Lemma enableDebug_twice_leaves_fetch_calling_itself_witness :
  let response := mkResponse 200 (str "OK") 7 in
  let args := mkFetchArgs (str "/api/chat") None in
  let w := run [OpEnableDebug 1] (fresh (fun _ => Ok response)) in
  native_fetch (host w) args = Ok response
  /\ snd (fetch 5 3 4 (str "k3x") args (fst (enableDebug 2 w))) = Throw call_stack_exceeded
  /\ network_calls (host (fst (fetch 5 3 4 (str "k3x") args (fst (enableDebug 2 w)))))
     = [].
Proof.
  intros response args w.
  destruct (enableDebug_twice_leaves_fetch_calling_itself 2 9 w)
    as (_ & Hloop & _).
  - reflexivity.
  - constructor.
  - reflexivity.
  - destruct (Hloop 5%nat 3 4 (str "k3x") args) as [Hthrow Hcalls].
    split; [reflexivity|]. split; [exact Hthrow|]. rewrite Hcalls.
    vm_compute. reflexivity.
Defined.

(** ** The constructor *)

Lemma intercepted_fields (w : World) :
  let w' := intercepted w in
  (isClient (host w') = isClient (host w)
   /\ window_fetch (host w') = DebugFetch
   /\ console (host w')
      = mkConsole DebugConsole DebugConsole DebugConsole DebugConsole
   /\ window_onerror (host w') = Some DebugHandler
   /\ window_onunhandledrejection (host w') = Some DebugHandler
   /\ localStorage_setItem (host w')
      = match localStorage_setItem (host w) with
        | StorageMethod => StorageMethod
        | original => DebugSetItem original
        end
   /\ document_cookie (host w')
      = (if cookie_descriptor_throws (host w) then document_cookie (host w)
         else DebugCookieSetter)
   /\ localStorage_items (host w')
      = match localStorage_setItem (host w) with
        | StorageMethod =>
            store_item (str "setItem") (setItem_wrapper_text (host w))
                       (localStorage_items (host w))
        | _ => localStorage_items (host w)
        end
   /\ cookie_writes (host w') = cookie_writes (host w)
   /\ intervals (host w') = intervals (host w)
   /\ next_interval (host w') = next_interval (host w)
   /\ network_calls (host w') = network_calls (host w)
   /\ console_output (host w') = console_output (host w))
  /\ (_isEnabled (mgr w') = _isEnabled (mgr w)
      /\ _listeners (mgr w') = _listeners (mgr w)
      /\ _originalFetch (mgr w') = Some (window_fetch (host w))
      /\ _originalConsole (mgr w') = _originalConsole (mgr w)
      /\ _cleanupInterval (mgr w') = _cleanupInterval (mgr w)).
Proof.
  destruct w as [h m]. destruct h, m.
  destruct localStorage_setItem0, cookie_descriptor_throws0; repeat split.
Qed.

(** X20: The constructor reads 'devDebugEnabled' once.  In a browser where it
    holds 'true' the manager starts with capture on, with the wrappers
    of [window.fetch] and of the console methods and both error handlers
    in place, but, unlike after [enableDebug], with no pruning timer and
    no notice in the buffer.  Its assignment to [localStorage.setItem]
    leaves the method of the platform's [Storage] as it is and stores the
    text of the arrow function under the key 'setItem'; on an ordinary
    object it wraps the function found there and stores nothing.  With
    any other value of the flag, or none, the manager starts with capture
    off and leaves the browser as it found it.  What
    [enableDebug] and [disableDebug] store is what the constructor of the
    next page load finds: the manager starts enabled after the first and
    disabled after the second.  Listeners are taken to return where
    [enableDebug] runs. *)
Theorem constructor_resumes_from_the_stored_flag :
  forall (t0 : Z) (h : Host),
    isClient h = true ->
    let w := fst (construct t0 h) in
    snd (construct t0 h) = Ok tt
    /\ (getItem (str "devDebugEnabled") (localStorage_items h) = Some (str "true") ->
        _isEnabled (mgr w) = true
        /\ window_fetch (host w) = DebugFetch
        /\ _originalFetch (mgr w) = Some (window_fetch h)
        /\ console (host w) = mkConsole DebugConsole DebugConsole DebugConsole DebugConsole
        /\ window_onerror (host w) = Some DebugHandler
        /\ window_onunhandledrejection (host w) = Some DebugHandler
        /\ match localStorage_setItem h with
           | StorageMethod =>
               localStorage_setItem (host w) = StorageMethod
               /\ localStorage_items (host w)
                  = store_item (str "setItem") (setItem_wrapper_text h)
                               (localStorage_items h)
           | original =>
               localStorage_setItem (host w) = DebugSetItem original
               /\ localStorage_items (host w) = localStorage_items h
           end
        /\ intervals (host w) = intervals h
        /\ _cleanupInterval (mgr w) = None
        /\ (cookie_descriptor_throws h = false -> getLogs w = []))
    /\ (getItem (str "devDebugEnabled") (localStorage_items h) <> Some (str "true") ->
        host w = h /\ _isEnabled (mgr w) = false /\ getLogs w = [])
    /\ (forall now x,
          isClient (host x) = true -> peaceful x ->
          localStorage_items h = localStorage_items (host (fst (enableDebug now x))) ->
          _isEnabled (mgr w) = true)
    /\ (forall now x,
          isClient (host x) = true ->
          localStorage_items h = localStorage_items (host (fst (disableDebug now x))) ->
          _isEnabled (mgr w) = false).
Proof.
  intros t0 h Hclient w.
  assert (Hon : getItem (str "devDebugEnabled") (localStorage_items h) = Some (str "true") ->
                exists w', construct t0 h = (w', Ok tt)
                  /\ logged (intercepted
                       {| host := h;
                          mgr := {| _logs := []; _isEnabled := true;
                                    _showLogsInDebugTabOnly := true; _listeners := [];
                                    _originalFetch := None; _originalConsole := console h;
                                    _cleanupInterval := None |} |}) w'
                  /\ (cookie_descriptor_throws h = false -> getLogs w' = [])).
  { intros Hflag. unfold construct. rewrite Hclient.
    rewrite (bool_decide_eq_true_2 _ Hflag).
    unfold on_mgr, set_isEnabled.
    cbn [host mgr _logs _isEnabled _showLogsInDebugTabOnly _listeners _originalFetch
         _originalConsole _cleanupInterval].
    match goal with
    | |- exists w', _setupDebugMode _ ?x = _ /\ _ =>
        destruct (setupDebugMode_world t0 x Hclient) as [w' [Hrun L]];
          [intros _; constructor|]
    end.
    exists w'. split; [exact Hrun|]. split; [exact L|].
    intros Hquiet. rewrite setupDebugMode_exact in Hrun by assumption.
    inversion Hrun; subst. unfold getLogs. rewrite intercepted_mgr. reflexivity. }
  assert (Hoff : getItem (str "devDebugEnabled") (localStorage_items h) <> Some (str "true") ->
                 construct t0 h
                 = ({| host := h;
                       mgr := {| _logs := []; _isEnabled := false;
                                 _showLogsInDebugTabOnly := true; _listeners := [];
                                 _originalFetch := None; _originalConsole := console h;
                                 _cleanupInterval := None |} |}, Ok tt)).
  { intros Hflag. unfold construct. rewrite Hclient.
    rewrite (bool_decide_eq_false_2 _ Hflag). reflexivity. }
  assert (Hstarts : getItem (str "devDebugEnabled") (localStorage_items h) = Some (str "true") ->
                    _isEnabled (mgr w) = true).
  { intros Hflag. destruct (Hon Hflag) as [w' [Hrun [L _]]].
    subst w. rewrite Hrun. cbn [fst].
    destruct (logged_fields _ _ L) as [_ (M1 & _)].
    destruct (intercepted_fields
                {| host := h;
                   mgr := {| _logs := []; _isEnabled := true;
                             _showLogsInDebugTabOnly := true; _listeners := [];
                             _originalFetch := None; _originalConsole := console h;
                             _cleanupInterval := None |} |}) as [_ (N1 & _)].
    cbn zeta in *. rewrite M1, N1. reflexivity. }
  split.
  { destruct (decide (getItem (str "devDebugEnabled") (localStorage_items h)
                      = Some (str "true"))) as [Hflag|Hflag].
    - destruct (Hon Hflag) as [w' [Hrun _]]. rewrite Hrun. reflexivity.
    - rewrite (Hoff Hflag). reflexivity. }
  split.
  { intros Hflag. destruct (Hon Hflag) as [w' [Hrun [L Hlogs]]].
    subst w. rewrite Hrun. cbn [fst].
    destruct (logged_fields _ _ L)
      as [(_ & H2 & H3 & H4 & H5 & H6 & _ & H8 & _ & H10 & _) (M1 & _ & M3 & _ & M5)].
    destruct (intercepted_fields
                {| host := h;
                   mgr := {| _logs := []; _isEnabled := true;
                             _showLogsInDebugTabOnly := true; _listeners := [];
                             _originalFetch := None; _originalConsole := console h;
                             _cleanupInterval := None |} |})
      as [(_ & S2 & S3 & S4 & S5 & S6 & _ & S8 & _ & S10 & _) (N1 & _ & N3 & _ & N5)].
    cbn zeta in *. cbn [host mgr _isEnabled _cleanupInterval] in *.
    split; [congruence|]. split; [congruence|]. split; [congruence|].
    split; [congruence|]. split; [congruence|]. split; [congruence|].
    split; [rewrite H6, S6, H8, S8; destruct (localStorage_setItem h); split; reflexivity|].
    split; [congruence|]. split; [congruence | exact Hlogs]. }
  split.
  { intros Hflag. subst w. rewrite (Hoff Hflag). repeat split. }
  split.
  - intros now x Hcx Hpx Hitems. apply Hstarts. rewrite Hitems.
    destruct (enableDebug_installs_flag now x Hcx Hpx) as [Hflag _]. exact Hflag.
  - intros now x Hcx Hitems. subst w.
    rewrite Hoff; [reflexivity|]. rewrite Hitems.
    rewrite (disableDebug_world now x Hcx). cbn [fst].
    assert (Hflag : getItem (str "devDebugEnabled")
                      (localStorage_items (host (switched_off x)))
                    = Some (str "false")).
    { destruct x as [hx mx]. destruct hx, mx. unfold switched_off, flag_written.
      destruct _originalFetch0; cbv -[str store_item getItem];
        apply getItem_store_item. }
    rewrite Hflag. intros H. inversion H.
Qed.

(** A browser in which debug mode was left on. *)
Lemma constructor_resumes_from_the_stored_flag_witness :
  let h := set_items [(str "devDebugEnabled", str "true")]
             (browser_host (fun _ => Throw (NonError 0))) in
  _isEnabled (mgr (fst (construct 5 h))) = true
  /\ window_fetch (host (fst (construct 5 h))) = DebugFetch
  /\ localStorage_setItem (host (fst (construct 5 h))) = StorageMethod
  /\ localStorage_items (host (fst (construct 5 h)))
     = [(str "devDebugEnabled", str "true"); (str "setItem", str "(key,value)=>{...}")]
  /\ intervals (host (fst (construct 5 h))) = [].
Proof.
  intros h.
  destruct (constructor_resumes_from_the_stored_flag 5 h eq_refl)
    as (_ & Hon & _).
  destruct Hon as (Hen & Hfetch & _ & _ & _ & _ & [Hmethod Hitems] & Htimers & _);
    [reflexivity|].
  split; [exact Hen|]. split; [exact Hfetch|]. split; [exact Hmethod|].
  split; [exact Hitems | exact Htimers].
Defined.

(** ** The console interceptor *)

(** X21: A call of an intercepted console method whose original is the
    platform's, among listeners that return while capture is enabled.
    When [JSON.stringify] accepts the arguments after the first, the
    call prints exactly what the platform's method would have printed,
    once, after the entry has been put at the head of the buffer with the
    level of the method (debug for [log]), the category system and the
    first argument, cut at 1000 code units, as its message.  When one of
    those arguments is circular or a BigInt and capture is enabled, the
    call raises the TypeError of [JSON.stringify]: nothing is printed and
    nothing is stored. *)
Theorem console_interceptor_prints_after_logging :
  forall (depth : nat) (now : Z) (m : ConsoleMethod) (first : JsString)
         (others : list JsValue) (w : World),
    console_slot m (console (host w)) = DebugConsole ->
    console_slot m (_originalConsole (mgr w)) = NativeConsole ->
    calm w ->
    let result := console_call depth now m first others w in
    (Forall serializable others ->
     snd result = Ok tt
     /\ console_output (host (fst result))
        = console_output (host w) ++ [(m, JString first, others)]
     /\ (_isEnabled (mgr w) = true ->
         exists entry,
           hd_error (getLogs (fst result)) = Some entry
           /\ timestamp entry = now /\ level entry = method_level m
           /\ category entry = CSystem /\ message entry = firstn 1000 first))
    /\ (_isEnabled (mgr w) = true ->
        forall e, stringify (JArray others) = Throw e -> result = (w, Throw e)).
Proof.
  intros depth now m first others w Hslot Horig Hcalm result. subst result.
  unfold console_call. rewrite Hslot.
  assert (Hbody : debug_console depth now m first others w
                  = bind (_log now (method_level m) CSystem first (JArray others) None)
                      (fun _ w0 =>
                         match console_slot m (_originalConsole (mgr w0)) with
                         | NativeConsole => emit_console m (JString first) others w0
                         | DebugConsole =>
                             match depth with
                             | O => (w0, Throw call_stack_exceeded)
                             | S depth' => debug_console depth' now m first others w0
                             end
                         end) w).
  { destruct depth; reflexivity. }
  rewrite Hbody. clear Hbody. unfold bind. split.
  - intros Hser.
    destruct (log_calm now (method_level m) CSystem first (JArray others) None w Hcalm
                (proj2 (TruncationFacts.serializable_array others) Hser))
      as [w1 [Hlog [L Hhead]]].
    rewrite Hlog.
    destruct (logged_fields _ _ L)
      as [(_ & _ & _ & _ & _ & _ & _ & _ & _ & _ & _ & _ & Hout) (_ & _ & _ & Hcons & _)].
    rewrite Hcons, Horig. unfold emit_console, modify. cbn [fst snd].
    split; [reflexivity|]. split.
    + cbn [host on_host console_output set_console_output]. rewrite Hout. reflexivity.
    + intros Hen. destruct (Hhead Hen) as [entry (E1 & E2 & E3 & E4 & E5)].
      exists entry. repeat split; assumption.
  - intros Hen e He. unfold _log. rewrite Hen. cbn [negb truthy].
    rewrite (TruncationFacts.truncateData_throws _ _ _ He). reflexivity.
Qed.

(** [console.warn] with a circular argument while debug mode is on. *)
Lemma console_interceptor_prints_after_logging_witness :
  let w := run [OpEnableDebug 1] (fresh (fun _ => Throw (NonError 0))) in
  console_call 0 2 MWarn (str "state") [JObject [(str "self", JCycle)]] w
  = (w, Throw (JsError "TypeError" (str "Converting circular structure to JSON"))).
Proof.
  intros w.
  destruct (console_interceptor_prints_after_logging
              0 2 MWarn (str "state") [JObject [(str "self", JCycle)]] w)
    as [_ Hraise].
  - reflexivity.
  - reflexivity.
  - intros _. constructor.
  - apply Hraise; reflexivity.
Defined.

(** ** Payloads that are falsy *)

(** X22: [_log] tests its payload for truthiness: a payload of 0, false, the
    empty string or null is stored as no payload at all, and a BigInt 0,
    which [JSON.stringify] would refuse, raises nothing.  The entry is
    stored as for a call without payload. *)
Theorem falsy_payload_is_stored_as_no_data :
  forall (c : LogCall) (w : World),
    _isEnabled (mgr w) = true ->
    truthy (call_data c) = false ->
    let entry := make_entry (call_now c) (call_level c) (call_category c)
                            (call_message c) JUndefined (call_trace c) in
    (call_data c = JUndefined \/ call_data c = JNull \/ call_data c = JBool false
     \/ call_data c = JNumber 0 \/ call_data c = JBigInt 0 \/ call_data c = JString [])
    /\ data entry = JUndefined
    /\ getLogs (fst (log_call c w)) = unshift_capped entry (getLogs w)
    /\ (Forall (fun l => listener_run l entry = None) (_listeners (mgr w)) ->
        log_call c w = (handed (_listeners (mgr w)) entry (stored entry w), Ok tt)).
Proof.
  intros c w Hen Hfalsy entry.
  assert (Happ : appended_entry c = Some entry).
  { unfold appended_entry. rewrite Hfalsy. reflexivity. }
  split.
  { destruct (call_data c) as [| |[|]|n|n|[|ch s]| | |]; cbn in Hfalsy;
      try discriminate;
      try (apply negb_false_iff, Z.eqb_eq in Hfalsy; subst); auto 10. }
  split; [reflexivity|]. split.
  - unfold getLogs. rewrite (log_call_mgr c w Hen), Happ. reflexivity.
  - intros Hq. rewrite (log_call_enabled c entry w Hen Happ).
    apply (notify_all _ entry (stored entry w)). exact Hq.
Qed.

(** A counter that has reached 0 is logged. *)
Lemma falsy_payload_is_stored_as_no_data_witness :
  let w := run [OpEnableDebug 1] (fresh (fun _ => Throw (NonError 0))) in
  let c := mkLogCall 2 LInfo CUser (str "count") (JNumber 0) None in
  List.map data (firstn 1 (getLogs (fst (log_call c w)))) = [JUndefined].
Proof.
  intros w c.
  destruct (falsy_payload_is_stored_as_no_data c w eq_refl eq_refl)
    as (_ & _ & Hlogs & _).
  rewrite Hlogs. reflexivity.
Defined.

(** ** The storage monitors *)

Lemma log_raises now lvl cat msg payload tr (w : World)
  (bad : Listener) (rest : list Listener) (err : Thrown) :
  _isEnabled (mgr w) = true ->
  _listeners (mgr w) = bad :: rest ->
  (forall entry, listener_run bad entry = Some err) ->
  serializable payload ->
  exists w', _log now lvl cat msg payload tr w = (w', Throw err) /\ logged w w'.
Proof.
  intros Hen Hls Hbad Hser.
  pose proof (log_logged now lvl cat msg payload tr w) as L.
  assert (Hres : snd (_log now lvl cat msg payload tr w) = Throw err).
  { unfold _log. rewrite Hen. cbn [negb].
    assert (Htr : exists truncated,
              (if truthy payload then truncateData payload _maxDataSize
               else Ok JUndefined) = Ok truncated).
    { destruct (truthy payload); [|eauto].
      destruct (TruncationFacts.truncateData_total payload Hser _maxDataSize)
        as [v' [Hv' _]]. eauto. }
    destruct Htr as [truncated Htr]. rewrite Htr.
    cbn [mgr on_mgr set_logs _listeners]. rewrite Hls. cbn [notify].
    rewrite Hbad. reflexivity. }
  destruct (_log now lvl cat msg payload tr w) as [w' r]. cbn [fst snd] in *.
  subst r. exists w'. split; [reflexivity | exact L].
Qed.

(** X23: On the platform's [Storage] a call of [localStorage.setItem] is
    never intercepted: whether capture is on or off and whatever the
    listeners do, it returns, stores the item and logs nothing.  The
    cookie setter of the manager logs first and writes second.  Among
    listeners that return, a cookie assignment is passed on once, and a
    call of [localStorage.setItem] stores the item whatever a read of
    [localStorage.setItem] finds: the key then reads back the value and
    no other key is affected.  While capture is enabled with a first
    listener that raises, a cookie assignment through the manager's
    setter raises the listener's error and the write is lost. *)
Theorem cookie_monitor_forwards_unless_a_listener_raises :
  forall (now : Z) (key value : JsString) (w : World),
    (localStorage_setItem (host w) = StorageMethod ->
     let w' := fst (localStorage_setItem_call now key value w) in
     snd (localStorage_setItem_call now key value w) = Ok tt
     /\ getItem key (localStorage_items (host w')) = Some value
     /\ (forall other, other <> key ->
         getItem other (localStorage_items (host w'))
         = getItem other (localStorage_items (host w)))
     /\ getLogs w' = getLogs w
     /\ delivered (host w') = delivered (host w))
    /\ (peaceful w ->
        snd (localStorage_setItem_call now key value w) = Ok tt
        /\ getItem key (localStorage_items
                         (host (fst (localStorage_setItem_call now key value w))))
           = Some value
        /\ (forall other, other <> key ->
            getItem other (localStorage_items
                             (host (fst (localStorage_setItem_call now key value w))))
            = getItem other (localStorage_items (host w)))
        /\ snd (document_cookie_write now value w) = Ok tt
        /\ cookie_writes (host (fst (document_cookie_write now value w)))
           = cookie_writes (host w) ++ [value])
    /\ (forall bad rest err,
          _isEnabled (mgr w) = true ->
          _listeners (mgr w) = bad :: rest ->
          (forall entry, listener_run bad entry = Some err) ->
          document_cookie (host w) = DebugCookieSetter ->
          snd (document_cookie_write now value w) = Throw err
          /\ cookie_writes (host (fst (document_cookie_write now value w)))
             = cookie_writes (host w)).
Proof.
  intros now key value w. split; [|split].
  - intros Hmethod w'. subst w'. unfold localStorage_setItem_call.
    rewrite Hmethod. cbn [call_setItem]. unfold modify, getLogs.
    cbn [fst snd host mgr on_host].
    destruct w as [h m]. destruct h. cbn [host localStorage_items set_items delivered].
    split; [reflexivity|]. split; [apply getItem_store_item|].
    split; [intros other Hne; apply getItem_store_other, Hne|].
    split; reflexivity.
  - intros Hp. unfold localStorage_setItem_call.
    destruct (call_setItem_world (localStorage_setItem (host w)) now key value w Hp)
      as [w1 [Hcall L]].
    rewrite Hcall. cbn [fst snd].
    destruct (logged_fields _ _ L) as [(_ & _ & _ & _ & _ & _ & _ & Hitems & _) _].
    cbn [host on_host localStorage_items set_items] in Hitems.
    rewrite Hitems.
    split; [reflexivity|]. split; [apply getItem_store_item|].
    split; [intros other Hne; apply getItem_store_other, Hne|].
    unfold document_cookie_write.
    destruct (document_cookie (host w)).
    + unfold modify. cbn. auto.
    + unfold bind.
      destruct (log_calm now LInfo CState (str "Cookie Update")
                  (JObject [(str "value", JString value)]) None w (fun _ => Hp))
        as [w2 [Hlog [L2 _]]]; [eexists; reflexivity|].
      rewrite Hlog. unfold modify. cbn [fst snd].
      destruct (logged_fields _ _ L2) as [(_ & _ & _ & _ & _ & _ & _ & _ & Hw & _) _].
      cbn [host on_host cookie_writes set_cookie_writes]. rewrite Hw. auto.
  - intros bad rest err Hen Hls Hbad Hwrapped.
    unfold document_cookie_write. rewrite Hwrapped. unfold bind.
    destruct (log_raises now LInfo CState (str "Cookie Update")
                (JObject [(str "value", JString value)])
                None w bad rest err Hen Hls Hbad) as [w1 [Hlog L]];
      [eexists; reflexivity|].
    rewrite Hlog. cbn [fst snd]. split; [reflexivity|].
    destruct (logged_fields _ _ L) as [(_ & _ & _ & _ & _ & _ & _ & _ & Hw & _) _].
    exact Hw.
Qed.

(** A browser with debug mode on and a listener that raises: the theme
    is stored, the cookie is not. *)
Lemma cookie_monitor_forwards_unless_a_listener_raises_witness :
  let boom := JsError "Error" (str "listener failed") in
  let bad := {| listener_id := 1; listener_run := fun _ => Some boom |} in
  let w := run [OpEnableDebug 1; OpAddListener bad]
               (fst (construct 0 (browser_host (fun _ => Throw (NonError 0))))) in
  snd (localStorage_setItem_call 2 (str "theme") (str "dark") w) = Ok tt
  /\ getItem (str "theme")
       (localStorage_items (host (fst (localStorage_setItem_call 2 (str "theme")
                                         (str "dark") w))))
     = Some (str "dark")
  /\ snd (document_cookie_write 2 (str "theme=dark") w) = Throw boom
  /\ cookie_writes (host (fst (document_cookie_write 2 (str "theme=dark") w))) = [].
Proof.
  intros boom bad w.
  destruct (cookie_monitor_forwards_unless_a_listener_raises
              2 (str "theme") (str "dark") w) as [Hstorage _].
  destruct (cookie_monitor_forwards_unless_a_listener_raises
              2 (str "theme=dark") (str "theme=dark") w) as (_ & _ & Hcookie).
  destruct (Hstorage eq_refl) as (Hok & Hread & _).
  destruct (Hcookie bad [] boom) as [Hthrow Hwrites]; try reflexivity.
  split; [exact Hok|]. split; [exact Hread|]. split; [exact Hthrow|].
  rewrite Hwrites. reflexivity.
Defined.

(** ** The pruning timer *)

Lemma filter_sorted_prefix (cutoff : Z) (logs : list LogEntry) :
  StronglySorted (fun a b => timestamp b <= timestamp a) logs ->
  exists k, List.filter (fun log => cutoff <? timestamp log) logs = firstn k logs.
Proof.
  induction 1 as [|a logs Hsorted IH Ha]; [exists 0%nat; reflexivity|].
  cbn [List.filter]. destruct (Z.ltb_spec cutoff (timestamp a)) as [Hnew|Hold].
  - destruct IH as [k Hk]. exists (S k). cbn [firstn]. rewrite Hk. reflexivity.
  - exists 0%nat. cbn [firstn].
    clear IH Hsorted. induction Ha as [|b logs Hb _ IHl]; [reflexivity|].
    cbn [List.filter]. destruct (Z.ltb_spec cutoff (timestamp b)); [lia|].
    exact IHl.
Qed.

(** X24: A tick of the pruning timer, which keeps running whether capture is
    on or off, returns without calling a listener and touches nothing but
    the buffer.  It keeps, in their order, exactly the entries stamped
    less than an hour before the tick: an entry exactly one hour old is
    dropped.  When the buffer is in order of arrival, newest first, what
    it keeps is a prefix of the buffer: the oldest entries go.  A timer
    that is not scheduled does nothing. *)
Theorem cleanup_tick_drops_entries_an_hour_old :
  forall (id : nat) (now : Z) (w : World),
    let w' := fst (fire_interval id now w) in
    snd (fire_interval id now w) = Ok tt
    /\ host w' = host w
    /\ _listeners (mgr w') = _listeners (mgr w)
    /\ _isEnabled (mgr w') = _isEnabled (mgr w)
    /\ (~ In id (intervals (host w)) -> w' = w)
    /\ (In id (intervals (host w)) ->
        getLogs w' = List.filter (fun log => now - 3600000 <? timestamp log) (getLogs w)
        /\ (forall entry, In entry (getLogs w')
                          <-> In entry (getLogs w) /\ now - timestamp entry < 3600000)
        /\ (forall entry, timestamp entry = now - 3600000 -> ~ In entry (getLogs w'))
        /\ (StronglySorted (fun a b => timestamp b <= timestamp a) (getLogs w) ->
            exists k, getLogs w' = firstn k (getLogs w))).
Proof.
  intros id now w w'. subst w'. unfold fire_interval.
  destruct (existsb (Nat.eqb id) (intervals (host w))) eqn:Hex.
  - assert (Hin : In id (intervals (host w))).
    { apply existsb_exists in Hex as [x [Hx Heq]]. apply Nat.eqb_eq in Heq. congruence. }
    unfold cleanup_tick, modify, getLogs. cbn [fst snd host mgr on_mgr set_logs _logs
      _listeners _isEnabled].
    change hour_ms with 3600000.
    do 4 (split; [reflexivity|]).
    split; [intros Hout; contradiction|]. intros _.
    split; [reflexivity|]. split; [|split].
    + intros entry. rewrite filter_In, Z.ltb_lt. split; intros [H1 H2]; split; auto; lia.
    + intros entry Hts Hentry. apply filter_In in Hentry as [_ Hnew].
      apply Z.ltb_lt in Hnew. lia.
    + intros Hsorted. apply filter_sorted_prefix, Hsorted.
  - assert (Hout : ~ In id (intervals (host w))).
    { intros Hin. assert (Htrue : existsb (Nat.eqb id) (intervals (host w)) = true).
      { apply existsb_exists. exists id. split; [exact Hin | apply Nat.eqb_refl]. }
      congruence. }
    cbn [fst snd]. do 4 (split; [reflexivity|]).
    split; [reflexivity|]. intros Hin. contradiction.
Qed.

(** Three entries, the oldest of which is exactly one hour old at the
    tick. *)
Lemma cleanup_tick_drops_entries_an_hour_old_witness :
  let at_ := fun t => OpLog (mkLogCall t LInfo CUser (str "tick") JUndefined None) in
  let w := run [OpEnableDebug 1000; at_ 2000; at_ 3000]
               (fresh (fun _ => Throw (NonError 0))) in
  List.map timestamp (getLogs w) = [3000; 2000; 1000]
  /\ List.map timestamp (getLogs (fst (fire_interval 1 3601000 w))) = [3000; 2000].
Proof.
  intros at_ w.
  destruct (cleanup_tick_drops_entries_an_hour_old 1 3601000 w)
    as (_ & _ & _ & _ & _ & Hin).
  destruct Hin as (Hlogs & _); [left; reflexivity|].
  split; [reflexivity|]. rewrite Hlogs. reflexivity.
Defined.

(** ** The error handlers *)

(** X26: The handler the manager installs on [window.onerror] logs an entry
    of level error and category error with the message 'Uncaught Error'
    and returns false, so that the browser goes on to its own handling of
    the error; the handler for unhandled rejections logs likewise.  Among
    listeners that return the first always returns; the second returns
    when [JSON.stringify] accepts the reason of the rejection, and while
    capture is enabled raises its TypeError, storing nothing, when the
    reason is circular or a BigInt. *)
Theorem error_handlers_log_and_return :
  forall (now : Z) (msg source : JsString) (lineno colno : Z) (reason : JsValue)
         (w : World),
    calm w ->
    (exists w',
        debug_onerror now msg source lineno colno w = (w', Ok false)
        /\ logged w w'
        /\ (_isEnabled (mgr w) = true ->
            exists entry,
              hd_error (getLogs w') = Some entry
              /\ timestamp entry = now /\ level entry = LError
              /\ category entry = CError /\ message entry = str "Uncaught Error"))
    /\ (serializable reason ->
        exists w',
          debug_onunhandledrejection now reason w = (w', Ok tt)
          /\ logged w w'
          /\ (_isEnabled (mgr w) = true ->
              exists entry,
                hd_error (getLogs w') = Some entry
                /\ timestamp entry = now /\ level entry = LError
                /\ category entry = CError
                /\ message entry = str "Unhandled Promise Rejection"))
    /\ (_isEnabled (mgr w) = true ->
        forall e, stringify reason = Throw e ->
        exists e', debug_onunhandledrejection now reason w = (w, Throw e')).
Proof.
  intros now msg source lineno colno reason w Hcalm. split; [|split].
  - unfold debug_onerror, bind.
    destruct (log_calm now LError CError (str "Uncaught Error")
                (JObject [(str "message", JString msg); (str "source", JString source);
                          (str "lineno", JNumber lineno); (str "colno", JNumber colno)])
                None w Hcalm) as [w' [Hlog [L Hhead]]]; [eexists; reflexivity|].
    rewrite Hlog. exists w'. split; [reflexivity|]. split; [exact L|].
    intros Hen. destruct (Hhead Hen) as [entry (E1 & E2 & E3 & E4 & E5)].
    exists entry. repeat split; assumption.
  - intros Hser. unfold debug_onunhandledrejection.
    destruct (log_calm now LError CError (str "Unhandled Promise Rejection")
                (JObject [(str "reason", reason)]) None w Hcalm)
      as [w' [Hlog [L Hhead]]].
    { apply TruncationFacts.serializable_object. repeat constructor. exact Hser. }
    exists w'. split; [exact Hlog|]. split; [exact L|].
    intros Hen. destruct (Hhead Hen) as [entry (E1 & E2 & E3 & E4 & E5)].
    exists entry. repeat split; assumption.
  - intros Hen e He. unfold debug_onunhandledrejection.
    destruct (stringify (JObject [(str "reason", reason)])) as [o|e'] eqn:Hs.
    + exfalso.
      assert (Hser : serializable (JObject [(str "reason", reason)]))
        by (eexists; exact Hs).
      apply TruncationFacts.serializable_object in Hser.
      inversion Hser as [|? ? [o' Ho'] _]; subst. cbn [snd] in Ho'. congruence.
    + exists e'. unfold _log. rewrite Hen. cbn [negb truthy].
      rewrite (TruncationFacts.truncateData_throws _ _ _ Hs). reflexivity.
Qed.

(** An uncaught error while debug mode is on. *)
Lemma error_handlers_log_and_return_witness :
  let w := run [OpEnableDebug 1] (fresh (fun _ => Throw (NonError 0))) in
  snd (debug_onerror 2 (str "x is not defined") (str "app.js") 10 4 w) = Ok false
  /\ List.map message
       (firstn 1 (getLogs (fst (debug_onerror 2 (str "x is not defined")
                                  (str "app.js") 10 4 w))))
     = [str "Uncaught Error"].
Proof.
  intros w.
  destruct (error_handlers_log_and_return
              2 (str "x is not defined") (str "app.js") 10 4 JNull w)
    as [(w' & Hrun & _ & Hhead) _].
  - intros _. constructor.
  - rewrite Hrun. cbn [fst snd]. split; [reflexivity|].
    destruct (Hhead eq_refl) as [entry (Hhd & _ & _ & _ & Hmsg)].
    unfold getLogs in *. destruct (_logs (mgr w')) as [|first rest];
      [discriminate Hhd|].
    cbn in Hhd. inversion Hhd; subst. cbn [firstn List.map]. rewrite Hmsg. reflexivity.
Defined.

End DebugMore.

(* ===================================================================== *)
(** * The shape of a truncated payload                                    *)
(* ===================================================================== *)

Module TruncationMore.

Import Json Debug TruncationFacts.

Lemma truncate_items_pointwise (f : JsValue -> Result JsValue) (n : nat)
  (l l' : list JsValue) :
  truncate_items f n l = Ok l' ->
  Forall2 (fun x x' => f x = Ok x') (firstn n l) l'.
Proof.
  revert n l'. induction l as [|x l IH]; intros [|n] l' H; cbn in H;
    try (inversion H; subst; constructor).
  destruct (f x) as [x'|e] eqn:Hx; [|discriminate].
  destruct (truncate_items f n l) as [rest|e] eqn:Hrest; [|discriminate].
  inversion H; subst. cbn [firstn]. constructor; [exact Hx | apply IH, Hrest].
Qed.

(** The loop over the entries: it keeps a leading part of them, takes
    each entry while the bytes counted so far are below the budget, and
    leaves entries out only once the count has reached the budget. *)
Lemma truncate_entries_pointwise (f : JsValue -> Result JsValue) (maxSize : Q)
  (l : list (JsString * JsValue)) :
  forall truncated currentSize result,
    truncate_entries f maxSize l truncated currentSize = Ok result ->
    exists n added,
      result = truncated ++ added
      /\ Forall2 (fun kv kv' => fst kv' = fst kv /\ f (snd kv) = Ok (snd kv'))
                 (firstn n l) added
      /\ (forall k, (k < n)%nat ->
            (inject_Z (currentSize + counted_bytes (firstn k added)) < maxSize)%Q)
      /\ ((n < length l)%nat ->
          (maxSize <= inject_Z (currentSize + counted_bytes added))%Q).
Proof.
  induction l as [|[key value] l IH]; intros truncated currentSize result H;
    cbn [truncate_entries] in H.
  - inversion H; subst. exists 0%nat, []. rewrite app_nil_r.
    split; [reflexivity|]. split; [constructor|].
    split; [intros k Hk; lia | cbn [length]; lia].
  - destruct (Qle_bool maxSize (inject_Z currentSize)) eqn:Hstop.
    + inversion H; subst. exists 0%nat, []. rewrite app_nil_r.
      split; [reflexivity|]. split; [constructor|].
      split; [intros k Hk; lia|]. intros _. cbn [counted_bytes fold_right].
      rewrite Z.add_0_r. apply Qle_bool_iff, Hstop.
    + assert (Hgo : (inject_Z currentSize < maxSize)%Q).
      { apply Qnot_le_lt. intros Hle. apply Qle_bool_iff in Hle. congruence. }
      destruct (f value) as [value'|e] eqn:Hv; [|discriminate].
      destruct (byteSize value') as [sz|e] eqn:Hsz; [|discriminate].
      destruct (IH _ _ _ H) as (n & added & -> & Hadded & Htaken & Hleft).
      exists (S n), ((key, value') :: added). rewrite <- app_assoc.
      split; [reflexivity|]. split.
      { cbn [firstn]. constructor; [|exact Hadded]. split; [reflexivity | exact Hv]. }
      split.
      * intros [|k] Hk.
        -- cbn [firstn counted_bytes fold_right]. rewrite Z.add_0_r. exact Hgo.
        -- cbn [firstn counted_bytes fold_right snd]. rewrite Hsz.
           fold (counted_bytes (firstn k added)).
           rewrite Z.add_assoc. apply Htaken. lia.
      * intros Hn. cbn [length] in Hn.
        cbn [counted_bytes fold_right snd]. rewrite Hsz.
        fold (counted_bytes added). rewrite Z.add_assoc. apply Hleft. lia.
Qed.

(** X25: [truncateData] on a value that [JSON.stringify] accepts, numbers
    being safe integers and no object having a key '__proto__'.  Within
    the budget the value comes back as it is.  Over the budget, a string
    is cut to half the budget, rounded down, in code units, and marked;
    an array keeps its first ten elements, each truncated against a tenth
    of the budget; an object keeps a leading part of its entries, under
    their own keys and in their order, each value truncated against a
    quarter of the budget, an entry being taken as long as the sizes of
    the values written so far are below the budget; a number, a boolean
    and null come back as they are. *)
Theorem truncateData_cuts_by_kind :
  forall (v : JsValue) (maxSize : Q) (size : Z),
    representable v = true ->
    byteSize v = Ok size ->
    ((inject_Z size <= maxSize)%Q -> truncateData v maxSize = Ok v)
    /\ ((maxSize < inject_Z size)%Q ->
        match v with
        | JString s =>
            truncateData v maxSize
            = Ok (JString (firstn (Z.to_nat (Qfloor (maxSize / 2))) s
                             ++ truncation_marker))
        | JArray items =>
            exists items',
              truncateData v maxSize = Ok (JArray items')
              /\ Forall2 (fun x x' => truncateData x (maxSize / 10) = Ok x')
                         (firstn 10 items) items'
        | JObject props =>
            exists n props',
              truncateData v maxSize = Ok (JObject props')
              /\ Forall2 (fun kv kv' =>
                            fst kv' = fst kv
                            /\ truncateData (snd kv) (maxSize / 4) = Ok (snd kv'))
                         (firstn n props) props'
              /\ (forall k, (k < n)%nat ->
                    (inject_Z (counted_bytes (firstn k props')) < maxSize)%Q)
              /\ ((n < length props)%nat ->
                  (maxSize <= inject_Z (counted_bytes props'))%Q)
        | _ => truncateData v maxSize = Ok v
        end).
Proof.
  intros v maxSize size _ Hsize.
  assert (Hser : serializable v).
  { unfold byteSize in Hsize. unfold serializable.
    destruct (stringify v) as [o|e]; [eauto | discriminate]. }
  destruct (truncateData_total v Hser maxSize) as [v' [Hv' _]].
  rewrite truncateData_unfold in Hv'. rewrite truncateData_unfold, Hsize.
  rewrite Hsize in Hv'. split.
  - intros Hin. apply Qle_bool_iff in Hin. rewrite Hin. reflexivity.
  - intros Hover.
    assert (Hout : Qle_bool (inject_Z size) maxSize = false).
    { destruct (Qle_bool (inject_Z size) maxSize) eqn:Hle; [|reflexivity].
      apply Qle_bool_iff in Hle. exfalso. exact (Qlt_not_le _ _ Hover Hle). }
    rewrite Hout in *. destruct v; try reflexivity.
    + destruct (truncate_items _ 10 items) as [items'|e] eqn:Hitems; [|discriminate].
      exists items'. split; [reflexivity|].
      apply (truncate_items_pointwise _ _ _ _ Hitems).
    + destruct (truncate_entries _ maxSize props [] 0) as [props'|e] eqn:Hprops;
        [|discriminate].
      destruct (truncate_entries_pointwise _ _ _ _ _ _ Hprops)
        as (n & added & -> & Hadded & Htaken & Hleft).
      exists n, added. split; [reflexivity|]. split; [exact Hadded|].
      split; [intros k Hk; exact (Htaken k Hk) | exact Hleft].
Qed.

(** An array of twelve numbers against a budget of 8 bytes, and an object
    of three texts against a budget of 12 bytes: the first value, cut and
    marked, uses up the budget, and the other entries are left out. *)
Lemma truncateData_cuts_by_kind_witness :
  let numbers := JArray (List.map JNumber [1; 2; 3; 4; 5; 6; 7; 8; 9; 10; 11; 12]) in
  let texts := JObject [(str "a", JString (str "one")); (str "b", JString (str "two"));
                        (str "c", JString (str "three"))] in
  (exists items', truncateData numbers 8 = Ok (JArray items') /\ length items' = 10%nat)
  /\ (exists props',
        truncateData texts 12 = Ok (JObject props')
        /\ props' = [(str "a", JString (str "o... [truncated]"))]).
Proof.
  intros numbers texts. split.
  - destruct (truncateData_cuts_by_kind numbers 8 28 eq_refl eq_refl) as [_ Hcut].
    destruct Hcut as (items' & Hrun & Hitems); [reflexivity|].
    exists items'. split; [exact Hrun|].
    apply Forall2_length in Hitems. rewrite <- Hitems. reflexivity.
  - destruct (truncateData_cuts_by_kind texts 12 33 eq_refl eq_refl) as [_ Hcut].
    destruct Hcut as (n & props' & Hrun & _); [reflexivity|].
    exists props'. split; [exact Hrun|].
    vm_compute in Hrun. inversion Hrun. reflexivity.
Defined.

End TruncationMore.
